(** * Tube Bite: clip-generation client and pipeline contract

    Part I embeds the TypeScript sources (the shared types, the Dashboard
    page with its progress updater, request construction and time limit, the
    History page with its trash bookkeeping, the theme and route guards,
    the Profile page, the authentication provider and the login form).
    Part II models the pipeline stages that the sources only name
    (selector, detector, renderer, orchestrator).  Part III holds the
    theorems on the data model and the pipeline contract, Part IV further
    properties of the sources. *)

From Stdlib Require Import ZArith QArith Qround Qminmax List String Bool Lia.
From Stdlib Require Import Permutation Sorted DecimalString Lqa Ascii.
Import ListNotations.

Local Open Scope Z_scope.

(* ================================================================== *)
(** * Part I — the sources *)
(* ================================================================== *)

(** ** types/index.ts *)

Module Types.

(** [DetectionMethod = 'ai'] *)
Inductive DetectionMethod : Type := ai.

(** [ClipSettings['aspectRatio']] : ['9:16' | '1:1' | '4:5' | '16:9'] *)
Inductive AspectRatio : Type := R9_16 | R1_1 | R4_5 | R16_9.

(** [ClipSettings['duration']] : ['auto' | number] *)
Inductive Duration : Type :=
| auto
| seconds (n : Z).

Record ClipSettings : Type := mkClipSettings {
  duration : Duration;
  aspectRatio : AspectRatio;
  numberOfClips : Z;
  generateSubtitles : bool;
  template : string;
  detectionMethod : DetectionMethod
}.

Inductive SourceType : Type := youtube | twitch | upload.

(** Optional fields ([?:]) are [option]s; [viralScore], [startTime] and
    [endTime] are JavaScript numbers, kept as rationals. *)
Record GeneratedClip : Type := mkGeneratedClip {
  clip_id : string;
  title : string;
  thumbnail : string;
  clip_duration : string;
  clip_aspectRatio : string;
  clip_template : string;
  hasSubtitles : bool;
  video_url : string;
  downloadUrl : string;
  clip_createdAt : string;
  clip_detectionMethod : option string;
  viralReason : option string;
  viralScore : option Q;
  startTime : option Q;
  endTime : option Q
}.

Inductive Status : Type := completed | processing | failed.

Record HistoryItem : Type := mkHistoryItem {
  id : string;
  sourceType : SourceType;
  sourceName : string;
  sourceThumbnail : string;
  clips : list GeneratedClip;
  settings : ClipSettings;
  createdAt : string;
  status : Status;
  deletedAt : option string;
  trashedAt : option string
}.

End Types.

(** ** Dashboard: [handleGenerate] and the settings form *)

Module Dashboard.
Import Types.

Definition PROCESSING_STAGES : list string :=
  [ "Downloading video…"; "Extracting audio…"; "Transcribing speech (Whisper)…";
    "Analysing transcript with AI…"; "Detecting viral moments…";
    "Ranking by engagement potential…"; "Extracting selected clips…";
    "Applying aspect ratio (letterbox)…"; "Burning subtitles…";
    "Uploading to cloud…"; "Finalising clips…" ]%string.

Definition UPLOAD_STAGES : list string :=
  [ "Reading video file…"; "Uploading to server…"; "Transcribing speech (Whisper)…";
    "Analysing transcript with AI…"; "Detecting viral moments…";
    "Ranking by engagement potential…"; "Extracting selected clips…";
    "Applying aspect ratio (letterbox)…"; "Burning subtitles…";
    "Uploading to cloud…"; "Finalising clips…" ]%string.

Definition stages_for (sourceTab : SourceType) : list string :=
  match sourceTab with
  | upload => UPLOAD_STAGES
  | _ => PROCESSING_STAGES
  end.

(** *** The settings form *)

Definition ASPECT_RATIOS : list AspectRatio := [R9_16; R1_1; R4_5; R16_9].

(** The duration buttons: [(['auto', 15, 30, 45, 60] as const).map(...)]. *)
Definition DURATION_OPTIONS : list Duration :=
  [auto; seconds 15; seconds 30; seconds 45; seconds 60].

(** The clip-count buttons: [[1, 2, 3, 5, 10].map(...)]. *)
Definition CLIP_COUNT_OPTIONS : list Z := [1; 2; 3; 5; 10].

Definition TEMPLATES : list string :=
  ["minimal"; "gaming"; "podcast"; "cinematic"; "social"; "news"]%string.

(** [<input type="range" min={5} max={120}>]: the value a range input
    reports is kept by the browser between its [min] and [max]. *)
Definition RANGE_MIN : Z := 5.
Definition RANGE_MAX : Z := 120.
Definition range_value (raw : Z) : Z := Z.max RANGE_MIN (Z.min RANGE_MAX raw).

Record Form : Type := mkForm {
  sourceTab : SourceType;
  youtubeUrl : string;
  twitchUrl : string;
  uploadedFile : option string;
  settings : ClipSettings;
  customDuration : Z
}.

(** The [useState] initial values. *)
Definition initial_form : Form :=
  {| sourceTab := youtube;
     youtubeUrl := "";
     twitchUrl := "";
     uploadedFile := None;
     settings := {| duration := auto; aspectRatio := R9_16; numberOfClips := 3;
                    generateSubtitles := true; template := "minimal";
                    detectionMethod := ai |};
     customDuration := 30 |}.

Definition with_settings (f : Form) (s : ClipSettings) : Form :=
  {| sourceTab := sourceTab f; youtubeUrl := youtubeUrl f;
     twitchUrl := twitchUrl f; uploadedFile := uploadedFile f;
     settings := s; customDuration := customDuration f |}.

Definition with_customDuration (f : Form) (v : Z) : Form :=
  {| sourceTab := sourceTab f; youtubeUrl := youtubeUrl f;
     twitchUrl := twitchUrl f; uploadedFile := uploadedFile f;
     settings := settings f; customDuration := v |}.

Definition set_duration (s : ClipSettings) (d : Duration) : ClipSettings :=
  {| duration := d; aspectRatio := aspectRatio s;
     numberOfClips := numberOfClips s;
     generateSubtitles := generateSubtitles s; template := template s;
     detectionMethod := detectionMethod s |}.

Definition set_aspectRatio (s : ClipSettings) (a : AspectRatio) : ClipSettings :=
  {| duration := duration s; aspectRatio := a;
     numberOfClips := numberOfClips s;
     generateSubtitles := generateSubtitles s; template := template s;
     detectionMethod := detectionMethod s |}.

Definition set_numberOfClips (s : ClipSettings) (n : Z) : ClipSettings :=
  {| duration := duration s; aspectRatio := aspectRatio s;
     numberOfClips := n;
     generateSubtitles := generateSubtitles s; template := template s;
     detectionMethod := detectionMethod s |}.

Definition set_generateSubtitles (s : ClipSettings) (b : bool) : ClipSettings :=
  {| duration := duration s; aspectRatio := aspectRatio s;
     numberOfClips := numberOfClips s;
     generateSubtitles := b; template := template s;
     detectionMethod := detectionMethod s |}.

Definition set_template (s : ClipSettings) (t : string) : ClipSettings :=
  {| duration := duration s; aspectRatio := aspectRatio s;
     numberOfClips := numberOfClips s;
     generateSubtitles := generateSubtitles s; template := t;
     detectionMethod := detectionMethod s |}.

(** What the user can do to the form.  A click names the button by its
    position in the rendered list; the slider reports a raw position. *)
Inductive Action : Type :=
| SelectTab (t : SourceType)
| TypeYoutubeUrl (u : string)
| TypeTwitchUrl (u : string)
| ChooseFile (name : option string)
| ClickDuration (i : nat)
| SlideDuration (raw : Z)
| ClickAspectRatio (i : nat)
| ClickNumberOfClips (i : nat)
| ToggleSubtitles
| ClickTemplate (i : nat).

Definition is_auto (d : Duration) : bool :=
  match d with auto => true | seconds _ => false end.

Definition act (f : Form) (a : Action) : Form :=
  match a with
  | SelectTab t =>
      {| sourceTab := t; youtubeUrl := youtubeUrl f; twitchUrl := twitchUrl f;
         uploadedFile := uploadedFile f; settings := settings f;
         customDuration := customDuration f |}
  | TypeYoutubeUrl u =>
      {| sourceTab := sourceTab f; youtubeUrl := u; twitchUrl := twitchUrl f;
         uploadedFile := uploadedFile f; settings := settings f;
         customDuration := customDuration f |}
  | TypeTwitchUrl u =>
      {| sourceTab := sourceTab f; youtubeUrl := youtubeUrl f; twitchUrl := u;
         uploadedFile := uploadedFile f; settings := settings f;
         customDuration := customDuration f |}
  | ChooseFile name =>
      {| sourceTab := sourceTab f; youtubeUrl := youtubeUrl f;
         twitchUrl := twitchUrl f; uploadedFile := name;
         settings := settings f; customDuration := customDuration f |}
  | ClickDuration i =>
      (* setSettings(s => ({...s, duration: d === 'auto' ? 'auto' : Number(d)}));
         if (typeof d === 'number') setCustomDuration(d); *)
      match nth_error DURATION_OPTIONS i with
      | None => f
      | Some auto => with_settings f (set_duration (settings f) auto)
      | Some (seconds d) =>
          with_customDuration
            (with_settings f (set_duration (settings f) (seconds d))) d
      end
  | SlideDuration raw =>
      (* the slider is rendered only when settings.duration !== 'auto' *)
      if is_auto (duration (settings f)) then f
      else
        let v := range_value raw in
        with_settings (with_customDuration f v)
                      (set_duration (settings f) (seconds v))
  | ClickAspectRatio i =>
      match nth_error ASPECT_RATIOS i with
      | None => f
      | Some value => with_settings f (set_aspectRatio (settings f) value)
      end
  | ClickNumberOfClips i =>
      match nth_error CLIP_COUNT_OPTIONS i with
      | None => f
      | Some n => with_settings f (set_numberOfClips (settings f) n)
      end
  | ToggleSubtitles =>
      with_settings f
        (set_generateSubtitles (settings f)
                               (negb (generateSubtitles (settings f))))
  | ClickTemplate i =>
      match nth_error TEMPLATES i with
      | None => f
      | Some t => with_settings f (set_template (settings f) t)
      end
  end.

(** The form after a session of user actions, oldest first. *)
Definition session (actions : list Action) : Form :=
  fold_left act actions initial_form.

(** [String(n)] for a whole number. *)
Definition String_of (n : Z) : string :=
  NilZero.string_of_int (Z.to_int n).

(** The [clipSettings] object sent to the backend. *)
Record ClipSettingsPayload : Type := mkPayload {
  p_duration : string;
  p_aspectRatio : AspectRatio;
  p_numberOfClips : Z;
  p_generateSubtitles : bool;
  p_template : string;
  p_detectionMethod : string
}.

Definition clipSettings (f : Form) : ClipSettingsPayload :=
  {| p_duration := if is_auto (duration (settings f)) then "auto"
                   else String_of (customDuration f);
     p_aspectRatio := aspectRatio (settings f);
     p_numberOfClips := numberOfClips (settings f);
     p_generateSubtitles := generateSubtitles (settings f);
     p_template := template (settings f);
     p_detectionMethod := "ai" |}.

(** *** White space

    A string of the page is held as the bytes of its UTF-8 form.  White
    space is what [trim] and the class [\s] of a regular expression take:
    the characters U+0009 to U+000D, U+0020, U+00A0, U+1680, U+2000 to
    U+200A, U+2028, U+2029, U+202F, U+205F, U+3000 and U+FEFF. *)
Definition byte (c : Ascii.ascii) : nat := Ascii.nat_of_ascii c.

(** U+0009 to U+000D and U+0020, one byte each. *)
Definition one_byte_space (c : Ascii.ascii) : bool :=
  ((9 <=? byte c) && (byte c <=? 13))%nat || (byte c =? 32)%nat.

(** U+00A0, the bytes C2 A0. *)
Definition two_byte_space (c0 c1 : Ascii.ascii) : bool :=
  ((byte c0 =? 194) && (byte c1 =? 160))%nat.

(** U+1680 (E1 9A 80), U+2000 to U+200A (E2 80 80 to E2 80 8A), U+2028,
    U+2029 and U+202F (E2 80 A8, A9 and AF), U+205F (E2 81 9F), U+3000
    (E3 80 80) and U+FEFF (EF BB BF). *)
Definition three_byte_space (c0 c1 c2 : Ascii.ascii) : bool :=
  ((byte c0 =? 225) && (byte c1 =? 154) && (byte c2 =? 128))%nat ||
  ((byte c0 =? 226) && (byte c1 =? 128) &&
   (((128 <=? byte c2) && (byte c2 <=? 138)) || (byte c2 =? 168) ||
    (byte c2 =? 169) || (byte c2 =? 175)))%nat ||
  ((byte c0 =? 226) && (byte c1 =? 129) && (byte c2 =? 159))%nat ||
  ((byte c0 =? 227) && (byte c1 =? 128) && (byte c2 =? 128))%nat ||
  ((byte c0 =? 239) && (byte c1 =? 187) && (byte c2 =? 191))%nat.

(** The number of bytes of the white-space character [s] starts with; 0
    when it starts with none. *)
Definition space_width (s : string) : nat :=
  match s with
  | String c0 r0 =>
      if one_byte_space c0 then 1%nat
      else
        match r0 with
        | String c1 r1 =>
            if two_byte_space c0 c1 then 2%nat
            else
              match r1 with
              | String c2 _ => if three_byte_space c0 c1 c2 then 3%nat else 0%nat
              | EmptyString => 0%nat
              end
        | EmptyString => 0%nat
        end
  | EmptyString => 0%nat
  end.

(** Every character of [s] is white space, once the [skip] bytes left of
    the character being read are passed. *)
Fixpoint all_spaces (skip : nat) (s : string) : bool :=
  match s with
  | EmptyString => match skip with O => true | S _ => false end
  | String _ rest =>
      match skip with
      | S k => all_spaces k rest
      | O =>
          match space_width s with
          | O => false
          | S k => all_spaces k rest
          end
      end
  end.

(** [s.trim()] is empty: every character is white space. *)
Definition trim_is_empty (s : string) : bool := all_spaces 0 s.

(** The three early [return]s at the top of [handleGenerate]. *)
Definition can_generate (f : Form) : bool :=
  match sourceTab f with
  | youtube => negb (trim_is_empty (youtubeUrl f))
  | twitch => negb (trim_is_empty (twitchUrl f))
  | upload => match uploadedFile f with Some _ => true | None => false end
  end.

(** The source descriptor and endpoint of the request. *)
Inductive SourceDescriptor : Type :=
| FromUpload (file : string)
| FromYoutube (url : string)
| FromUrl (url : string).

Record GenerationRequest : Type := mkRequest {
  source : SourceDescriptor;
  request_settings : ClipSettingsPayload
}.

Definition build_request (f : Form) : option GenerationRequest :=
  if can_generate f then
    match sourceTab f, uploadedFile f with
    | upload, Some file => Some (mkRequest (FromUpload file) (clipSettings f))
    | upload, None => None
    | youtube, _ => Some (mkRequest (FromYoutube (youtubeUrl f)) (clipSettings f))
    | twitch, _ => Some (mkRequest (FromUrl (twitchUrl f)) (clipSettings f))
    end
  else None.

(** *** [handleGenerate] *)

(** The part of the component state that [handleGenerate] reads and writes,
    with the closure variable [tickCount] of the interval callback and the
    message of the [alert] it raises, if any. *)
Record State : Type := mkState {
  processing : bool;
  progress : Z;
  progressStage : string;
  clips : list GeneratedClip;
  tickCount : Z;
  alerted : option string
}.

(** [Math.min(Math.floor((next / 100) * stages.length), stages.length - 1)].
    [next] is a whole number below 100, so the floor of the floating-point
    product is the integer quotient. *)
Definition stage_index (next : Z) (stages : list string) : Z :=
  Z.min (next * Z.of_nat (List.length stages) / 100)
        (Z.of_nat (List.length stages) - 1).

(** The updater passed to [setProgress]: the new progress together with the
    stage it publishes through [setProgressStage], if any. *)
Definition progress_updater (stages : list string) (tickCount prev : Z)
  : Z * option string :=
  if 97 <=? prev then (97, None)
  else if (85 <=? prev) && negb (tickCount mod 8 =? 0) then (prev, None)
  else
    let next := Z.min (prev + 1) 97 in
    let idx := stage_index next stages in
    (next, nth_error stages (Z.to_nat idx)).

(** One firing of the [setInterval] callback (every 500 ms). *)
Definition tick (stages : list string) (s : State) : State :=
  let tc := tickCount s + 1 in
  let '(p, stage) := progress_updater stages tc (progress s) in
  {| processing := processing s;
     progress := p;
     progressStage := match stage with Some t => t | None => progressStage s end;
     clips := clips s;
     tickCount := tc;
     alerted := alerted s |}.

Fixpoint ticks (n : nat) (stages : list string) (s : State) : State :=
  match n with
  | O => s
  | S k => tick stages (ticks k stages s)
  end.

(** [setProcessing(true); setProgress(0); setClips([]); let tickCount = 0]. *)
Definition start (s : State) : State :=
  {| processing := true;
     progress := 0;
     progressStage := progressStage s;
     clips := [];
     tickCount := 0;
     alerted := None |}.

Definition TICK_MS : Z := 500.

(** [setTimeout(() => controller.abort(), 15 * 60 * 1000)] *)
Definition TIMEOUT_MS : Z := 15 * 60 * 1000.

(** What the [try] block ends with once its awaited calls have settled: a
    rejected promise ([getIdToken], [fetch] or [response.json()]), a
    response that is not [ok], or a parsed body with its [status] and
    [clips]. *)
Inductive Settlement : Type :=
| Rejected (name message : string)
| NotOk (http_status : Z) (detail : string)
| Body (data_status : string) (data_clips : list GeneratedClip).

(** An awaited call: it never settles, or it settles so many milliseconds
    after it was made, with a value or with an error. *)
Inductive Await (A : Type) : Type :=
| Hangs
| Resolves (after : Z) (value : A)
| Rejects (after : Z) (name message : string).
Arguments Hangs {A}.
Arguments Resolves {A} after value.
Arguments Rejects {A} after name message.

(** The fields the page reads in a parsed body; a missing [status] or
    [detail] is the empty string. *)
Record Json : Type := mkJson {
  json_status : string;
  json_clips : list GeneratedClip;
  json_detail : string
}.

(** A response: [response.ok], [response.status] and the call
    [response.json()]. *)
Record Response : Type := mkResponse {
  ok : bool;
  http_code : Z;
  json : Await Json
}.

(** What the page awaits: [getIdToken()], then [fetch(...)] when no signal
    aborts it, then [response.json()]; each time is counted from the call
    it belongs to. *)
Record Backend : Type := mkBackend {
  getIdToken : Await unit;
  fetch : Await Response
}.

(** [a || b] on strings: the empty string is falsy. *)
Definition or_else (a b : string) : string :=
  match a with EmptyString => b | _ => a end.

Definition TIMED_OUT_MESSAGE : string :=
  "Request timed out after 15 minutes. The video may be too long — try a shorter clip or check the backend logs.".

Definition failure_message (message : string) : string :=
  ("Failed to generate clips: " ++ or_else message "Please try again.")%string.

(** The [catch] block: [clearInterval], [clearTimeout], then the alert
    chosen by [err.name === 'AbortError']. *)
Definition catch_error (name message : string) (s : State) : State :=
  {| processing := processing s;
     progress := progress s;
     progressStage := progressStage s;
     clips := clips s;
     tickCount := tickCount s;
     alerted := Some (if String.eqb name "AbortError" then TIMED_OUT_MESSAGE
                      else failure_message message) |}.

(** The [finally] block: [setProcessing(false)]. *)
Definition finally (s : State) : State :=
  {| processing := false;
     progress := progress s;
     progressStage := progressStage s;
     clips := clips s;
     tickCount := tickCount s;
     alerted := alerted s |}.

(** What the timers do before the request settles or is aborted: the
    interval has fired once per elapsed 500 ms. *)
Definition ticks_within (elapsed : Z) : nat := Z.to_nat (elapsed / TICK_MS).

Definition settle (st : Settlement) (s : State) : State :=
  match st with
  | Rejected name message => catch_error name message s
  | NotOk http_status detail =>
      (* throw new Error(errData.detail || `Server error ${response.status}`) *)
      catch_error "Error"
        (or_else detail ("Server error " ++ String_of http_status)) s
  | Body data_status data_clips =>
      if String.eqb data_status "completed" then
        {| processing := processing s;
           progress := 100;
           progressStage := "Done!";
           clips := data_clips;
           tickCount := tickCount s;
           alerted := alerted s |}
      else s
  end.

(** The [try], [catch] and [finally] of [handleGenerate]: the three calls
    are awaited in turn while the interval and the 15-minute timer run;
    [after ms] is the state the interval has brought the page to [ms]
    milliseconds after the call.  The timer aborts the signal given to
    [fetch], and nothing else: [fetch] rejects with an [AbortError] when
    the timer fires while it is pending, and at once when it is called
    after the timer fired.  When [fetch] resolves the interval and the
    timer are cleared, so the body is read without a limit.  The result is
    the state the page is left in; when a call never settles the handler
    never returns, [processing] stays on and, if the interval still runs,
    the state is the one reached when the timer fires, after which only
    [tickCount] grows. *)
Definition await_response (after : Z -> State) (b : Backend) : State :=
  let aborted ms :=
    finally (catch_error "AbortError" "The operation was aborted." (after ms)) in
  match getIdToken b with
  | Hangs => after TIMEOUT_MS
  | Rejects a name message => finally (catch_error name message (after a))
  | Resolves a _ =>
      if TIMEOUT_MS <=? a then aborted a
      else
        match fetch b with
        | Hangs => aborted TIMEOUT_MS
        | Rejects d name message =>
            if TIMEOUT_MS <=? a + d then aborted TIMEOUT_MS
            else finally (catch_error name message (after (a + d)))
        | Resolves d response =>
            if TIMEOUT_MS <=? a + d then aborted TIMEOUT_MS
            else
              (* clearInterval(stageInterval); clearTimeout(timeoutId) *)
              let arrived := after (a + d) in
              if ok response then
                match json response with
                | Hangs => arrived
                | Rejects _ name message =>
                    finally (catch_error name message arrived)
                | Resolves _ data =>
                    finally (settle (Body (json_status data) (json_clips data))
                                    arrived)
                end
              else
                (* response.json().catch(() => ({})) *)
                match json response with
                | Hangs => arrived
                | Rejects _ _ _ =>
                    finally (settle (NotOk (http_code response) "") arrived)
                | Resolves _ data =>
                    finally (settle (NotOk (http_code response)
                                           (json_detail data)) arrived)
                end
        end
  end.

(** [handleGenerate]: the guards, then the state is reset, the interval
    started and the request awaited. *)
Definition handleGenerate (f : Form) (b : Backend) (s : State) : State :=
  if negb (can_generate f) then s
  else
    let stages := stages_for (sourceTab f) in
    await_response (fun ms => ticks (ticks_within ms) stages (start s)) b.

(** *** The rest of the page *)

(** The templates of the page with their names, in the order drawn. *)
Definition TEMPLATE_NAMES : list (string * string) :=
  [ ("minimal", "Minimal"); ("gaming", "Gaming"); ("podcast", "Podcast");
    ("cinematic", "Cinematic"); ("social", "Social Pop");
    ("news", "News Flash") ]%string.

(** The name shown for a template:
    [TEMPLATES.find(t => t.id === id)?.name || id]. *)
Definition template_name (id : string) : string :=
  match find (fun t => String.eqb (fst t) id) TEMPLATE_NAMES with
  | Some t => or_else (snd t) id
  | None => id
  end.

(** [isReady], which enables the Generate button. *)
Definition tab_is (a b : SourceType) : bool :=
  match a, b with
  | youtube, youtube | twitch, twitch | upload, upload => true
  | _, _ => false
  end.

Definition isReady (f : Form) : bool :=
  (tab_is (sourceTab f) youtube && negb (trim_is_empty (youtubeUrl f))) ||
  (tab_is (sourceTab f) twitch && negb (trim_is_empty (twitchUrl f))) ||
  (tab_is (sourceTab f) upload &&
   match uploadedFile f with Some _ => true | None => false end).

(** The form, the processing state and the clip being played. *)
Record Page : Type := mkPage {
  form : Form;
  state : State;
  playingClip : option string
}.

(** [handleReset] *)
Definition handleReset (p : Page) : Page :=
  {| form := {| sourceTab := sourceTab (form p);
                youtubeUrl := "";
                twitchUrl := "";
                uploadedFile := None;
                settings := settings (form p);
                customDuration := customDuration (form p) |};
     state := {| processing := processing (state p);
                 progress := 0;
                 progressStage := progressStage (state p);
                 clips := [];
                 tickCount := tickCount (state p);
                 alerted := alerted (state p) |};
     playingClip := None |}.

(** The three branches of the render:
    [clips.length > 0 ? results : processing ? spinner : form]. *)
Inductive Screen : Type := ResultsScreen | ProcessingScreen | MainForm.

Definition screen (s : State) : Screen :=
  match clips s with
  | _ :: _ => ResultsScreen
  | [] => if processing s then ProcessingScreen else MainForm
  end.

(** [s.replace(/\s+/g, '_')]: every maximal run of white space becomes one
    underscore, written where the run starts.  [skip] counts the bytes left
    of the white-space character being read and [in_run] says that the
    character before was white space. *)
Fixpoint replace_from (skip : nat) (in_run : bool) (s : string) : string :=
  match s with
  | EmptyString => EmptyString
  | String c rest =>
      match skip with
      | S k => replace_from k in_run rest
      | O =>
          match space_width s with
          | O => String c (replace_from 0 false rest)
          | S k =>
              if in_run then replace_from k true rest
              else String "_"%char (replace_from k true rest)
          end
      end
  end.

Definition replace_spaces (s : string) : string := replace_from 0 false s.

(** What a download click does: an [alert], or a click on a link built
    with that [href], [target] and [download] file name. *)
Inductive Download : Type :=
| NotAvailable (message : string)
| Anchor (href : string) (target : option string) (download : string).

(** [!url || url === '#'] *)
Definition unusable (url : string) : bool :=
  String.eqb url "" || String.eqb url "#".

(** [handleDownload] of the results grid. *)
Definition handleDownload (clip : GeneratedClip) : Download :=
  let url := or_else (downloadUrl clip) (video_url clip) in
  if unusable url then NotAvailable "Download not available."
  else Anchor url (Some "_blank"%string)
              (replace_spaces (title clip) ++ ".mp4").

End Dashboard.

(** ** History: purge countdown and trash bookkeeping *)

Module History.
Import Types.

(** [daysUntilPurge].  [deletedAt] stands for [new Date(deletedAt).getTime()]
    and [now] for [Date.now()], both in milliseconds since the epoch; the
    quotient is taken exactly, then rounded up as [Math.ceil] does. *)
Definition daysUntilPurge (deletedAt now : Z) : Z :=
  let purgeTime := deletedAt + 10 * 24 * 60 * 60 * 1000 in
  Z.max 0 (Qceiling (inject_Z (purgeTime - now)
                     / inject_Z (24 * 60 * 60 * 1000))).

(** The lists the page keeps, and the value it last wrote under the
    [tubebite-history] key of [localStorage]. *)
Record State : Type := mkState {
  activeItems : list HistoryItem;
  trashItems : list HistoryItem;
  localStorage : option (list HistoryItem)
}.

(** [{ ...item, deletedAt: d }] *)
Definition with_deletedAt (item : HistoryItem) (d : option string) : HistoryItem :=
  {| id := id item;
     sourceType := sourceType item;
     sourceName := sourceName item;
     sourceThumbnail := sourceThumbnail item;
     clips := clips item;
     settings := settings item;
     createdAt := createdAt item;
     status := status item;
     deletedAt := d;
     trashedAt := trashedAt item |}.

(** [i => i.id === id] and [i => i.id !== id] *)
Definition has_id (i : string) (item : HistoryItem) : bool := String.eqb (id item) i.
Definition not_id (i : string) (item : HistoryItem) : bool := negb (String.eqb (id item) i).

(** [_syncLocalStorage(active, trash)] *)
Definition _syncLocalStorage (active trash : list HistoryItem)
  : option (list HistoryItem) :=
  Some (active ++ trash).

(** The confirmed body of [handleSoftDelete].  [seen] is the state of the
    render whose closure runs (it reads [activeItems] from it); [prev] is
    the state the functional updates are applied to.  The backend call is
    fire-and-forget: the update happens whatever it answers. *)
Definition handleSoftDelete (seen : State) (i : string) (now : string)
           (prev : State) : State :=
  match find (has_id i) (activeItems seen) with
  | None => prev
  | Some item =>
      let trashed := with_deletedAt item (Some now) in
      {| activeItems := filter (not_id i) (activeItems prev);
         trashItems := trashed :: trashItems prev;
         localStorage := localStorage prev |}
  end.

(** [handleRestore], with the same reading of [seen] and [prev]. *)
Definition handleRestore (seen : State) (i : string) (prev : State) : State :=
  match find (has_id i) (trashItems seen) with
  | None => prev
  | Some item =>
      let restored := with_deletedAt item None in
      {| activeItems := restored :: activeItems prev;
         trashItems := filter (not_id i) (trashItems prev);
         localStorage :=
           _syncLocalStorage (restored :: activeItems seen)
                             (filter (not_id i) (trashItems seen)) |}
  end.

(** A handler that runs against the state it was rendered with. *)
Definition softDelete (i now : string) (s : State) : State :=
  handleSoftDelete s i now s.

Definition restore (i : string) (s : State) : State :=
  handleRestore s i s.

(** The ids of everything the page holds, active first. *)
Definition ids (s : State) : list string :=
  map id (activeItems s ++ trashItems s).

(** *** [ClipCard] *)

(** [handleDownload] of a clip card: without a usable [downloadUrl] it
    saves a text placeholder. *)
Definition handleDownload (clip : GeneratedClip) : Dashboard.Download :=
  if Dashboard.unusable (downloadUrl clip) then
    Dashboard.Anchor
      ("data:text/plain;charset=utf-8,Tube Bite Demo - " ++ title clip)
      None (title clip ++ ".txt")
  else
    Dashboard.Anchor (downloadUrl clip) (Some "_blank"%string)
      (Dashboard.replace_spaces (title clip) ++ ".mp4").

(** *** The other trash handlers *)

(** The confirmed body of [handlePermanentDelete]: the new trash is computed
    from the closure's [trashItems] and set as a value, not through an
    updater. *)
Definition handlePermanentDelete (seen : State) (i : string) (prev : State)
  : State :=
  let newTrash := filter (not_id i) (trashItems seen) in
  {| activeItems := activeItems prev;
     trashItems := newTrash;
     localStorage := _syncLocalStorage (activeItems seen) newTrash |}.

(** The confirmed body of [handleClearAll]; [now] is
    [new Date().toISOString()], taken once for all the items.  The handler
    awaits [getIdToken()] outside any [try]: [token] tells whether that call
    resolved, and when it did not nothing after it runs. *)
Definition handleClearAll (seen : State) (now : string) (token : bool)
           (prev : State) : State :=
  let newlyTrashed :=
    map (fun i => with_deletedAt i (Some now)) (activeItems seen) in
  if token then
    {| activeItems := [];
       trashItems := newlyTrashed ++ trashItems prev;
       localStorage := _syncLocalStorage [] (newlyTrashed ++ trashItems seen) |}
  else prev.

(** The confirmed body of [handleEmptyTrash], which awaits [getIdToken()]
    in the same way. *)
Definition handleEmptyTrash (seen : State) (token : bool) (prev : State)
  : State :=
  if token then
    {| activeItems := activeItems prev;
       trashItems := [];
       localStorage := _syncLocalStorage (activeItems seen) [] |}
  else prev.

Definition permanentDelete (i : string) (s : State) : State :=
  handlePermanentDelete s i s.

Definition clearAll (now : string) (token : bool) (s : State) : State :=
  handleClearAll s now token s.

Definition emptyTrash (token : bool) (s : State) : State :=
  handleEmptyTrash s token s.

(** *** [fetchHistory] *)

(** The lists with the two flags [fetchHistory] drives. *)
Record Page : Type := mkPage {
  lists : State;
  loading : bool;
  error : option string
}.






(** *** The purge badge of [HistoryRow] *)

(** What the row shows next to the status: nothing, or the countdown text
    with its colour ([days <= 2] is red, otherwise orange). *)
Inductive Badge : Type :=
| NoBadge
| DeletesToday (red : bool)
| DeletesIn (days : Z) (red : bool).

(** [deletedAt] is the parsed [item.deletedAt], [None] when the field is
    missing or empty. *)
Definition badge (isTrash : bool) (deletedAt : option Z) (now : Z) : Badge :=
  let days := match deletedAt with
              | Some d => Some (daysUntilPurge d now)
              | None => None
              end in
  match isTrash, days with
  | true, Some n =>
      if n =? 0 then DeletesToday (n <=? 2) else DeletesIn n (n <=? 2)
  | _, _ => NoBadge
  end.

(** *** Search and source filter *)

Inductive Tab : Type := active | trash.

(** [FilterType = 'all' | 'youtube' | 'twitch' | 'upload'] *)
Inductive FilterType : Type :=
| all
| only (t : SourceType).

Definition SourceType_eqb (a b : SourceType) : bool :=
  match a, b with
  | youtube, youtube | twitch, twitch | upload, upload => true
  | _, _ => false
  end.

(** [s.includes(t)]: [t] occurs in [s]. *)
Fixpoint includes (s t : string) : bool :=
  String.prefix t s ||
  match s with
  | EmptyString => false
  | String _ rest => includes rest t
  end.

Section Filtering.

(** [String.prototype.toLowerCase], which the page applies to both sides of
    the search. *)
Variable toLowerCase : string -> string.

Definition matchSearch (search : string) (item : HistoryItem) : bool :=
  includes (toLowerCase (sourceName item)) (toLowerCase search).

Definition matchType (filterType : FilterType) (item : HistoryItem) : bool :=
  match filterType with
  | all => true
  | only t => SourceType_eqb (sourceType item) t
  end.

(** [items] and [filtered] of the render. *)
Definition items (tab : Tab) (s : State) : list HistoryItem :=
  match tab with
  | active => activeItems s
  | trash => trashItems s
  end.

Definition filtered (tab : Tab) (search : string) (filterType : FilterType)
           (s : State) : list HistoryItem :=
  filter (fun item => matchSearch search item && matchType filterType item)
         (items tab s).

End Filtering.

End History.

(** ** ThemeContext *)

Module Theme.

(** The initial theme: [(saved as Theme) || 'dark'], with [saved] the value
    stored under [tubebite-theme], if any. *)
Definition initial_theme (saved : option string) : string :=
  match saved with
  | Some t => Dashboard.or_else t "dark"
  | None => "dark"%string
  end.

(** [toggleTheme]: [prev === 'dark' ? 'light' : 'dark'] *)
Definition toggleTheme (prev : string) : string :=
  if String.eqb prev "dark" then "light"%string else "dark"%string.

Fixpoint toggles (n : nat) (theme : string) : string :=
  match n with
  | O => theme
  | S k => toggleTheme (toggles k theme)
  end.

End Theme.

(** ** App: the route guards *)

Module App.

Inductive Page : Type := Landing | Login | Signup | Dashboard | History | Profile.

(** Where the browser is: on the path of one of the six routes, or on a
    path that only the ["*"] route matches. *)
Inductive Location : Type :=
| On (p : Page)
| Elsewhere.

(** What a route renders. *)
Inductive Element : Type :=
| Show (p : Page)
| LoadingScreen
| Navigate (to : Location).

(** The part of [useAuth()] the guards read. *)
Record Auth : Type := mkAuth {
  user : bool;
  loading : bool
}.

Definition ProtectedRoute (a : Auth) (children : Page) : Element :=
  if loading a then LoadingScreen
  else if negb (user a) then Navigate (On Login)
  else Show children.

Definition PublicRoute (a : Auth) (children : Page) : Element :=
  if loading a then LoadingScreen
  else if user a then Navigate (On Dashboard)
  else Show children.

(** The [<Routes>] table of [AppRoutes]. *)
Definition AppRoutes (a : Auth) (l : Location) : Element :=
  match l with
  | On Landing => Show Landing
  | On Login => PublicRoute a Login
  | On Signup => PublicRoute a Signup
  | On Dashboard => ProtectedRoute a Dashboard
  | On History => ProtectedRoute a History
  | On Profile => ProtectedRoute a Profile
  | Elsewhere => Navigate (On Landing)
  end.

(** Rendering, following at most [fuel] redirections. *)
Fixpoint render (fuel : nat) (a : Auth) (l : Location) : Element :=
  match AppRoutes a l, fuel with
  | Navigate to, S k => render k a to
  | e, _ => e
  end.

End App.

(** ** Profile: username rules and the avatar grid *)

Module Profile.
Import Dashboard.









(** [s.toLowerCase()] on the letters A to Z; the other bytes are kept.  It
    is applied to user names that passed [validateUsername], and to a
    message searched for an unaccented word. *)
Definition lower (c : ascii) : ascii :=
  let n := nat_of_ascii c in
  if ((65 <=? n) && (n <=? 90))%nat then ascii_of_nat (n + 32) else c.

Fixpoint toLowerCase (s : string) : string :=
  match s with
  | EmptyString => EmptyString
  | String c rest => String (lower c) (toLowerCase rest)
  end.

(** The fields of the form and the flags [handleSave] reads and writes. *)
Record Form : Type := mkForm {
  displayName : string;
  username : string;
  bio : string;
  selectedAvatar : string;
  usernameError : option string;
  usernameChecking : bool;
  usernameOk : bool;
  saving : bool;
  saved : bool
}.

(** The argument of [updateProfile]. *)
Record Updates : Type := mkUpdates {
  u_displayName : string;
  u_username : string;
  u_bio : string;
  u_photoURL : option string
}.

(** A value used as a condition: [null] and the empty string are falsy. *)
Definition truthy (x : option string) : bool :=
  match x with
  | Some (String _ _) => true
  | _ => false
  end.



(** *** Uploading an avatar *)








(** *** The avatar grid *)

Definition DICEBEAR_STYLES : list string :=
  [ "adventurer"; "bottts"; "fun-emoji"; "lorelei"; "personas";
    "avataaars"; "pixel-art"; "notionists"; "micah"; "croodles" ]%string.

Definition SEEDS : list string :=
  [ "alpha"; "bravo"; "charlie"; "delta"; "echo"; "foxtrot"; "golf"; "hotel";
    "india"; "juliet"; "kilo"; "lima"; "mike"; "november"; "oscar"; "papa"
  ]%string.

Definition dicebearUrl (style seed : string) : string :=
  ("https://api.dicebear.com/9.x/" ++ style ++ "/svg?seed=" ++ seed
   ++ "&backgroundColor=b6e3f4,c0aede,d1d4f9,ffd5dc,ffdfbf")%string.

Record Avatar : Type := mkAvatar {
  url : string;
  label : string
}.

Definition PRESET_AVATARS : list Avatar :=
  flat_map
    (fun style =>
       map (fun seed => {| url := dicebearUrl style seed;
                           label := (style ++ "-" ++ seed)%string |})
           SEEDS)
    DICEBEAR_STYLES.

Definition ITEMS_PER_PAGE : Z := 24.

Section Grid.

Context {A : Type}.

(** [Array.prototype.slice(start, end)] for whole numbers: a negative
    index counts from the end, and both are kept within the array. *)
Definition relative (len i : Z) : Z :=
  if i <? 0 then Z.max (len + i) 0 else Z.min i len.

Definition slice (l : list A) (first last : Z) : list A :=
  let len := Z.of_nat (List.length l) in
  let k := relative len first in
  let final := relative len last in
  firstn (Z.to_nat (final - k)) (skipn (Z.to_nat k) l).

(** [Math.ceil(avatars.length / ITEMS_PER_PAGE)] *)
Definition page_count (avatars : list A) : Z :=
  Qceiling (inject_Z (Z.of_nat (List.length avatars)) / inject_Z ITEMS_PER_PAGE).

(** The avatars drawn on a page. *)
Definition page_items (avatars : list A) (currentAvatarPage : Z) : list A :=
  slice avatars (currentAvatarPage * ITEMS_PER_PAGE)
        ((currentAvatarPage + 1) * ITEMS_PER_PAGE).

(** The updaters of the two buttons. *)
Definition previous (p : Z) : Z := Z.max 0 (p - 1).

Definition next (avatars : list A) (p : Z) : Z :=
  Z.min (page_count avatars - 1) (p + 1).

Inductive Click : Type := Previous | Next.

(** A click on a disabled button does nothing. *)
Definition click (avatars : list A) (p : Z) (c : Click) : Z :=
  match c with
  | Previous => if p =? 0 then p else previous p
  | Next => if page_count avatars - 1 <=? p then p else next avatars p
  end.

Definition browse (avatars : list A) (clicks : list Click) : Z :=
  fold_left (click avatars) clicks 0.

End Grid.

End Profile.

(** ** AuthContext *)

Module AuthContext.

(** [User] of types/index.ts: [photoURL], [bio] and [username] are
    optional. *)
Record User : Type := mkUser {
  id : string;
  email : string;
  displayName : string;
  photoURL : option string;
  bio : option string;
  username : option string
}.

(** The provider's state with the copy kept under [tubebite-user]. *)
Record Store : Type := mkStore {
  user : option User;
  cached : option User;
  loading : bool
}.

(** [setAndCache] *)
Definition setAndCache (u : option User) (st : Store) : Store :=
  {| user := u; cached := u; loading := loading st |}.

Definition setLoading (b : bool) (st : Store) : Store :=
  {| user := user st; cached := cached st; loading := b |}.

(** A key of an object that is spread over a user: absent, present
    without a value ([undefined] or [null]), or present with a string. *)
Inductive Field : Type :=
| Absent
| Blank
| Value (s : string).



(** The profile document of the backend, as far as it carries fields of
    [User]; the required fields, when present, are strings. *)
Record DbDoc : Type := mkDbDoc {
  db_id : option string;
  db_email : option string;
  db_displayName : option string;
  db_photoURL : Field;
  db_bio : Field;
  db_username : Field
}.


(** *** [apiFetch] *)

(** What a call of [apiFetch] gives back: the parsed document, or an
    [Error] with that message. *)
Inductive Api : Type :=
| Returned (dbDoc : DbDoc)
| Thrown (message : string).

(** The message of the error thrown for a response that is not [ok]:
    [err.detail || `HTTP ${res.status}`], where [err] is the parsed body
    ([body] holds its [detail], if it has one) or, when the body cannot be
    parsed ([body] is [None]), [{ detail: res.statusText }]. *)
Definition error_message (status : Z) (statusText : string)
           (body : option (option string)) : string :=
  let detail := match body with
                | None => statusText
                | Some None => EmptyString
                | Some (Some d) => d
                end in
  Dashboard.or_else detail ("HTTP " ++ Dashboard.String_of status).

(** *** Signing in *)


(** [s.split('@')[0]]: what comes before the first ['@']. *)
Fixpoint before_at (s : string) : string :=
  match s with
  | EmptyString => EmptyString
  | String c rest =>
      if Ascii.eqb c "@" then EmptyString else String c (before_at rest)
  end.



(** The mock [login]; [now] is [Date.now()]. *)
Definition login (email : string) (now : Z) (st : Store) : Store :=
  setLoading false
    (setAndCache
       (Some {| id := "u_" ++ Dashboard.String_of now;
                email := email;
                displayName := before_at email;
                photoURL := None; bio := None; username := None |})
       st).

(** *** [updateProfile] *)

(** The argument of [updateProfile], a partial user. *)
Record Updates : Type := mkUpdates {
  up_displayName : option string;
  up_bio : Field;
  up_photoURL : Field;
  up_username : Field
}.

(** A spread key over a required and over an optional field. *)
Definition over (old : string) (x : option string) : string :=
  match x with Some s => s | None => old end.

Definition over_option (old : option string) (x : Field) : option string :=
  match x with
  | Absent => old
  | Blank => None
  | Value s => Some s
  end.

(** [{ ...user, ...updates }] *)
Definition spread_updates (u : User) (updates : Updates) : User :=
  {| id := id u;
     email := email u;
     displayName := over (displayName u) (up_displayName updates);
     photoURL := over_option (photoURL u) (up_photoURL updates);
     bio := over_option (bio u) (up_bio updates);
     username := over_option (username u) (up_username updates) |}.

(** [{ ...optimistic, ...dbDoc, id: user.id }] *)
Definition spread_confirmed (optimistic : User) (dbDoc : DbDoc) (u : User)
  : User :=
  {| id := id u;
     email := over (email optimistic) (db_email dbDoc);
     displayName := over (displayName optimistic) (db_displayName dbDoc);
     photoURL := over_option (photoURL optimistic) (db_photoURL dbDoc);
     bio := over_option (bio optimistic) (db_bio dbDoc);
     username := over_option (username optimistic) (db_username dbDoc) |}.

(** [msg.includes('409') || msg.toLowerCase().includes('username')] *)
Definition is_conflict (msg : string) : bool :=
  History.includes msg "409" ||
  History.includes (Profile.toLowerCase msg) "username".

(** [updateProfile].  [token] is what [getIdToken().catch(() => null)]
    gives and [put] what the [PUT] gives; the result is the new state and
    whether the call threw. *)
Definition updateProfile (updates : Updates) (token : option string)
           (put : Api) (st : Store) : Store * bool :=
  match user st with
  | None => (st, false)
  | Some u =>
      let optimistic := spread_updates u updates in
      let st1 := setAndCache (Some optimistic) st in
      if negb (Profile.truthy token) then (st1, false)
      else
        match put with
        | Returned dbDoc =>
            (setAndCache (Some (spread_confirmed optimistic dbDoc u)) st1, false)
        | Thrown msg =>
            if is_conflict msg then (setAndCache (Some u) st1, true)
            else (st1, false)
        end
  end.

(** [checkUsername]: [true] means available.  [check] is what the [POST]
    gives. *)
Definition checkUsername (token : option string) (check : Api) : bool :=
  if negb (Profile.truthy token) then true
  else
    match check with
    | Returned _ => true
    | Thrown message => negb (History.includes message "409")
    end.

End AuthContext.

(** ** Login *)

Module Login.

Record Form : Type := mkForm {
  email : string;
  password : string;
  loading : bool;
  error : string
}.

(** What [handleSubmit] leaves: the form, whether [login] was called, and
    the path it navigated to, if any. *)
Record Submitted : Type := mkSubmitted {
  form : Form;
  login_called : bool;
  navigated : option string
}.

(** [handleSubmit]; [login_resolves] tells how the awaited [login] ends. *)
Definition handleSubmit (login_resolves : bool) (f : Form) : Submitted :=
  match email f, password f with
  | String _ _, String _ _ =>
      if login_resolves then
        {| form := {| email := email f; password := password f;
                      loading := false; error := "" |};
           login_called := true;
           navigated := Some "/dashboard"%string |}
      else
        {| form := {| email := email f; password := password f;
                      loading := false; error := "Invalid credentials" |};
           login_called := true;
           navigated := None |}
  | _, _ =>
      {| form := {| email := email f; password := password f;
                    loading := loading f; error := "All fields are required" |};
         login_called := false;
         navigated := None |}
  end.

End Login.

(* ================================================================== *)
(** * Part II — the pipeline stages the sources only name *)
(* ================================================================== *)

(** The sources hold the client only: the backend that detects, selects,
    renders and publishes is absent from them.  Its stages are modelled
    here from the specification, section by section.  Times and scores are
    rationals. *)

Module Pipeline.

Local Open Scope Q_scope.

(** [x < y] on rationals, as a boolean. *)
Definition Qlt_bool (x y : Q) : bool := negb (Qle_bool y x).

(** ** Data model (§3) *)

(** Modelled from the spec: [CandidateMoment] of §3 (the backend's type
    is missing); the [reason] is free text. *)
Record CandidateMoment : Type := mkCandidate {
  startTime : Q;
  endTime : Q;
  viralScore : Q;
  reason : string
}.

(** Modelled from the spec: [SelectedMoment] of §3, a candidate promoted
    by the selector (the backend's type is missing). *)
Abbreviation SelectedMoment := CandidateMoment (only parsing).

(** Modelled from the spec: the requested duration of §3, [auto] or a
    fixed number of seconds (the backend's type is missing). *)
Inductive RequestedDuration : Type :=
| Auto
| Fixed (d : Q).

(** ** Moment Ranker/Selector (§4.4) *)

Module Selector.

(** Modelled from the spec: the overlap test of step 2 (the backend's
    selector is missing).  Two ranges overlap when the length of their
    intersection exceeds the tolerance. *)
Definition overlap_amount (a b : CandidateMoment) : Q :=
  Qmin (endTime a) (endTime b) - Qmax (startTime a) (startTime b).

(** Modelled from the spec: the test of step 2 (the backend's selector is
    missing): the overlap exceeds the tolerance. *)
Definition overlaps (tolerance : Q) (a b : CandidateMoment) : bool :=
  Qlt_bool tolerance (overlap_amount a b).

(** Modelled from the spec: the default tolerance of step 2 (the
    backend's configuration is missing). *)
Definition DEFAULT_TOLERANCE : Q := 0.

(** Modelled from the spec: the order of step 1 (the backend's selector
    is missing): higher score first, and among equal scores the earlier
    start first. *)
Definition precedes (a b : CandidateMoment) : bool :=
  match viralScore b ?= viralScore a with
  | Lt => true
  | Eq => Qle_bool (startTime a) (startTime b)
  | Gt => false
  end.

(** Modelled from the spec: the stable sort of step 1 (the backend's
    selector is missing), as an insertion sort: a candidate goes before the
    first one it precedes, so equal keys keep their input order. *)
Fixpoint insert (c : CandidateMoment) (l : list CandidateMoment)
  : list CandidateMoment :=
  match l with
  | [] => [c]
  | x :: r => if precedes c x then c :: l else x :: insert c r
  end.

(** Modelled from the spec: step 1 (the backend's selector is missing):
    the candidates, inserted one by one from the last. *)
Definition sort_candidates (l : list CandidateMoment) : list CandidateMoment :=
  fold_right insert [] l.

(** Modelled from the spec: step 3 (the backend's selector is missing).
    A fixed duration [d] replaces the range by the one of length [d] centred
    on the midpoint, cut to [[0, mediaDuration]]. *)
Definition clamp (d mediaDuration : Q) (c : CandidateMoment) : SelectedMoment :=
  let mid := (startTime c + endTime c) / 2 in
  {| startTime := Qmax 0 (mid - d / 2);
     endTime := Qmin mediaDuration (mid + d / 2);
     viralScore := viralScore c;
     reason := reason c |}.

(** Modelled from the spec: step 3 (the backend's selector is missing):
    [auto] leaves the range as it is, a fixed duration clamps it. *)
Definition fit (duration : RequestedDuration) (mediaDuration : Q)
           (c : CandidateMoment) : SelectedMoment :=
  match duration with
  | Auto => c
  | Fixed d => clamp d mediaDuration c
  end.

(** Modelled from the spec: the greedy pass of steps 2 to 4 (the
    backend's selector is missing).  Candidates are visited in sorted
    order; one is accepted when it overlaps no moment accepted so far, and
    is then fitted to the requested duration; the pass stops once
    [requestedCount] moments are accepted. *)
Fixpoint accept (tolerance : Q) (duration : RequestedDuration)
         (mediaDuration : Q) (requestedCount : nat)
         (accepted : list SelectedMoment) (candidates : list CandidateMoment)
  : list SelectedMoment :=
  match candidates with
  | [] => accepted
  | c :: rest =>
      if (List.length accepted <? requestedCount)%nat then
        if existsb (overlaps tolerance c) accepted
        then accept tolerance duration mediaDuration requestedCount accepted rest
        else accept tolerance duration mediaDuration requestedCount
                    (accepted ++ [fit duration mediaDuration c]) rest
      else accepted
  end.

(** Modelled from the spec: [select(candidates, requestedCount,
    requestedDuration)] of §4.4 (the backend's selector is missing). *)
Definition select (tolerance : Q) (candidates : list CandidateMoment)
           (requestedCount : nat) (requestedDuration : RequestedDuration)
           (mediaDuration : Q) : list SelectedMoment :=
  accept tolerance requestedDuration mediaDuration requestedCount []
         (sort_candidates candidates).

End Selector.

(** ** Transcript (§3) *)

(** Modelled from the spec: [Utterance] of §3 (the backend's type is
    missing). *)
Record Utterance : Type := mkUtterance {
  u_start : Q;
  u_end : Q;
  u_text : string
}.

(** Modelled from the spec: [Transcript] of §3, the utterances in
    chronological order (the backend's type is missing). *)
Definition Transcript : Type := list Utterance.

(** ** Moment Detector (§4.3) *)

Module Detector.

(** Modelled from the spec: what the scoring engine of §4.3 returns for
    one moment, before validation (the backend's detector is missing). *)
Record EngineCandidate : Type := mkEngineCandidate {
  e_start : Q;
  e_end : Q;
  e_score : Q;
  e_reason : string
}.

(** Modelled from the spec: the answer of the external engine of §4.3
    (the backend's detector is missing): it is unreachable, or it answered
    with a list of candidates. *)
Inductive EngineResponse : Type :=
| Unreachable
| Answered (returned : list EngineCandidate).

(** Modelled from the spec: the validation of §4.3 (the backend's
    detector is missing): [0 <= start < end <= mediaDuration] and
    [0.0 <= score <= 1.0]. *)
Definition usable_candidate (mediaDuration : Q) (c : EngineCandidate) : bool :=
  Qle_bool 0 (e_start c) && Qlt_bool (e_start c) (e_end c) &&
  Qle_bool (e_end c) mediaDuration &&
  Qle_bool 0 (e_score c) && Qle_bool (e_score c) 1.

(** Modelled from the spec: a validated candidate as a [CandidateMoment]
    (the backend's detector is missing); its reason is the engine's text,
    as it came. *)
Definition promote (c : EngineCandidate) : CandidateMoment :=
  {| startTime := e_start c; endTime := e_end c; viralScore := e_score c;
     reason := e_reason c |}.

(** Modelled from the spec: the usable candidates (the backend's detector
    is missing).  Invalid ones are dropped; an unreachable engine and an
    empty transcript (no signal to score) leave none. *)
Definition usable (transcript : Transcript) (mediaDuration : Q)
           (response : EngineResponse) : list CandidateMoment :=
  match transcript, response with
  | [], _ => []
  | _, Unreachable => []
  | _, Answered returned =>
      map promote (filter (usable_candidate mediaDuration) returned)
  end.

(** Modelled from the spec: the score of a fallback window (the backend's
    detector is missing; the spec names no value, the model takes 0.5). *)
Definition HEURISTIC_SCORE : Q := 1 # 2.

(** Modelled from the spec: the words that open the reason of a fallback
    window, by which §4.3 asks that the fallback path be told apart (the
    backend's detector is missing; the spec names no wording). *)
Definition HEURISTIC_MARK : string := "heuristic fallback".

(** Modelled from the spec: the reason of a fallback window (the
    backend's detector is missing). *)
Definition heuristic_reason : string :=
  (HEURISTIC_MARK ++ ": evenly spaced window")%string.

(** Modelled from the spec: what a reader of the result sees in a reason,
    §4.3 and scenario B of §8 (the backend's detector is missing): it
    indicates the heuristic origin when it opens with the mark. *)
Definition indicates_heuristic (reason : string) : bool :=
  String.prefix HEURISTIC_MARK reason.

(** Modelled from the spec: the length of a fallback window (the
    backend's detector is missing): the requested one, cut to the media
    when the media is shorter (§8, §9). *)
Definition window_length (mediaDuration window : Q) : Q :=
  if Qle_bool window mediaDuration then window else mediaDuration.

(** Modelled from the spec: the heuristic fallback of §4.3 and §8 (the
    backend's detector is missing).  When the media holds a window of the
    requested length, exactly [requestedClipCount] windows of that length
    start at equal distances, the first at 0 and the last ending with the
    media; a media shorter than one window gives fewer, the one window that
    covers it; a media or a window of no length gives none. *)
Definition window_count (mediaDuration window : Q) (requestedClipCount : nat)
  : nat :=
  if Qlt_bool 0 window && Qlt_bool 0 mediaDuration then
    if Qle_bool window mediaDuration then requestedClipCount
    else Nat.min requestedClipCount 1
  else O.

(** Modelled from the spec: the distance between the starts of two
    consecutive fallback windows (the backend's detector is missing). *)
Definition spacing (mediaDuration window : Q) (count : nat) : Q :=
  match count with
  | O | S O => 0
  | _ => (mediaDuration - window_length mediaDuration window)
         / inject_Z (Z.of_nat count - 1)
  end.

(** Modelled from the spec: the [i]-th fallback window (the backend's
    detector is missing). *)
Definition heuristic_window (mediaDuration window : Q) (count i : nat)
  : CandidateMoment :=
  let start := inject_Z (Z.of_nat i) * spacing mediaDuration window count in
  {| startTime := start;
     endTime := start + window_length mediaDuration window;
     viralScore := HEURISTIC_SCORE; reason := heuristic_reason |}.

(** Modelled from the spec: the fallback result of §4.3 (the backend's
    detector is missing): the windows, in chronological order. *)
Definition heuristic (mediaDuration window : Q) (requestedClipCount : nat)
  : list CandidateMoment :=
  let count := window_count mediaDuration window requestedClipCount in
  map (heuristic_window mediaDuration window count) (seq 0 count).

(** Modelled from the spec: the result of [detect] of §4.3 (the backend's
    detector is missing): candidates, or a [DetectionError]. *)
Inductive Detection : Type :=
| Candidates (found : list CandidateMoment)
| DetectionFailed.

(** Modelled from the spec: [detect] of §4.3 (the backend's detector is
    missing).  [window] is the requested length of a fallback window.  The
    detector fails only when the engine is unreachable and no fallback is
    possible. *)
Definition detect (transcript : Transcript) (mediaDuration : Q)
           (requestedClipCount : nat) (window : Q)
           (response : EngineResponse) : Detection :=
  match usable transcript mediaDuration response with
  | (_ :: _) as found => Candidates found
  | [] =>
      match heuristic mediaDuration window requestedClipCount, response with
      | [], Unreachable => DetectionFailed
      | windows, _ => Candidates windows
      end
  end.

End Detector.

(** ** Clip Renderer (§4.5) *)

Module Renderer.

(** Modelled from the spec: the size of a video frame (the backend's
    renderer is missing). *)
Record Frame : Type := mkFrame {
  width : Q;
  height : Q
}.

(** Modelled from the spec: width and height of the requested ratio of §3
    (the backend's renderer is missing). *)
Definition ratio_of (a : Types.AspectRatio) : Q * Q :=
  match a with
  | Types.R9_16 => (9, 16)
  | Types.R1_1 => (1, 1)
  | Types.R4_5 => (4, 5)
  | Types.R16_9 => (16, 9)
  end.

(** Modelled from the spec: an output frame of §4.5 (the backend's
    renderer is missing): the canvas, and where on it the source frame is
    drawn, at its own size. *)
Record Letterboxed : Type := mkLetterboxed {
  canvas : Frame;
  offset_x : Q;
  offset_y : Q;
  content : Frame
}.

(** Modelled from the spec: the aspect-ratio transform of §4.5 (the
    backend's renderer is missing), as padding: the canvas is the smallest
    frame of the requested ratio that holds the source frame, which is
    centred on it; bars fill the rest. *)
Definition letterbox (source : Frame) (a : Types.AspectRatio) : Letterboxed :=
  let '(rw, rh) := ratio_of a in
  if Qle_bool (width source * rh) (height source * rw) then
    (* the source is not wider than the target: bars left and right *)
    let w := height source * rw / rh in
    {| canvas := mkFrame w (height source);
       offset_x := (w - width source) / 2;
       offset_y := 0;
       content := source |}
  else
    (* the source is wider than the target: bars above and below *)
    let h := width source * rh / rw in
    {| canvas := mkFrame (width source) h;
       offset_x := 0;
       offset_y := (h - height source) / 2;
       content := source |}.

(** Modelled from the spec: the width of the drawn source frame that
    falls on the canvas (the backend's renderer is missing); cropping would
    make it less than the frame's. *)
Definition visible_width (l : Letterboxed) : Q :=
  Qmin (offset_x l + width (content l)) (width (canvas l)) - Qmax (offset_x l) 0.

(** Modelled from the spec: the height of the drawn source frame that
    falls on the canvas (the backend's renderer is missing). *)
Definition visible_height (l : Letterboxed) : Q :=
  Qmin (offset_y l + height (content l)) (height (canvas l)) - Qmax (offset_y l) 0.

(** Modelled from the spec: the subtitle slice of §4.5 (the backend's
    renderer is missing): the utterances that overlap the range, with
    times relative to the start of the clip. *)
Definition in_range (m : SelectedMoment) (u : Utterance) : bool :=
  Qlt_bool (u_start u) (endTime m) && Qlt_bool (startTime m) (u_end u).

(** Modelled from the spec: an utterance in clip-relative time, §4.5 (the
    backend's renderer is missing). *)
Definition rebase (m : SelectedMoment) (u : Utterance) : Utterance :=
  {| u_start := u_start u - startTime m;
     u_end := u_end u - startTime m;
     u_text := u_text u |}.

(** Modelled from the spec: the transcript slice burned into a clip, §4.5
    (the backend's renderer is missing). *)
Definition subtitle_slice (transcript : Transcript) (m : SelectedMoment)
  : list Utterance :=
  map (rebase m) (filter (in_range m) transcript).

(** Modelled from the spec: the result of [render] of §4.5 (the backend's
    renderer is missing): the range trimmed, the framing, the burned
    subtitles and the local artifact. *)
Record RenderedClip : Type := mkRenderedClip {
  rendered_moment : SelectedMoment;
  trim_start : Q;
  trim_end : Q;
  framing : Letterboxed;
  burned : list Utterance;
  artifact : string
}.

(** Modelled from the spec: [render] of §4.5 (the backend's renderer is
    missing).  [encode] stands for the encoder, which yields the local
    artifact or fails (codec error, zero-duration result, disk
    exhaustion). *)
Definition render (encode : SelectedMoment -> option string)
           (source : Frame) (m : SelectedMoment) (a : Types.AspectRatio)
           (subtitles : bool) (transcript : Transcript)
  : option RenderedClip :=
  match encode m with
  | None => None
  | Some path =>
      Some {| rendered_moment := m;
              trim_start := startTime m;
              trim_end := endTime m;
              framing := letterbox source a;
              burned := if subtitles then subtitle_slice transcript m else [];
              artifact := path |}
  end.

End Renderer.

(** ** Artifact Publisher (§4.6) *)

Module Publisher.

(** Modelled from the spec: [publish] of §4.6 (the backend's publisher is
    missing).  [put] stands for the blob store: what it answers to the
    upload of an artifact at a given attempt.  The same artifact is
    uploaded again until an attempt succeeds or [remaining] attempts are
    spent. *)
Fixpoint publish_with_retries (put : string -> nat -> option (string * string))
         (artifact : string) (attempt remaining : nat)
  : option (string * string) :=
  match remaining with
  | O => None
  | S k =>
      match put artifact attempt with
      | Some urls => Some urls
      | None => publish_with_retries put artifact (S attempt) k
      end
  end.

End Publisher.

(** ** Pipeline Orchestrator (§4.7, §7) *)

Module Orchestrator.
Import Selector Detector Renderer Publisher.

Local Open Scope Z_scope.

(** Modelled from the spec: the error taxonomy of §7 (the backend's
    orchestrator is missing). *)
Inductive ErrorCategory : Type :=
| SourceError
| TranscriptionError
| DetectionError
| RenderError
| PublishError
| Timeout
| Cancelled.

(** Modelled from the spec: the states of §4.7 (the backend's orchestrator
    is missing); [Failed] carries its category. *)
Inductive Stage : Type :=
| Queued
| Acquiring
| Transcribing
| Detecting
| Selecting
| Rendering
| Publishing
| Completed
| Failed (category : ErrorCategory).

(** Modelled from the spec: [MediaAsset] of §3 (the backend's type is
    missing). *)
Record MediaAsset : Type := mkMediaAsset {
  media_path : string;
  media_duration : Q;
  media_frame : Frame
}.

(** Modelled from the spec: the part of [GenerationRequest] of §3 that
    the stages read (the backend's type is missing). *)
Record Request : Type := mkRequest {
  req_clips : nat;
  req_duration : RequestedDuration;
  req_aspectRatio : Types.AspectRatio;
  req_subtitles : bool
}.

(** Modelled from the spec: the configuration the stages are given, §4.4,
    §4.6, §4.7 and §9 (the backend's configuration is missing). *)
Record Config : Type := mkConfig {
  tolerance : Q;
  auto_window : Q;
  ceiling_ms : Z;
  publish_attempts : nat
}.

(** Modelled from the spec: the record of a published clip, §3 and §4.6
    (the backend's type is missing): the originating moment, the framing
    and the retrieval URLs. *)
Record PublishedClip : Type := mkPublishedClip {
  moment : SelectedMoment;
  clip_framing : Letterboxed;
  url : string;
  thumbnailUrl : string
}.

(** Modelled from the spec: everything outside the orchestrator, for one
    run (the backend's collaborators are missing): the answers of the
    acquirer, of the transcriber at each attempt, of the scoring engine, of
    the encoder for each moment and of the blob store for each artifact and
    attempt; the time each stage takes, in milliseconds; and the stages
    before which the caller cancels. *)
Record World : Type := mkWorld {
  acquire : option MediaAsset;
  transcribe : nat -> option Transcript;
  engine : EngineResponse;
  encode : SelectedMoment -> option string;
  put : string -> nat -> option (string * string);
  stage_ms : Stage -> Z;
  cancelled_before : Stage -> bool
}.

(** Modelled from the spec: the state of a run, §4.7 (the backend's
    orchestrator is missing).  [elapsed] is the time at which the stage
    last entered ends; [scratch] is the run's media file while it exists. *)
Record Run : Type := mkRun {
  stage : Stage;
  elapsed : Z;
  scratch : option MediaAsset;
  transcript : Transcript;
  candidates : list CandidateMoment;
  selected : list SelectedMoment;
  rendered : list RenderedClip;
  clips : list PublishedClip
}.

(** Modelled from the spec: a run as [generate] of §6 leaves it (the
    backend's orchestrator is missing). *)
Definition queued : Run :=
  {| stage := Queued; elapsed := 0; scratch := None; transcript := [];
     candidates := []; selected := []; rendered := []; clips := [] |}.

(** Modelled from the spec: a terminal failure, §4.7 and §3 (the backend's
    orchestrator is missing): the category is recorded and the scratch
    media released. *)
Definition fail (category : ErrorCategory) (r : Run) : Run :=
  {| stage := Failed category; elapsed := elapsed r; scratch := None;
     transcript := transcript r; candidates := candidates r;
     selected := selected r; rendered := rendered r; clips := [] |}.

(** Modelled from the spec: the transcriber of §4.2 (the backend's
    transcriber is missing): one retry, a second failure is fatal. *)
Definition transcribe_with_retry (w : World) : option Transcript :=
  match transcribe w 0 with
  | Some t => Some t
  | None => transcribe w 1
  end.

(** Modelled from the spec: the length of a fallback window, §4.3 (the
    backend's detector is missing): the requested duration, or the
    configured one for [auto]. *)
Definition window_of (cfg : Config) (req : Request) : Q :=
  match req_duration req with
  | Auto => auto_window cfg
  | Fixed d => d
  end.

(** Modelled from the spec: the fan-out of §4.5 and §4.7 (the backend's
    orchestrator is missing): the renders that succeeded, in presentation
    order; a failed render drops its clip and nothing else. *)
Fixpoint render_all (w : World) (req : Request) (source : Frame)
         (t : Transcript) (moments : list SelectedMoment)
  : list RenderedClip :=
  match moments with
  | [] => []
  | m :: rest =>
      match render (encode w) source m (req_aspectRatio req)
                   (req_subtitles req) t with
      | Some clip => clip :: render_all w req source t rest
      | None => render_all w req source t rest
      end
  end.

(** Modelled from the spec: the fan-out of §4.6 and §4.7 (the backend's
    orchestrator is missing): the uploads that succeeded; a clip whose
    retries are exhausted is dropped and nothing else. *)
Fixpoint publish_all (cfg : Config) (w : World) (done : list RenderedClip)
  : list PublishedClip :=
  match done with
  | [] => []
  | c :: rest =>
      match publish_with_retries (put w) (artifact c) 0 (publish_attempts cfg) with
      | Some (u, t) =>
          {| moment := rendered_moment c; clip_framing := framing c;
             url := u; thumbnailUrl := t |} :: publish_all cfg w rest
      | None => publish_all cfg w rest
      end
  end.

(** Modelled from the spec: the work of each stage and the transition it
    takes (§4.7, §7; the backend's orchestrator is missing). *)
Definition work (cfg : Config) (w : World) (req : Request) (r : Run) : Run :=
  match stage r with
  | Queued =>
      {| stage := Acquiring; elapsed := elapsed r; scratch := scratch r;
         transcript := transcript r; candidates := candidates r;
         selected := selected r; rendered := rendered r; clips := clips r |}
  | Acquiring =>
      match acquire w with
      | None => fail SourceError r
      | Some media =>
          {| stage := Transcribing; elapsed := elapsed r;
             scratch := Some media;
             transcript := transcript r; candidates := candidates r;
             selected := selected r; rendered := rendered r; clips := clips r |}
      end
  | Transcribing =>
      match transcribe_with_retry w with
      | Some t =>
          {| stage := Detecting; elapsed := elapsed r; scratch := scratch r;
             transcript := t; candidates := candidates r;
             selected := selected r; rendered := rendered r; clips := clips r |}
      | None => fail TranscriptionError r
      end
  | Detecting =>
      match scratch r with
      | None => fail SourceError r
      | Some media =>
          match detect (transcript r) (media_duration media) (req_clips req)
                       (window_of cfg req) (engine w) with
          | DetectionFailed => fail DetectionError r
          | Candidates found =>
              {| stage := Selecting; elapsed := elapsed r; scratch := scratch r;
                 transcript := transcript r; candidates := found;
                 selected := selected r; rendered := rendered r;
                 clips := clips r |}
          end
      end
  | Selecting =>
      match scratch r with
      | None => fail SourceError r
      | Some media =>
          match select (tolerance cfg) (candidates r) (req_clips req)
                       (req_duration req) (media_duration media) with
          | [] => fail DetectionError r
          | chosen =>
              {| stage := Rendering; elapsed := elapsed r; scratch := scratch r;
                 transcript := transcript r; candidates := candidates r;
                 selected := chosen; rendered := rendered r; clips := clips r |}
          end
      end
  | Rendering =>
      match scratch r with
      | None => fail SourceError r
      | Some media =>
          match render_all w req (media_frame media) (transcript r) (selected r) with
          | [] => fail RenderError r
          | done =>
              {| stage := Publishing; elapsed := elapsed r; scratch := scratch r;
                 transcript := transcript r; candidates := candidates r;
                 selected := selected r; rendered := done; clips := clips r |}
          end
      end
  | Publishing =>
      match publish_all cfg w (rendered r) with
      | [] => fail PublishError r
      | published =>
          (* every survivor is published: the run completes and its
             scratch media is deleted *)
          {| stage := Completed; elapsed := elapsed r; scratch := None;
             transcript := transcript r; candidates := candidates r;
             selected := selected r; rendered := rendered r;
             clips := published |}
      end
  | Completed | Failed _ => r
  end.

(** Modelled from the spec: the terminal states of §4.7 (the backend's
    orchestrator is missing). *)
Definition is_terminal (s : Stage) : bool :=
  match s with
  | Completed | Failed _ => true
  | _ => false
  end.

(** Modelled from the spec: the run with its clock moved (the backend's
    orchestrator is missing). *)
Definition at_time (t : Z) (r : Run) : Run :=
  {| stage := stage r; elapsed := t; scratch := scratch r;
     transcript := transcript r; candidates := candidates r;
     selected := selected r; rendered := rendered r; clips := clips r |}.

(** Modelled from the spec: one transition of the state machine of §4.7
    (the backend's orchestrator is missing).  A run cancelled before the
    stage it is about to perform ends [Cancelled]; a stage that would end
    after the ceiling is aborted when the ceiling is reached and the run
    ends [Timeout] at that time; otherwise the stage does its work. *)
Definition step (cfg : Config) (w : World) (req : Request) (r : Run) : Run :=
  if is_terminal (stage r) then r
  else if cancelled_before w (stage r) then fail Cancelled r
  else
    let t := elapsed r + stage_ms w (stage r) in
    if ceiling_ms cfg <? t then fail Timeout (at_time (ceiling_ms cfg) r)
    else work cfg w req (at_time t r).

(** Modelled from the spec: [n] transitions of the state machine of §4.7
    (the backend's orchestrator is missing). *)
Fixpoint steps (n : nat) (cfg : Config) (w : World) (req : Request) (r : Run)
  : Run :=
  match n with
  | O => r
  | S k => step cfg w req (steps k cfg w req r)
  end.

(** Modelled from the spec: a run from [Queued] through its seven stages,
    §4.7 (the backend's orchestrator is missing). *)
Definition run (cfg : Config) (w : World) (req : Request) : Run :=
  steps 7 cfg w req queued.

End Orchestrator.

End Pipeline.

(* ================================================================== *)
(** * Part III — theorems *)
(* ================================================================== *)

Module DashboardProps.
Import Types Dashboard.

Lemma progress_updater_bounds stages tc prev :
  0 <= prev <= 97 ->
  prev <= fst (progress_updater stages tc prev) <= 97.
Proof.
  intros H. unfold progress_updater.
  destruct (97 <=? prev) eqn:E97; simpl; [apply Z.leb_le in E97; lia|].
  destruct ((85 <=? prev) && negb (tc mod 8 =? 0)); simpl; lia.
Qed.

Lemma progress_tick stages s :
  progress (tick stages s)
  = fst (progress_updater stages (tickCount s + 1) (progress s)).
Proof.
  unfold tick. destruct (progress_updater _ _ _); reflexivity.
Qed.

Lemma progress_ticks_range stages s n :
  0 <= progress (ticks n stages (start s)) <= 97.
Proof.
  induction n as [|n IH]; simpl.
  - lia.
  - rewrite progress_tick.
    pose proof (progress_updater_bounds stages
                  (tickCount (ticks n stages (start s)) + 1) _ IH). lia.
Qed.

(** The request completed: the token was obtained and the response
    arrived before the time limit, the response was [ok], and its body was
    read and says ['completed']. *)
Definition completed_in_time (b : Backend) : bool :=
  match getIdToken b, fetch b with
  | Resolves a _, Resolves d response =>
      (a <? TIMEOUT_MS) && (a + d <? TIMEOUT_MS) && ok response &&
      match json response with
      | Resolves _ data => String.eqb (json_status data) "completed"
      | _ => false
      end
  | _, _ => false
  end.

(** The token was obtained, and 15 minutes after the call the response has
    not arrived. *)
Definition response_overdue (b : Backend) : bool :=
  match getIdToken b with
  | Resolves a _ =>
      (TIMEOUT_MS <=? a) ||
      match fetch b with
      | Hangs => true
      | Resolves d _ => TIMEOUT_MS <=? a + d
      | Rejects d _ _ => TIMEOUT_MS <=? a + d
      end
  | _ => false
  end.

Lemma progress_settle st s :
  progress (settle st s)
  = match st with
    | Body data_status _ =>
        if String.eqb data_status "completed" then 100 else progress s
    | _ => progress s
    end.
Proof.
  destruct st as [nm msg|h d|ds dc]; simpl; try reflexivity.
  destruct (String.eqb ds "completed"); reflexivity.
Qed.

(** C6.  While a run is processing, every firing of the progress updater
    leaves the percentage at least where it was and at most 97, starting
    from 0; and a call of [handleGenerate] that passes its guards ends at
    100 exactly when a completed response arrived in time, and at most 97
    otherwise (a call stopped by a guard changes nothing). *)
Theorem C6_progress_monotonic_bounded :
  forall (f : Form) (b : Backend) (s0 : State) (n : nat),
    let stages := stages_for (sourceTab f) in
    let before := ticks n stages (start s0) in
    let after := tick stages before in
    (0 <= progress before /\
     progress before <= progress after /\
     progress after <= 97) /\
    (if can_generate f then
       if completed_in_time b
       then progress (handleGenerate f b s0) = 100
       else 0 <= progress (handleGenerate f b s0) <= 97
     else handleGenerate f b s0 = s0).
Proof.
  intros f b s0 n stages before after. split.
  - pose proof (progress_ticks_range stages s0 n) as Hb.
    fold before in Hb.
    pose proof (progress_updater_bounds stages (tickCount before + 1) _ Hb) as Hs.
    rewrite <- progress_tick in Hs. fold after in Hs. lia.
  - unfold handleGenerate, await_response, completed_in_time.
    destruct (can_generate f); cbn [negb]; [|reflexivity].
    fold stages. cbv beta zeta.
    assert (R : forall ms,
               0 <= progress (ticks (ticks_within ms) stages (start s0)) <= 97)
      by (intros ms; apply progress_ticks_range).
    assert (RA : forall nm msg ms,
               0 <= progress (finally (catch_error nm msg
                         (ticks (ticks_within ms) stages (start s0)))) <= 97)
      by (intros nm msg ms; apply R).
    destruct (getIdToken b) as [|a []|a nm msg]; [apply R| |apply RA].
    rewrite !Z.ltb_antisym.
    destruct (TIMEOUT_MS <=? a); cbn [negb andb].
    { destruct (fetch b); apply RA. }
    destruct (fetch b) as [|d response|d nm msg];
      [apply RA| |destruct (TIMEOUT_MS <=? a + d); apply RA].
    rewrite !Z.ltb_antisym.
    destruct (TIMEOUT_MS <=? a + d); cbn [negb andb]; [apply RA|].
    destruct (ok response); cbn [andb].
    + destruct (json response) as [|t data|t nm msg]; [apply R| |apply RA].
      change (progress (finally ?x)) with (progress x).
      rewrite progress_settle.
      destruct (String.eqb (json_status data) "completed");
        [reflexivity|apply R].
    + destruct (json response) as [|t data|t nm msg]; [apply R| |];
        change (progress (finally ?x)) with (progress x);
        rewrite progress_settle; apply R.
Qed.

(** The invariant of the settings form. *)
Definition in_range (n : Z) : Prop := RANGE_MIN <= n <= RANGE_MAX.

Definition form_ok (f : Form) : Prop :=
  1 <= numberOfClips (settings f) <= 10 /\
  in_range (customDuration f) /\
  match duration (settings f) with
  | auto => True
  | seconds n => in_range n
  end.

Lemma range_value_in_range raw : in_range (range_value raw).
Proof. unfold in_range, range_value, RANGE_MIN, RANGE_MAX. lia. Qed.

Lemma initial_form_ok : form_ok initial_form.
Proof. unfold form_ok, in_range, RANGE_MIN, RANGE_MAX. simpl. lia. Qed.

Lemma nth_error_duration_options i d :
  nth_error DURATION_OPTIONS i = Some (seconds d) -> in_range d.
Proof.
  unfold in_range, RANGE_MIN, RANGE_MAX, DURATION_OPTIONS.
  destruct i as [|[|[|[|[|i]]]]]; simpl; intros E;
    try discriminate; try (injection E as <-; lia).
  destruct i; discriminate.
Qed.

Lemma nth_error_clip_count_options i n :
  nth_error CLIP_COUNT_OPTIONS i = Some n -> 1 <= n <= 10.
Proof.
  unfold CLIP_COUNT_OPTIONS.
  destruct i as [|[|[|[|[|i]]]]]; simpl; intros E;
    try (injection E as <-; lia).
  destruct i; discriminate.
Qed.

Ltac form_auto :=
  unfold form_ok, with_settings, with_customDuration, set_duration,
    set_aspectRatio, set_numberOfClips, set_generateSubtitles, set_template;
  cbn [settings customDuration numberOfClips duration];
  tauto.

Lemma act_ok f a : form_ok f -> form_ok (act f a).
Proof.
  intros H. pose proof H as (Hn & Hc & Hd).
  destruct a as [t|u|u|name|i|raw|i|i| |i]; cbn [act]; try form_auto.
  - destruct (nth_error DURATION_OPTIONS i) as [[|d]|] eqn:E.
    + form_auto.
    + apply nth_error_duration_options in E. form_auto.
    + exact H.
  - destruct (is_auto (duration (settings f))); [exact H|].
    pose proof (range_value_in_range raw). form_auto.
  - destruct (nth_error ASPECT_RATIOS i); [form_auto|exact H].
  - destruct (nth_error CLIP_COUNT_OPTIONS i) as [n|] eqn:E; [|exact H].
    apply nth_error_clip_count_options in E. form_auto.
  - destruct (nth_error TEMPLATES i); [form_auto|exact H].
Qed.

Lemma fold_act_ok actions f : form_ok f -> form_ok (fold_left act actions f).
Proof.
  revert f. induction actions as [|a l IH]; intros f H; simpl.
  - exact H.
  - apply IH, act_ok, H.
Qed.

Lemma session_ok actions : form_ok (session actions).
Proof. apply fold_act_ok, initial_form_ok. Qed.

(** What the data model asks of the settings of a request. *)
Definition settings_in_bounds (p : ClipSettingsPayload) : Prop :=
  1 <= p_numberOfClips p <= 10 /\
  (p_duration p = "auto"%string \/
   exists n, 5 <= n <= 120 /\ p_duration p = String_of n) /\
  In (p_aspectRatio p) [R9_16; R1_1; R4_5; R16_9].

Lemma clipSettings_in_bounds f : form_ok f -> settings_in_bounds (clipSettings f).
Proof.
  intros (Hn & Hc & Hd). unfold settings_in_bounds, clipSettings; simpl.
  split; [exact Hn|]. split.
  - destruct (is_auto (duration (settings f))).
    + left; reflexivity.
    + right. exists (customDuration f). split; [exact Hc|reflexivity].
  - destruct (aspectRatio (settings f)); simpl; tauto.
Qed.

Lemma build_request_settings f r :
  build_request f = Some r -> request_settings r = clipSettings f.
Proof.
  unfold build_request. destruct (can_generate f); [|discriminate].
  destruct (sourceTab f); [| |destruct (uploadedFile f)];
    try discriminate; intros [= <-]; reflexivity.
Qed.

(** C8.  Whatever the user does to the form, the request that
    [handleGenerate] builds from it asks for 1 to 10 clips, for a duration
    that is ['auto'] or a whole number of seconds from 5 to 120, and for one
    of the four aspect ratios. *)
Theorem C8_request_in_bounds :
  forall (actions : list Action) (r : GenerationRequest),
    build_request (session actions) = Some r ->
    settings_in_bounds (request_settings r).
Proof.
  intros actions r H.
  rewrite (build_request_settings _ _ H).
  apply clipSettings_in_bounds, session_ok.
Qed.

Definition C8_session : list Action :=
  [ TypeYoutubeUrl "https://www.youtube.com/watch?v=abc";
    ClickDuration 2; SlideDuration 500; ClickNumberOfClips 4;
    ClickAspectRatio 2 ].

Definition C8_request : GenerationRequest :=
  {| source := FromYoutube "https://www.youtube.com/watch?v=abc";
     request_settings :=
       {| p_duration := "120"; p_aspectRatio := R4_5; p_numberOfClips := 10;
          p_generateSubtitles := true; p_template := "minimal";
          p_detectionMethod := "ai" |} |}.

Lemma C8_request_in_bounds_witness :
  build_request (session C8_session) = Some C8_request /\
  settings_in_bounds (request_settings C8_request).
Proof.
  split.
  - reflexivity.
  - apply (C8_request_in_bounds C8_session C8_request). reflexivity.
Defined.

End DashboardProps.

Module HistoryProps.
Import Types History.

Definition MS_PER_DAY : Z := 24 * 60 * 60 * 1000.
Definition RETENTION_DAYS : Z := 10.

(** The ceiling of [a / b] for whole numbers, [b] positive. *)
Definition ceil_div (a b : Z) : Z := - ((- a) / b).

Lemma ceil_div_spec a b :
  0 < b -> (ceil_div a b - 1) * b < a <= ceil_div a b * b.
Proof.
  intros Hb. unfold ceil_div.
  pose proof (Z.div_mod (- a) b ltac:(lia)) as Hdm.
  pose proof (Z.mod_pos_bound (- a) b Hb) as Hm.
  nia.
Qed.

Lemma ceil_div_le_0 a b : 0 < b -> (ceil_div a b <= 0 <-> a <= 0).
Proof.
  intros Hb. pose proof (ceil_div_spec a b Hb). split; intros; nia.
Qed.

Lemma Qceiling_ms_per_day (a : Z) :
  Qceiling (inject_Z a / inject_Z (24 * 60 * 60 * 1000)) = ceil_div a MS_PER_DAY.
Proof.
  unfold Qceiling, Qfloor, Qdiv, Qmult, Qinv, Qopp, inject_Z, ceil_div, MS_PER_DAY.
  cbn [Qnum Qden]. rewrite Z.mul_1_r. reflexivity.
Qed.

Lemma daysUntilPurge_ceil deletedAt now :
  daysUntilPurge deletedAt now
  = Z.max 0 (ceil_div (deletedAt + RETENTION_DAYS * MS_PER_DAY - now) MS_PER_DAY).
Proof.
  unfold daysUntilPurge. cbv zeta. rewrite Qceiling_ms_per_day.
  reflexivity.
Qed.

(** C9.  With a retention window of 10 days, the days left before purge are
    [max(0, ceil((deletedAt + 10 days - now) / 1 day))]: never negative, 0
    exactly from the moment 10 days have passed since the deletion, and
    before that the number of started days that remain. *)
Theorem C9_days_until_purge :
  forall deletedAt now : Z,
    let remaining := deletedAt + RETENTION_DAYS * MS_PER_DAY - now in
    let days := daysUntilPurge deletedAt now in
    days = Z.max 0 (ceil_div remaining MS_PER_DAY) /\
    0 <= days /\
    (days = 0 <-> deletedAt + RETENTION_DAYS * MS_PER_DAY <= now) /\
    (0 < remaining -> (days - 1) * MS_PER_DAY < remaining <= days * MS_PER_DAY) /\
    (deletedAt <= now -> days <= RETENTION_DAYS).
Proof.
  intros deletedAt now remaining days.
  assert (E : days = Z.max 0 (ceil_div remaining MS_PER_DAY))
    by apply daysUntilPurge_ceil.
  assert (HD : 0 < MS_PER_DAY) by reflexivity.
  pose proof (ceil_div_spec remaining MS_PER_DAY HD) as Hs.
  pose proof (ceil_div_le_0 remaining MS_PER_DAY HD) as H0.
  assert (HR : RETENTION_DAYS = 10) by reflexivity.
  split; [exact E|]. rewrite E.
  repeat split; intros; subst remaining; try nia.
Qed.

(** *** Moving an item to the trash and back *)

Lemma has_id_true i item : has_id i item = true <-> id item = i.
Proof. unfold has_id. apply String.eqb_eq. Qed.

Lemma not_id_false i item : not_id i item = false <-> id item = i.
Proof.
  unfold not_id. rewrite negb_false_iff. apply String.eqb_eq.
Qed.

Lemma find_unique_id (l : list HistoryItem) (item : HistoryItem) :
  NoDup (map id l) -> In item l -> find (has_id (id item)) l = Some item.
Proof.
  induction l as [|x l IH]; intros Hnd Hin; [destruct Hin|].
  simpl in Hnd. inversion Hnd as [|? ? Hx Hl]; subst.
  simpl. destruct (has_id (id item) x) eqn:E.
  - apply has_id_true in E. destruct Hin as [->|Hin]; [reflexivity|].
    exfalso. apply Hx. rewrite E. apply in_map, Hin.
  - destruct Hin as [->|Hin].
    + unfold has_id in E. rewrite String.eqb_refl in E. discriminate.
    + apply IH; assumption.
Qed.

Lemma filter_not_id_absent (l : list HistoryItem) (i : string) :
  ~ In i (map id l) -> filter (not_id i) l = l.
Proof.
  induction l as [|x l IH]; intros Hni; [reflexivity|].
  simpl in *. destruct (not_id i x) eqn:E.
  - f_equal. apply IH. tauto.
  - apply not_id_false in E. tauto.
Qed.

Lemma filter_not_id_gone (l : list HistoryItem) (i : string) :
  ~ In i (map id (filter (not_id i) l)).
Proof.
  intros Hin. apply in_map_iff in Hin as (x & Hx & Hf).
  apply filter_In in Hf as (_ & Hf).
  unfold not_id in Hf. rewrite <- Hx, String.eqb_refl in Hf. discriminate.
Qed.

Lemma filter_not_id_perm (l : list HistoryItem) (item : HistoryItem) :
  NoDup (map id l) -> In item l ->
  Permutation l (item :: filter (not_id (id item)) l).
Proof.
  induction l as [|x l IH]; intros Hnd Hin; [destruct Hin|].
  simpl in Hnd. inversion Hnd as [|? ? Hx Hl]; subst.
  destruct Hin as [->|Hin].
  - simpl. unfold not_id at 1. rewrite String.eqb_refl. simpl.
    rewrite filter_not_id_absent by exact Hx. reflexivity.
  - simpl. destruct (not_id (id item) x) eqn:E.
    + rewrite perm_swap. apply perm_skip, IH; assumption.
    + apply not_id_false in E. exfalso. apply Hx.
      rewrite E. apply in_map, Hin.
Qed.

Lemma NoDup_app_disjoint {A} (l1 l2 : list A) (x : A) :
  NoDup (l1 ++ l2) -> In x l1 -> ~ In x l2.
Proof.
  induction l1 as [|y l1 IH]; intros Hnd Hin; [destruct Hin|].
  simpl in Hnd. inversion Hnd as [|? ? Hy Hl]; subst.
  destruct Hin as [->|Hin].
  - intros H2. apply Hy, in_or_app. right. exact H2.
  - apply IH; assumption.
Qed.

Lemma with_deletedAt_same item : with_deletedAt item (deletedAt item) = item.
Proof. destruct item; reflexivity. Qed.

(** Two items agree on every field but [deletedAt]. *)
Definition same_but_deletedAt (a b : HistoryItem) : Prop :=
  id a = id b /\ sourceType a = sourceType b /\ sourceName a = sourceName b /\
  sourceThumbnail a = sourceThumbnail b /\ clips a = clips b /\
  settings a = settings b /\ createdAt a = createdAt b /\
  status a = status b /\ trashedAt a = trashedAt b.

Section SoftDeleteRestore.

Variable s : State.
Variable item : HistoryItem.
Variable now : string.

Hypothesis unique_ids : NoDup (ids s).
Hypothesis listed : In item (activeItems s).

Let trashed : HistoryItem := with_deletedAt item (Some now).
Let restored : HistoryItem := with_deletedAt item None.
Let s1 : State := softDelete (id item) now s.
Let s2 : State := restore (id item) s1.

Lemma unique_active : NoDup (map id (activeItems s)).
Proof.
  unfold ids in unique_ids. rewrite map_app in unique_ids.
  apply NoDup_app_remove_r in unique_ids. exact unique_ids.
Qed.

Lemma not_in_trash : ~ In (id item) (map id (trashItems s)).
Proof.
  intros Hin. unfold ids in unique_ids. rewrite map_app in unique_ids.
  apply (NoDup_app_disjoint _ _ (id item) unique_ids);
    [apply in_map, listed|exact Hin].
Qed.

Lemma softDelete_eq :
  s1 = {| activeItems := filter (not_id (id item)) (activeItems s);
          trashItems := trashed :: trashItems s;
          localStorage := localStorage s |}.
Proof.
  unfold s1, softDelete, handleSoftDelete.
  rewrite (find_unique_id _ _ unique_active listed). reflexivity.
Qed.

Lemma restore_eq :
  s2 = {| activeItems := restored :: filter (not_id (id item)) (activeItems s);
          trashItems := trashItems s;
          localStorage :=
            Some ((restored :: filter (not_id (id item)) (activeItems s))
                    ++ trashItems s) |}.
Proof.
  unfold s2, restore, handleRestore. rewrite softDelete_eq.
  cbn [trashItems activeItems find].
  replace (has_id (id item) trashed) with true
    by (unfold has_id, trashed; simpl; symmetry; apply String.eqb_refl).
  cbn [filter].
  replace (not_id (id item) trashed) with false
    by (unfold not_id, trashed; simpl; rewrite String.eqb_refl; reflexivity).
  rewrite (filter_not_id_absent _ _ not_in_trash).
  reflexivity.
Qed.

Lemma softDelete_restore_roundtrip :
  (* soft delete *)
  (~ In (id item) (map id (activeItems s1)) /\
   Permutation (activeItems s) (item :: activeItems s1) /\
   trashItems s1 = trashed :: trashItems s /\
   deletedAt trashed = Some now /\
   same_but_deletedAt trashed item) /\
  (* restore *)
  (~ In (id item) (map id (trashItems s2)) /\
   trashItems s2 = trashItems s /\
   activeItems s2 = restored :: activeItems s1 /\
   deletedAt restored = None /\
   same_but_deletedAt restored item /\
   Permutation (activeItems s2) (restored :: filter (not_id (id item)) (activeItems s))) /\
  (* membership *)
  (Permutation (ids s1) (ids s) /\ Permutation (ids s2) (ids s) /\
   NoDup (ids s1) /\ NoDup (ids s2)) /\
  (* the round trip on an item that carried no deletion timestamp *)
  (deletedAt item = None ->
   Permutation (activeItems s2) (activeItems s) /\ trashItems s2 = trashItems s).
Proof.
  pose proof softDelete_eq as E1. pose proof restore_eq as E2.
  pose proof (filter_not_id_perm _ _ unique_active listed) as HP.
  assert (A1 : activeItems s1 = filter (not_id (id item)) (activeItems s))
    by (rewrite E1; reflexivity).
  assert (T1 : trashItems s1 = trashed :: trashItems s)
    by (rewrite E1; reflexivity).
  assert (A2 : activeItems s2 = restored :: filter (not_id (id item)) (activeItems s))
    by (rewrite E2; reflexivity).
  assert (T2 : trashItems s2 = trashItems s) by (rewrite E2; reflexivity).
  assert (I1 : Permutation (ids s1) (ids s)).
  { unfold ids. rewrite A1, T1, !map_app. cbn [map].
    change (id trashed) with (id item).
    rewrite <- Permutation_middle.
    rewrite (Permutation_map id HP). reflexivity. }
  assert (I2 : Permutation (ids s2) (ids s)).
  { unfold ids. rewrite A2, T2, !map_app. cbn [map].
    change (id restored) with (id item).
    rewrite (Permutation_map id HP). reflexivity. }
  pose proof (Permutation_NoDup (Permutation_sym I1) unique_ids) as N1.
  pose proof (Permutation_NoDup (Permutation_sym I2) unique_ids) as N2.
  repeat split; try assumption; try reflexivity.
  - rewrite A1. apply filter_not_id_gone.
  - rewrite A1. exact HP.
  - rewrite T2. exact not_in_trash.
  - rewrite A2, A1. reflexivity.
  - rewrite A2. reflexivity.
  - rewrite A2. unfold restored. rewrite <- H, with_deletedAt_same.
    symmetry. exact HP.
Qed.

End SoftDeleteRestore.

(** C10, amended.  When the ids held by the page are pairwise distinct,
    moving an active item to the trash removes it from the active list and
    puts it at the head of the trash with [deletedAt] set and every other
    field as it was; restoring it empties it from the trash and puts it
    back at the head of the active list with [deletedAt] cleared and every
    other field as it was; both steps keep the ids held by the two lists
    together, and keep them distinct; an item that had no [deletedAt]
    comes back unchanged, the active list as it was up to order and the
    trash as it was. *)
Theorem C10_soft_delete_restore :
  forall (s : State) (item : HistoryItem) (now : string),
    NoDup (ids s) ->
    In item (activeItems s) ->
    let trashed := with_deletedAt item (Some now) in
    let restored := with_deletedAt item None in
    let s1 := softDelete (id item) now s in
    let s2 := restore (id item) s1 in
    (~ In (id item) (map id (activeItems s1)) /\
     Permutation (activeItems s) (item :: activeItems s1) /\
     trashItems s1 = trashed :: trashItems s /\
     deletedAt trashed = Some now /\
     same_but_deletedAt trashed item) /\
    (~ In (id item) (map id (trashItems s2)) /\
     trashItems s2 = trashItems s /\
     activeItems s2 = restored :: activeItems s1 /\
     deletedAt restored = None /\
     same_but_deletedAt restored item /\
     Permutation (activeItems s2)
                 (restored :: filter (not_id (id item)) (activeItems s))) /\
    (Permutation (ids s1) (ids s) /\ Permutation (ids s2) (ids s) /\
     NoDup (ids s1) /\ NoDup (ids s2)) /\
    (deletedAt item = None ->
     Permutation (activeItems s2) (activeItems s) /\ trashItems s2 = trashItems s).
Proof.
  intros s item now Hnd Hin. exact (softDelete_restore_roundtrip s item now Hnd Hin).
Qed.

Definition ex_settings : ClipSettings :=
  {| duration := auto; aspectRatio := R9_16; numberOfClips := 3;
     generateSubtitles := true; template := "minimal";
     detectionMethod := ai |}.

Definition ex_item (i name : string) (d : option string) : HistoryItem :=
  {| id := i; sourceType := youtube; sourceName := name;
     sourceThumbnail := ""; clips := []; settings := ex_settings;
     createdAt := "2025-01-05T10:00:00.000Z"; status := completed;
     deletedAt := d; trashedAt := None |}.

Definition ex_state : State :=
  {| activeItems := [ ex_item "run-1" "Interview" None;
                      ex_item "run-2" "Keynote" None ];
     trashItems := [ ex_item "run-0" "Old stream"
                             (Some "2025-01-01T08:00:00.000Z"%string) ];
     localStorage := None |}.

Lemma C10_soft_delete_restore_witness :
  let item := ex_item "run-2" "Keynote" None in
  let s2 := restore "run-2" (softDelete "run-2" "2025-01-06T09:30:00.000Z" ex_state) in
  NoDup (ids ex_state) /\ In item (activeItems ex_state) /\
  Permutation (activeItems s2) (activeItems ex_state) /\
  trashItems s2 = trashItems ex_state.
Proof.
  cbv zeta.
  assert (Hnd : NoDup (ids ex_state)).
  { cbn. repeat constructor; cbn; intuition discriminate. }
  assert (Hin : In (ex_item "run-2" "Keynote" None) (activeItems ex_state))
    by (right; left; reflexivity).
  destruct (C10_soft_delete_restore ex_state (ex_item "run-2" "Keynote" None)
              "2025-01-06T09:30:00.000Z" Hnd Hin) as (_ & _ & _ & H).
  split; [exact Hnd|]. split; [exact Hin|]. exact (H eq_refl).
Defined.

(** Two runs listed under one id. *)
Definition twins : State :=
  {| activeItems := [ ex_item "run-1" "Interview" None;
                      ex_item "run-1" "Keynote" None ];
     trashItems := [];
     localStorage := None |}.

(** The page after two clicks on Restore for ["run-0"], both handled by the
    closure of the same render. *)
Definition restored_twice : State :=
  handleRestore ex_state "run-0" (handleRestore ex_state "run-0" ex_state).

(** Without distinct ids the round trip fails.  On a page that lists two
    runs under one id, moving the second to the trash empties the active
    list and trashes the first: the second is in neither list any more, and
    restoring brings back the first only.  The page reaches such a state by
    itself: two clicks on Restore put the restored run twice in the active
    list; moving it to the trash then removes both copies and trashes one,
    and restoring returns one, so the active list is one item shorter than
    it was. *)
Lemma C10_counterexample :
  let second := ex_item "run-1" "Keynote" None in
  let s1 := softDelete (id second) "2025-01-06T09:30:00.000Z" twins in
  let s2 := restore (id second) s1 in
  let t1 := softDelete "run-0" "2025-01-06T09:30:00.000Z" restored_twice in
  let t2 := restore "run-0" t1 in
  (In second (activeItems twins) /\
   activeItems s1 = [] /\
   trashItems s1 = [ ex_item "run-1" "Interview"
                       (Some "2025-01-06T09:30:00.000Z"%string) ] /\
   activeItems s2 = [ ex_item "run-1" "Interview" None ] /\
   trashItems s2 = []) /\
  (ids ex_state = [ "run-1"; "run-2"; "run-0" ]%string /\
   ids restored_twice = [ "run-0"; "run-0"; "run-1"; "run-2" ]%string /\
   ids t1 = [ "run-1"; "run-2"; "run-0" ]%string /\
   ids t2 = [ "run-0"; "run-1"; "run-2" ]%string).
Proof.
  cbv zeta. split.
  - split; [right; left; reflexivity|]. repeat split; reflexivity.
  - repeat split; reflexivity.
Qed.

End HistoryProps.

Module SelectorProps.
Import Pipeline Pipeline.Selector.

Local Open Scope Q_scope.

(** *** Comparisons *)

Lemma Qlt_bool_iff x y : Qlt_bool x y = true <-> x < y.
Proof.
  unfold Qlt_bool. rewrite negb_true_iff.
  split.
  - intros H. apply Qnot_le_lt. intros Hle.
    apply Qle_bool_iff in Hle. congruence.
  - intros H. destruct (Qle_bool y x) eqn:E; [|reflexivity].
    apply Qle_bool_iff in E. lra.
Qed.


Lemma overlap_amount_sym a b : overlap_amount a b == overlap_amount b a.
Proof.
  unfold overlap_amount.
  rewrite (Q.min_comm (endTime a)), (Q.max_comm (startTime a)). reflexivity.
Qed.

Lemma overlaps_sym tol a b : overlaps tol a b = overlaps tol b a.
Proof.
  unfold overlaps, Qlt_bool. rewrite (overlap_amount_sym a b). reflexivity.
Qed.

(** With tolerance 0, two ranges overlap exactly when each starts before
    the other ends. *)
Lemma overlaps_0_iff a b :
  overlaps 0 a b = true <-> startTime a < endTime b /\ startTime b < endTime a
                            /\ startTime a < endTime a /\ startTime b < endTime b.
Proof.
  unfold overlaps, overlap_amount. rewrite Qlt_bool_iff.
  destruct (Q.min_spec (endTime a) (endTime b)) as [[H1 ->]|[H1 ->]];
  destruct (Q.max_spec (startTime a) (startTime b)) as [[H2 ->]|[H2 ->]];
  split; intros; lra.
Qed.

(** *** The order of step 1 *)

Definition score_desc (a b : CandidateMoment) : Prop :=
  viralScore b <= viralScore a.

(** [a] comes before [b]: a higher score, or the same score and a start
    that is no later. *)
Definition before (a b : CandidateMoment) : Prop :=
  viralScore b < viralScore a \/
  (viralScore a == viralScore b /\ startTime a <= startTime b).

Lemma precedes_iff a b : precedes a b = true <-> before a b.
Proof.
  unfold precedes, before.
  destruct (Qcompare_spec (viralScore b) (viralScore a)) as [E|L|G].
  - rewrite Qle_bool_iff. split; [intros; right; split; [symmetry|]; assumption|].
    intros [H|[_ H]]; [lra|exact H].
  - split; [intros; left; exact L|reflexivity].
  - split; [discriminate|]. intros [H|[H _]]; lra.
Qed.

Lemma before_total a b : before a b \/ before b a.
Proof.
  unfold before.
  destruct (Qlt_le_dec (viralScore b) (viralScore a)) as [H|H]; [tauto|].
  destruct (Qlt_le_dec (viralScore a) (viralScore b)) as [H'|H']; [tauto|].
  assert (E : viralScore a == viralScore b) by lra.
  destruct (Qlt_le_dec (startTime b) (startTime a)) as [S|S].
  - right. right. split; [symmetry; exact E|lra].
  - left. right. split; [exact E|exact S].
Qed.

Lemma before_trans a b c : before a b -> before b c -> before a c.
Proof.
  unfold before. intros [H1|[E1 S1]] [H2|[E2 S2]].
  - left; lra.
  - left; lra.
  - left; lra.
  - right. split; lra.
Qed.

Lemma before_score_desc a b : before a b -> score_desc a b.
Proof. unfold before, score_desc. intros [H|[H _]]; lra. Qed.

Lemma precedes_false a b : precedes a b = false -> before b a.
Proof.
  intros H. destruct (before_total a b) as [Hab|Hba]; [|exact Hba].
  apply precedes_iff in Hab. congruence.
Qed.

(** *** The sort *)

Lemma insert_perm c l : Permutation (c :: l) (insert c l).
Proof.
  induction l as [|x r IH]; simpl; [reflexivity|].
  destruct (precedes c x); [reflexivity|].
  rewrite perm_swap. apply perm_skip, IH.
Qed.

Lemma sort_candidates_perm l : Permutation l (sort_candidates l).
Proof.
  induction l as [|c l IH]; simpl; [reflexivity|].
  rewrite <- insert_perm. apply perm_skip, IH.
Qed.

Lemma insert_sorted c l :
  StronglySorted before l -> StronglySorted before (insert c l).
Proof.
  induction l as [|x r IH]; intros Hs; simpl.
  - constructor; constructor.
  - inversion Hs as [|? ? Hr Hx]; subst.
    destruct (precedes c x) eqn:E.
    + apply precedes_iff in E. constructor; [exact Hs|].
      constructor; [exact E|].
      eapply Forall_impl; [|exact Hx]. intros y Hy.
      eapply before_trans; eassumption.
    + apply precedes_false in E. constructor; [apply IH, Hr|].
      apply (Permutation_Forall (insert_perm c r)).
      constructor; assumption.
Qed.

Lemma sort_candidates_sorted l : StronglySorted before (sort_candidates l).
Proof.
  induction l as [|c l IH]; simpl; [constructor|].
  apply insert_sorted, IH.
Qed.

(** *** The greedy pass *)

(** [l1] is [l2] with some elements left out, the order kept. *)
Inductive subseq {A : Type} : list A -> list A -> Prop :=
| subseq_nil : subseq [] []
| subseq_skip x l1 l2 : subseq l1 l2 -> subseq l1 (x :: l2)
| subseq_take x l1 l2 : subseq l1 l2 -> subseq (x :: l1) (x :: l2).

Lemma subseq_nil_l {A} (l : list A) : subseq [] l.
Proof. induction l; constructor; assumption. Qed.

Lemma subseq_In {A} (l1 l2 : list A) x : subseq l1 l2 -> In x l1 -> In x l2.
Proof.
  induction 1 as [|y l1 l2 _ IH|y l1 l2 _ IH]; simpl; intros Hin.
  - exact Hin.
  - right; apply IH, Hin.
  - destruct Hin as [->|Hin]; [left; reflexivity|right; apply IH, Hin].
Qed.

Lemma subseq_length {A} (l1 l2 : list A) :
  subseq l1 l2 -> (List.length l1 <= List.length l2)%nat.
Proof. induction 1; simpl; lia. Qed.

Lemma subseq_Forall {A} (P : A -> Prop) (l1 l2 : list A) :
  subseq l1 l2 -> Forall P l2 -> Forall P l1.
Proof.
  intros Hs Hf. apply Forall_forall. intros x Hx.
  apply (proj1 (Forall_forall P l2) Hf), (subseq_In _ _ _ Hs Hx).
Qed.

Lemma subseq_sorted {A} (R : A -> A -> Prop) (l1 l2 : list A) :
  subseq l1 l2 -> StronglySorted R l2 -> StronglySorted R l1.
Proof.
  induction 1 as [|y l1 l2 Hs IH|y l1 l2 Hs IH]; intros Hsort.
  - constructor.
  - inversion Hsort; subst. apply IH; assumption.
  - inversion Hsort as [|? ? Hr Hy]; subst. constructor; [apply IH, Hr|].
    eapply subseq_Forall; eassumption.
Qed.



(** One step of a greedy pass, told from §4.4: while fewer than [n]
    moments are accepted, a candidate that overlaps none of them is
    accepted, fitted to the requested duration, after them; any other
    candidate is passed over. *)
Definition consider (tol : Q) (dur : RequestedDuration) (D : Q) (n : nat)
           (accepted : list SelectedMoment) (c : CandidateMoment)
  : list SelectedMoment :=
  if ((List.length accepted <? n)%nat
      && negb (existsb (overlaps tol c) accepted))%bool
  then accepted ++ [fit dur D c]
  else accepted.

Section Accept.

Variable tol : Q.
Variable dur : RequestedDuration.
Variable D : Q.

Lemma consider_full n cands : forall acc,
  (n <= List.length acc)%nat ->
  fold_left (consider tol dur D n) cands acc = acc.
Proof.
  induction cands as [|c rest IH]; intros acc Hacc; simpl; [reflexivity|].
  unfold consider at 2.
  replace (List.length acc <? n)%nat with false
    by (symmetry; apply Nat.ltb_ge; exact Hacc).
  cbn [andb]. apply IH, Hacc.
Qed.

Lemma accept_fold n cands : forall acc,
  accept tol dur D n acc cands = fold_left (consider tol dur D n) cands acc.
Proof.
  induction cands as [|c rest IH]; intros acc; simpl; [reflexivity|].
  unfold consider at 2.
  destruct (List.length acc <? n)%nat eqn:E; cbn [andb].
  - destruct (existsb (overlaps tol c) acc); cbn [negb]; apply IH.
  - symmetry. apply consider_full. apply Nat.ltb_ge, E.
Qed.

Lemma accept_shape n cands : forall acc,
  exists picked, subseq picked cands /\
                 accept tol dur D n acc cands = acc ++ map (fit dur D) picked.
Proof.
  induction cands as [|c rest IH]; intros acc; simpl.
  - exists []. split; [constructor|]. rewrite app_nil_r. reflexivity.
  - destruct (List.length acc <? n)%nat.
    + destruct (existsb (overlaps tol c) acc).
      * destruct (IH acc) as (p & Hp & E). exists p.
        split; [constructor; exact Hp|exact E].
      * destruct (IH (acc ++ [fit dur D c])) as (p & Hp & E). exists (c :: p).
        split; [constructor; exact Hp|].
        rewrite E, <- app_assoc. reflexivity.
    + exists []. split; [apply subseq_nil_l|]. rewrite app_nil_r. reflexivity.
Qed.

Lemma accept_length n cands : forall acc,
  (List.length acc <= n)%nat ->
  (List.length (accept tol dur D n acc cands) <= n)%nat.
Proof.
  induction cands as [|c rest IH]; intros acc Hacc; simpl; [exact Hacc|].
  destruct (List.length acc <? n)%nat eqn:E; [|exact Hacc].
  apply Nat.ltb_lt in E.
  destruct (existsb (overlaps tol c) acc); apply IH; [exact Hacc|].
  rewrite length_app. simpl. lia.
Qed.

Lemma accept_firstn n m cands : forall acc,
  (List.length acc <= n)%nat -> (n <= m)%nat ->
  accept tol dur D n acc cands = firstn n (accept tol dur D m acc cands).
Proof.
  induction cands as [|c rest IH]; intros acc Hacc Hnm; simpl.
  - rewrite firstn_all2 by exact Hacc. reflexivity.
  - destruct (List.length acc <? n)%nat eqn:E.
    + apply Nat.ltb_lt in E.
      replace (List.length acc <? m)%nat with true
        by (symmetry; apply Nat.ltb_lt; lia).
      destruct (existsb (overlaps tol c) acc); apply IH; try assumption.
      rewrite length_app. simpl. lia.
    + apply Nat.ltb_ge in E. assert (En : List.length acc = n) by lia.
      destruct (accept_shape m (c :: rest) acc) as (p & _ & Ep).
      simpl in Ep. rewrite Ep, <- En, firstn_app, Nat.sub_diag, firstn_all.
      simpl. rewrite app_nil_r. reflexivity.
Qed.


End Accept.








(** *** The largest number of mutually non-overlapping candidates *)









Lemma map_fit_auto D l : map (fit Auto D) l = l.
Proof. induction l as [|c l IH]; simpl; [|rewrite IH]; reflexivity. Qed.

(** *** The selector *)

Lemma select_shape tol cands n dur D :
  exists picked, subseq picked (sort_candidates cands) /\
                 select tol cands n dur D = map (fit dur D) picked.
Proof.
  destruct (accept_shape tol dur D n (sort_candidates cands) [])
    as (p & Hp & E).
  exists p. split; [exact Hp|exact E].
Qed.

Lemma select_length_candidates tol cands n dur D :
  (List.length (select tol cands n dur D) <= List.length cands)%nat.
Proof.
  destruct (select_shape tol cands n dur D) as (p & Hp & ->).
  rewrite length_map, (Permutation_length (sort_candidates_perm cands)).
  apply subseq_length, Hp.
Qed.


Lemma select_firstn tol cands n dur D :
  select tol cands n dur D
  = firstn n (select tol cands (List.length cands) dur D).
Proof.
  unfold select. destruct (Nat.le_gt_cases n (List.length cands)) as [Hle|Hgt].
  - apply accept_firstn; simpl; lia.
  - pose proof (select_length_candidates tol cands n dur D) as Hn.
    unfold select in Hn.
    rewrite (accept_firstn tol dur D (List.length cands) n _ [])
      by (simpl; lia).
    rewrite firstn_firstn, Nat.min_r by lia.
    symmetry. apply firstn_all2. exact Hn.
Qed.




Definition engine_reason : string := "hook".






(** *** Order of the result, and scenario A *)

Lemma map_fit_score_desc dur D l :
  StronglySorted score_desc l -> StronglySorted score_desc (map (fit dur D) l).
Proof.
  assert (Hs : forall c, viralScore (fit dur D c) = viralScore c)
    by (intros c; destruct dur; reflexivity).
  induction 1 as [|a l Hl IH Ha]; simpl; constructor; [exact IH|].
  apply Forall_map. eapply Forall_impl; [|exact Ha].
  intros b Hb. unfold score_desc in *. rewrite !Hs. exact Hb.
Qed.

Lemma sorted_before_score_desc l :
  StronglySorted before l -> StronglySorted score_desc l.
Proof.
  induction 1 as [|a l Hl IH Ha]; constructor; [exact IH|].
  eapply Forall_impl; [|exact Ha]. intros b. apply before_score_desc.
Qed.

(** Two sorted arrangements of the same candidates are the same list when
    no two distinct candidates tie. *)
Lemma sorted_perm_unique (l1 : list CandidateMoment) : forall l2,
  StronglySorted before l1 -> StronglySorted before l2 ->
  Permutation l1 l2 ->
  (forall a b, In a l1 -> In b l1 -> before a b -> before b a -> a = b) ->
  l1 = l2.
Proof.
  induction l1 as [|a l1 IH]; intros l2 S1 S2 HP Hanti.
  - apply Permutation_nil in HP. symmetry. exact HP.
  - destruct l2 as [|b l2];
      [apply Permutation_sym, Permutation_nil in HP; discriminate|].
    inversion S1 as [|? ? S1' Ha]; subst.
    inversion S2 as [|? ? S2' Hb]; subst.
    assert (Eab : a = b).
    { assert (Hina : In a (b :: l2))
        by (apply (Permutation_in _ HP); left; reflexivity).
      assert (Hinb : In b (a :: l1))
        by (apply (Permutation_in _ (Permutation_sym HP)); left; reflexivity).
      destruct Hina as [->|Hina]; [reflexivity|].
      destruct Hinb as [->|Hinb]; [reflexivity|].
      apply Hanti; [left; reflexivity|right; exact Hinb| |].
      - apply (proj1 (Forall_forall _ _) Ha b Hinb).
      - apply (proj1 (Forall_forall _ _) Hb a Hina). }
    subst b. f_equal. apply IH; try assumption.
    + apply (Permutation_cons_inv HP).
    + intros x y Hx Hy. apply Hanti; right; assumption.
Qed.

(** Scenario A of §8: five candidates scored 0.9, 0.8, 0.7, 0.6 and 0.5;
    the first, third and fifth do not overlap one another, the second
    overlaps the first, and the fourth overlaps the first or the third (as
    they do whenever only the first, third and fifth are mutually
    non-overlapping). *)
Definition scenario_A (c1 c2 c3 c4 c5 : CandidateMoment) : Prop :=
  (viralScore c1 == 9 # 10 /\ viralScore c2 == 8 # 10 /\
   viralScore c3 == 7 # 10 /\ viralScore c4 == 6 # 10 /\
   viralScore c5 == 5 # 10) /\
  (overlaps DEFAULT_TOLERANCE c1 c3 = false /\
   overlaps DEFAULT_TOLERANCE c1 c5 = false /\
   overlaps DEFAULT_TOLERANCE c3 c5 = false) /\
  overlaps DEFAULT_TOLERANCE c2 c1 = true /\
  (overlaps DEFAULT_TOLERANCE c4 c1 = true \/
   overlaps DEFAULT_TOLERANCE c4 c3 = true).

Lemma scenario_A_sorted c1 c2 c3 c4 c5 input :
  scenario_A c1 c2 c3 c4 c5 ->
  Permutation input [c1; c2; c3; c4; c5] ->
  sort_candidates input = [c1; c2; c3; c4; c5].
Proof.
  intros ((E1 & E2 & E3 & E4 & E5) & _) HP.
  assert (HP' : Permutation [c1; c2; c3; c4; c5] (sort_candidates input))
    by (rewrite <- HP; apply sort_candidates_perm).
  symmetry. apply sorted_perm_unique.
  - repeat (apply SSorted_cons;
            [|repeat (apply Forall_cons; [left; lra|]); apply Forall_nil]).
    apply SSorted_nil.
  - apply sort_candidates_sorted.
  - exact HP'.
  - intros a b Ha Hb Hab Hba.
    assert (E : viralScore a == viralScore b).
    { apply before_score_desc in Hab, Hba. unfold score_desc in *. lra. }
    simpl in Ha, Hb.
    repeat (destruct Ha as [<-|Ha]; [|]); try (destruct Ha);
      repeat (destruct Hb as [<-|Hb]; [|]); try (destruct Hb);
      try reflexivity; exfalso; lra.
Qed.

Lemma scenario_A_accept c1 c2 c3 c4 c5 D :
  scenario_A c1 c2 c3 c4 c5 ->
  accept DEFAULT_TOLERANCE Auto D 3 [] [c1; c2; c3; c4; c5] = [c1; c3; c5].
Proof.
  intros (_ & (N13 & N15 & N35) & O21 & O4).
  cbn [accept List.length Nat.ltb Nat.leb existsb fit app].
  rewrite O21. cbn [orb accept List.length Nat.ltb Nat.leb existsb fit app].
  rewrite (overlaps_sym _ c3 c1), N13.
  cbn [orb accept List.length Nat.ltb Nat.leb existsb fit app].
  replace (overlaps DEFAULT_TOLERANCE c4 c1 || (overlaps DEFAULT_TOLERANCE c4 c3 || false))
    with true
    by (destruct O4 as [-> | ->]; [reflexivity|symmetry; apply orb_true_iff; right; reflexivity]).
  cbn [orb accept List.length Nat.ltb Nat.leb existsb fit app].
  rewrite (overlaps_sym _ c5 c1), N15, (overlaps_sym _ c5 c3), N35.
  reflexivity.
Qed.

(** C2.  The selector is a function of its inputs.  It visits the
    candidates in the order of a sort by descending score, equal scores by
    earlier start; its result is built greedily over that list, from the
    first candidate to the last: while fewer moments than requested are
    accepted, a candidate is accepted exactly when it overlaps none of the
    moments accepted before it, and is put after them; so the result is the
    first [n] moments of the pass that nothing limits, and its moments are
    candidates of the sorted list in that order, each fitted to the
    requested duration, with scores that never increase; and in scenario
    A, however the five candidates are listed, a request for three with
    duration [auto] returns exactly the first, third and fifth, in that
    order. *)
Theorem C2_selector_order :
  (forall (tol : Q) (cands : list CandidateMoment) (n : nat)
          (dur : RequestedDuration) (D : Q),
      let sorted := sort_candidates cands in
      let out := select tol cands n dur D in
      Permutation cands sorted /\
      StronglySorted before sorted /\
      out = fold_left (consider tol dur D n) sorted [] /\
      out = firstn n (select tol cands (List.length cands) dur D) /\
      (exists picked, subseq picked sorted /\ out = map (fit dur D) picked) /\
      StronglySorted score_desc out /\
      (dur = Auto -> StronglySorted before out)) /\
  (forall (c1 c2 c3 c4 c5 : CandidateMoment)
          (input : list CandidateMoment) (D : Q),
      scenario_A c1 c2 c3 c4 c5 ->
      Permutation input [c1; c2; c3; c4; c5] ->
      select DEFAULT_TOLERANCE input 3 Auto D = [c1; c3; c5]).
Proof.
  split.
  - intros tol cands n dur D sorted out.
    pose proof (sort_candidates_sorted cands) as Hs.
    destruct (select_shape tol cands n dur D) as (p & Hp & E).
    split; [apply sort_candidates_perm|].
    split; [exact Hs|].
    split; [apply accept_fold|].
    split; [apply select_firstn|].
    split; [exists p; split; assumption|].
    pose proof (subseq_sorted _ _ _ Hp Hs) as Hps.
    split.
    + subst out. rewrite E.
      apply map_fit_score_desc, sorted_before_score_desc, Hps.
    + intros ->. subst out. rewrite E, map_fit_auto. exact Hps.
  - intros c1 c2 c3 c4 c5 input D HA HP. unfold select.
    rewrite (scenario_A_sorted _ _ _ _ _ _ HA HP).
    apply scenario_A_accept, HA.
Qed.

Definition A1 : CandidateMoment := mkCandidate 0 30 (9 # 10) engine_reason.
Definition A2 : CandidateMoment := mkCandidate 20 50 (8 # 10) engine_reason.
Definition A3 : CandidateMoment := mkCandidate 60 90 (7 # 10) engine_reason.
Definition A4 : CandidateMoment := mkCandidate 80 110 (6 # 10) engine_reason.
Definition A5 : CandidateMoment := mkCandidate 120 150 (5 # 10) engine_reason.

Lemma C2_selector_order_witness :
  scenario_A A1 A2 A3 A4 A5 /\
  Permutation [A4; A1; A5; A2; A3] [A1; A2; A3; A4; A5] /\
  select DEFAULT_TOLERANCE [A4; A1; A5; A2; A3] 3 Auto 600 = [A1; A3; A5].
Proof.
  assert (HA : scenario_A A1 A2 A3 A4 A5).
  { unfold scenario_A. repeat split; try reflexivity.
    right. reflexivity. }
  assert (HP : Permutation [A4; A1; A5; A2; A3] [A1; A2; A3; A4; A5]).
  { apply (perm_trans (l' := [A1; A4; A5; A2; A3])); [apply perm_swap|].
    apply perm_skip.
    apply (perm_trans (l' := [A4; A2; A5; A3]));
      [apply perm_skip, perm_swap|].
    apply (perm_trans (l' := [A2; A4; A5; A3])); [apply perm_swap|].
    apply perm_skip.
    apply (perm_trans (l' := [A4; A3; A5])); [apply perm_skip, perm_swap|].
    apply (perm_trans (l' := [A3; A4; A5])); [apply perm_swap|].
    reflexivity. }
  split; [exact HA|]. split; [exact HP|].
  exact (proj2 C2_selector_order A1 A2 A3 A4 A5 [A4; A1; A5; A2; A3] 600 HA HP).
Defined.

End SelectorProps.

Module DetectorProps.
Import Pipeline Pipeline.Detector SelectorProps.

Local Open Scope Q_scope.









Lemma heuristic_reason_marked : indicates_heuristic heuristic_reason = true.
Proof. reflexivity. Qed.







End DetectorProps.

Module OrchestratorProps.
Import Pipeline Pipeline.Selector Pipeline.Detector Pipeline.Renderer.
Import Pipeline.Publisher Pipeline.Orchestrator.

Local Open Scope Z_scope.

(** How far a stage is along the pipeline. *)
Definition rank (s : Stage) : nat :=
  match s with
  | Queued => 0
  | Acquiring => 1
  | Transcribing => 2
  | Detecting => 3
  | Selecting => 4
  | Rendering => 5
  | Publishing => 6
  | Completed | Failed _ => 7
  end.

Lemma rank_terminal s : is_terminal s = true <-> rank s = 7%nat.
Proof. destruct s; simpl; split; intros; try reflexivity; discriminate. Qed.

Ltac work_cases :=
  repeat match goal with
         | |- context [match ?x with _ => _ end] => destruct x eqn:?
         end.

Section Run.

Variable cfg : Config.
Variable w : World.
Variable req : Request.

Lemma work_rank r :
  is_terminal (stage r) = false ->
  (rank (stage r) < rank (stage (work cfg w req r)))%nat.
Proof.
  destruct r as [st e sc t cs sel rd cl]. unfold work. cbn [stage].
  destruct st; cbn [is_terminal]; intros H; try discriminate;
    work_cases; cbn; lia.
Qed.

Lemma step_rank r :
  (Nat.min 7 (S (rank (stage r))) <= rank (stage (step cfg w req r)))%nat.
Proof.
  unfold step. destruct (is_terminal (stage r)) eqn:T.
  - apply rank_terminal in T. lia.
  - destruct (cancelled_before w (stage r));
      [unfold fail; cbn [stage rank]; lia|].
    destruct (ceiling_ms cfg <? _); [unfold fail; cbn [stage rank]; lia|].
    pose proof (work_rank (at_time (elapsed r + stage_ms w (stage r)) r) T).
    cbn [at_time stage] in *. lia.
Qed.

Lemma steps_rank n r :
  (Nat.min 7 (n + rank (stage r)) <= rank (stage (steps n cfg w req r)))%nat.
Proof.
  induction n as [|n IH]; cbn [steps]; [lia|].
  pose proof (step_rank (steps n cfg w req r)). lia.
Qed.

Lemma run_terminal : is_terminal (stage (run cfg w req)) = true.
Proof.
  apply rank_terminal. unfold run.
  pose proof (steps_rank 7 queued) as H.
  cbn [queued stage rank] in H.
  generalize dependent (stage (steps 7 cfg w req queued)).
  intros s H. destruct s; simpl in *; lia.
Qed.

(** The moments were chosen by the selector from the candidates, and there
    is at least one. *)
Definition chosen (media : MediaAsset) (r : Run) : Prop :=
  selected r = select (tolerance cfg) (candidates r) (req_clips req)
                      (req_duration req) (media_duration media) /\
  selected r <> [].

Definition renders (media : MediaAsset) (r : Run) : list RenderedClip :=
  render_all w req (media_frame media) (transcript r) (selected r).

(** What holds of every state a run goes through. *)
Definition invariant (r : Run) : Prop :=
  (is_terminal (stage r) = true -> scratch r = None) /\
  (stage r <> Completed -> clips r = []) /\
  match stage r with
  | Queued | Acquiring => True
  | Transcribing | Detecting | Selecting =>
      exists media, acquire w = Some media /\ scratch r = Some media
  | Rendering =>
      exists media, acquire w = Some media /\ scratch r = Some media /\
                    chosen media r
  | Publishing =>
      exists media, acquire w = Some media /\ scratch r = Some media /\
                    chosen media r /\
                    rendered r = renders media r /\ rendered r <> []
  | Completed =>
      exists media, acquire w = Some media /\ chosen media r /\
                    rendered r = renders media r /\
                    clips r = publish_all cfg w (rendered r) /\ clips r <> []
  | Failed RenderError =>
      exists media, acquire w = Some media /\ chosen media r /\
                    renders media r = []
  | Failed PublishError =>
      exists media, acquire w = Some media /\ chosen media r /\
                    rendered r = renders media r /\
                    publish_all cfg w (rendered r) = []
  | Failed _ => True
  end.

Ltac run_fields :=
  unfold fail;
  cbn [stage elapsed scratch clips selected candidates transcript rendered
       is_terminal].

(* The first two parts of the invariant after a stage has done its work;
   the third is left. *)
Ltac common_parts :=
  run_fields;
  split; [|split];
  [ first [discriminate | intros _; reflexivity]
  | first [intros _; reflexivity | intros H; exfalso; apply H; reflexivity]
  | ].

Lemma invariant_queued : invariant queued.
Proof. unfold invariant, queued. common_parts. exact I. Qed.

Lemma invariant_fail category r :
  category <> RenderError -> category <> PublishError ->
  invariant (fail category r).
Proof.
  intros H1 H2. unfold invariant. run_fields.
  split; [reflexivity|]. split; [reflexivity|].
  destruct category; try exact I; congruence.
Qed.

Lemma invariant_work r :
  is_terminal (stage r) = false ->
  invariant r -> invariant (work cfg w req r).
Proof.
  destruct r as [st e sc t cs sel rd cl]. unfold invariant, work, chosen, renders.
  run_fields.
  intros T (Hs & Hc & Hst).
  assert (Hcl : cl = []) by (apply Hc; destruct st; discriminate).
  subst cl.
  destruct st; try discriminate; clear T.
  - (* Queued *)
    common_parts. exact I.
  - (* Acquiring *)
    destruct (acquire w) as [media|] eqn:Ea; common_parts; [|exact I].
    exists media. split; reflexivity.
  - (* Transcribing *)
    destruct Hst as (media & Ea & ->).
    destruct (transcribe_with_retry w) as [t0|]; common_parts; [|exact I].
    exists media; split; [exact Ea|reflexivity].
  - (* Detecting *)
    destruct Hst as (media & Ea & ->).
    destruct (detect _ _ _ _ _) as [found|]; common_parts; [|exact I].
    exists media; split; [exact Ea|reflexivity].
  - (* Selecting *)
    destruct Hst as (media & Ea & ->).
    destruct (select _ _ _ _ _) as [|m ms] eqn:Es; common_parts; [exact I|].
    exists media. rewrite Es.
    split; [exact Ea|]. split; [reflexivity|]. split; [reflexivity|discriminate].
  - (* Rendering *)
    destruct Hst as (media & Ea & -> & Hsel & Hne).
    destruct (render_all _ _ _ _ _) as [|c done] eqn:Er; common_parts.
    + exists media. split; [exact Ea|]. split; [split; assumption|exact Er].
    + exists media. rewrite Er.
      split; [exact Ea|]. split; [reflexivity|]. split; [split; assumption|].
      split; [reflexivity|discriminate].
  - (* Publishing *)
    destruct Hst as (media & Ea & -> & Hsel & Hrd & Hne).
    destruct (publish_all _ _ _) as [|c published] eqn:Ep; common_parts.
    + exists media. split; [exact Ea|]. split; [exact Hsel|].
      split; [exact Hrd|exact Ep].
    + exists media. rewrite Ep.
      split; [exact Ea|]. split; [exact Hsel|]. split; [exact Hrd|].
      split; [reflexivity|discriminate].
Qed.

Lemma invariant_at_time t r : invariant r -> invariant (at_time t r).
Proof. unfold invariant, at_time, chosen, renders. run_fields. tauto. Qed.

Lemma invariant_step r : invariant r -> invariant (step cfg w req r).
Proof.
  intros H. unfold step. destruct (is_terminal (stage r)) eqn:T; [exact H|].
  destruct (cancelled_before w (stage r));
    [apply invariant_fail; discriminate|].
  destruct (ceiling_ms cfg <? elapsed r + stage_ms w (stage r));
    [apply invariant_fail; discriminate|].
  apply invariant_work; [exact T|apply invariant_at_time, H].
Qed.

Lemma invariant_steps n r : invariant r -> invariant (steps n cfg w req r).
Proof.
  intros H. induction n as [|n IH]; simpl; [exact H|].
  apply invariant_step, IH.
Qed.

Lemma invariant_run : invariant (run cfg w req).
Proof. apply invariant_steps, invariant_queued. Qed.

(** *** The ceiling *)

(** The clock of a run never passes the ceiling, and a run that has ended
    [Timeout] stopped when the ceiling was reached. *)
Definition timed (r : Run) : Prop :=
  elapsed r <= ceiling_ms cfg /\
  (stage r = Failed Timeout -> elapsed r = ceiling_ms cfg).

Lemma elapsed_work r : elapsed (work cfg w req r) = elapsed r.
Proof.
  destruct r as [st e sc t cs sel rd cl]. unfold work. run_fields.
  destruct st; work_cases; reflexivity.
Qed.

Lemma work_not_timeout r :
  stage r <> Failed Timeout -> stage (work cfg w req r) <> Failed Timeout.
Proof.
  destruct r as [st e sc t cs sel rd cl]. unfold work. run_fields.
  intros H. destruct st; work_cases; run_fields; try discriminate; exact H.
Qed.

Lemma timed_step r : timed r -> timed (step cfg w req r).
Proof.
  unfold timed. intros (Hb & Ht). unfold step.
  destruct (is_terminal (stage r)) eqn:T; [split; assumption|].
  assert (Hn : stage r <> Failed Timeout)
    by (intros E; rewrite E in T; discriminate).
  destruct (cancelled_before w (stage r)).
  - run_fields. split; [exact Hb|discriminate].
  - destruct (ceiling_ms cfg <? elapsed r + stage_ms w (stage r)) eqn:Et.
    + run_fields. cbn [at_time elapsed]. split; [lia|reflexivity].
    + apply Z.ltb_ge in Et. rewrite elapsed_work. cbn [at_time elapsed].
      split; [exact Et|]. intros E. exfalso.
      revert E. apply work_not_timeout. exact Hn.
Qed.

Lemma timed_steps n : 0 <= ceiling_ms cfg -> timed (steps n cfg w req queued).
Proof.
  intros H0.
  assert (Hq : timed queued)
    by (unfold timed, queued; cbn; split; [lia|discriminate]).
  induction n as [|n IH]; simpl; [exact Hq|].
  apply timed_step, IH.
Qed.

Lemma timed_run : 0 <= ceiling_ms cfg -> timed (run cfg w req).
Proof. apply timed_steps. Qed.

Lemma elapsed_step r :
  (forall s, 0 <= stage_ms w s) -> timed r ->
  elapsed r <= elapsed (step cfg w req r).
Proof.
  intros Hpos (Hb & _). unfold step. destruct (is_terminal (stage r)); [lia|].
  destruct (cancelled_before w (stage r)); [run_fields; lia|].
  pose proof (Hpos (stage r)).
  destruct (ceiling_ms cfg <? _).
  - run_fields. cbn [at_time elapsed]. lia.
  - rewrite elapsed_work. cbn [at_time elapsed]. lia.
Qed.

(** *** A run that is neither cancelled nor late *)

Definition never_cancelled : Prop := forall s, cancelled_before w s = false.

Definition on_schedule : Prop :=
  (forall s, 0 <= stage_ms w s) /\
  stage_ms w Queued + stage_ms w Acquiring + stage_ms w Transcribing
  + stage_ms w Detecting + stage_ms w Selecting + stage_ms w Rendering
  + stage_ms w Publishing <= ceiling_ms cfg.

(** The fan-out and fan-in over the moments selected from [found]: the
    final status and the clips of the run. *)
Definition fan_in (media : MediaAsset) (t : Transcript)
           (found : list CandidateMoment) : Stage * list PublishedClip :=
  match select (tolerance cfg) found (req_clips req) (req_duration req)
               (media_duration media) with
  | [] => (Failed DetectionError, [])
  | chosen =>
      match render_all w req (media_frame media) t chosen with
      | [] => (Failed RenderError, [])
      | done =>
          match publish_all cfg w done with
          | [] => (Failed PublishError, [])
          | published => (Completed, published)
          end
      end
  end.

Lemma step_terminal r : is_terminal (stage r) = true -> step cfg w req r = r.
Proof. intros H. unfold step. rewrite H. reflexivity. Qed.

Lemma step_in_time r :
  is_terminal (stage r) = false ->
  cancelled_before w (stage r) = false ->
  elapsed r + stage_ms w (stage r) <= ceiling_ms cfg ->
  step cfg w req r
  = work cfg w req (at_time (elapsed r + stage_ms w (stage r)) r).
Proof.
  intros H1 H2 H3. unfold step. rewrite H1, H2.
  apply Z.ltb_ge in H3. rewrite H3. reflexivity.
Qed.

Ltac innermost_step tac :=
  match goal with
  | |- context [step cfg w req ?r] =>
      lazymatch r with
      | context [step] => fail
      | _ => tac r
      end
  end.

Ltac run_state :=
  cbn [work at_time fail stage elapsed scratch clips selected candidates
       transcript rendered is_terminal].

Lemma run_nominal media t found :
  on_schedule -> never_cancelled ->
  acquire w = Some media ->
  transcribe_with_retry w = Some t ->
  detect t (media_duration media) (req_clips req) (window_of cfg req) (engine w)
  = Candidates found ->
  (stage (run cfg w req), clips (run cfg w req)) = fan_in media t found /\
  scratch (run cfg w req) = None.
Proof.
  intros (Hpos & Hsum) Hnc Ea Et Ed.
  pose proof (Hpos Queued). pose proof (Hpos Acquiring).
  pose proof (Hpos Transcribing). pose proof (Hpos Detecting).
  pose proof (Hpos Selecting). pose proof (Hpos Rendering).
  pose proof (Hpos Publishing).
  unfold run, fan_in. cbn [steps]. unfold queued.
  assert (Hgo : forall r,
             is_terminal (stage r) = false ->
             elapsed r + stage_ms w (stage r) <= ceiling_ms cfg ->
             step cfg w req r
             = work cfg w req (at_time (elapsed r + stage_ms w (stage r)) r))
    by (intros r Hr1 Hr2; apply step_in_time; [exact Hr1|apply Hnc|exact Hr2]).
  (* Queued, Acquiring, Transcribing, Detecting *)
  do 4 (innermost_step ltac:(fun r =>
          rewrite (Hgo r) by (run_state; first [reflexivity|lia]));
        run_state; rewrite ?Ea, ?Et, ?Ed; run_state).
  (* Selecting *)
  innermost_step ltac:(fun r =>
    rewrite (Hgo r) by (run_state; first [reflexivity|lia])).
  run_state.
  destruct (select _ _ _ _ _) as [|m ms] eqn:Es.
  { unfold fail. run_state. rewrite !step_terminal by reflexivity.
    split; reflexivity. }
  (* Rendering *)
  innermost_step ltac:(fun r =>
    rewrite (Hgo r) by (run_state; first [reflexivity|lia])).
  run_state.
  destruct (render_all _ _ _ _ _) as [|c done] eqn:Er.
  { unfold fail. run_state. rewrite !step_terminal by reflexivity.
    split; reflexivity. }
  (* Publishing *)
  innermost_step ltac:(fun r =>
    rewrite (Hgo r) by (run_state; first [reflexivity|lia])).
  run_state.
  destruct (publish_all _ _ _) as [|p published] eqn:Ep; split; reflexivity.
Qed.

End Run.

(** The same configuration under another ceiling. *)
Definition with_ceiling (cfg : Config) (c : Z) : Config :=
  {| tolerance := tolerance cfg; auto_window := auto_window cfg;
     ceiling_ms := c; publish_attempts := publish_attempts cfg |}.

Lemma publish_all_with_ceiling cfg c w done :
  publish_all (with_ceiling cfg c) w done = publish_all cfg w done.
Proof.
  induction done as [|x done IH]; cbn [publish_all]; [reflexivity|].
  rewrite IH. reflexivity.
Qed.

Lemma work_with_ceiling cfg c w req r :
  work (with_ceiling cfg c) w req r = work cfg w req r.
Proof.
  unfold work. destruct (stage r); try reflexivity.
  rewrite publish_all_with_ceiling. reflexivity.
Qed.

(** Against the same run under a later ceiling, a run is the same run, or
    it was aborted [Timeout] at its ceiling, which the other has passed. *)
Lemma steps_capped cfg w req later n :
  0 <= ceiling_ms cfg -> ceiling_ms cfg < later ->
  let r := steps n cfg w req queued in
  let r' := steps n (with_ceiling cfg later) w req queued in
  r = r' \/
  (stage r = Failed Timeout /\ scratch r = None /\
   elapsed r = ceiling_ms cfg /\
   ((forall s, 0 <= stage_ms w s) -> ceiling_ms cfg < elapsed r')).
Proof.
  intros H0 Hlt. induction n as [|n IH]; cbn [steps]; [left; reflexivity|].
  cbv zeta in IH.
  assert (Ht' : timed (with_ceiling cfg later)
                      (steps n (with_ceiling cfg later) w req queued))
    by (apply timed_steps; cbn [ceiling_ms with_ceiling]; lia).
  set (x := steps n cfg w req queued) in *.
  set (x' := steps n (with_ceiling cfg later) w req queued) in *.
  destruct IH as [E|(Ht & Hs & Hc & He)].
  - rewrite <- E. unfold step.
    destruct (is_terminal (stage x)) eqn:T; [left; reflexivity|].
    destruct (cancelled_before w (stage x)); [left; reflexivity|].
    cbn [ceiling_ms with_ceiling].
    destruct (ceiling_ms cfg <? elapsed x + stage_ms w (stage x)) eqn:Et.
    + right. apply Z.ltb_lt in Et.
      split; [reflexivity|]. split; [reflexivity|].
      split; [reflexivity|].
      intros Hpos.
      destruct (later <? elapsed x + stage_ms w (stage x)).
      * cbn [fail at_time elapsed]. exact Hlt.
      * rewrite elapsed_work. cbn [at_time elapsed]. exact Et.
    + left. apply Z.ltb_ge in Et.
      replace (later <? elapsed x + stage_ms w (stage x)) with false
        by (symmetry; apply Z.ltb_ge; lia).
      symmetry. apply work_with_ceiling.
  - right. rewrite (step_terminal cfg w req x) by (rewrite Ht; reflexivity).
    split; [exact Ht|]. split; [exact Hs|]. split; [exact Hc|].
    intros Hpos. specialize (He Hpos).
    pose proof (elapsed_step (with_ceiling cfg later) w req x' Hpos Ht'). lia.
Qed.

Lemma run_capped cfg w req later :
  0 <= ceiling_ms cfg -> ceiling_ms cfg < later ->
  run cfg w req = run (with_ceiling cfg later) w req \/
  (stage (run cfg w req) = Failed Timeout /\
   scratch (run cfg w req) = None /\
   elapsed (run cfg w req) = ceiling_ms cfg /\
   ((forall s, 0 <= stage_ms w s) ->
    ceiling_ms cfg < elapsed (run (with_ceiling cfg later) w req))).
Proof. intros H0 H. unfold run. apply (steps_capped cfg w req later 7 H0 H). Qed.

(** *** Clips and the moments they come from *)

Lemma render_all_length w req f t ms :
  (List.length (render_all w req f t ms) <= List.length ms)%nat.
Proof.
  induction ms as [|m ms IH]; cbn [render_all]; [cbn [List.length]; lia|].
  destruct (render _ _ _ _ _ _); cbn [List.length]; lia.
Qed.

Lemma publish_all_length cfg w done :
  (List.length (publish_all cfg w done) <= List.length done)%nat.
Proof.
  induction done as [|c done IH]; cbn [publish_all]; [cbn [List.length]; lia|].
  destruct (publish_with_retries _ _ _ _) as [[u t]|]; cbn [List.length]; lia.
Qed.

Lemma render_all_moment w req f t ms c :
  In c (render_all w req f t ms) -> In (rendered_moment c) ms.
Proof.
  induction ms as [|m ms IH]; cbn [render_all]; [intros []|].
  unfold render at 1. destruct (encode w m) as [path|].
  - intros [<-|H]; [left; reflexivity|right; apply IH, H].
  - intros H. right. apply IH, H.
Qed.

Lemma publish_all_moment cfg w done p :
  In p (publish_all cfg w done) ->
  exists c, In c done /\ moment p = rendered_moment c /\
            clip_framing p = framing c.
Proof.
  induction done as [|c done IH]; cbn [publish_all]; [intros []|].
  destruct (publish_with_retries _ _ _ _) as [[u t]|].
  - intros [<-|H].
    + exists c. split; [left; reflexivity|split; reflexivity].
    + destruct (IH H) as (c' & Hc & E). exists c'. split; [right; exact Hc|exact E].
  - intros H. destruct (IH H) as (c' & Hc & E).
    exists c'. split; [right; exact Hc|exact E].
Qed.



(** *** Survivors *)

Definition put_succeeds (w : World) (path : string) (attempt : nat) : bool :=
  match put w path attempt with Some _ => true | None => false end.

(** The upload of an artifact succeeds at one of the attempts allowed. *)
Definition uploads (cfg : Config) (w : World) (path : string) : bool :=
  existsb (put_succeeds w path) (seq 0 (publish_attempts cfg)).

(** A selected moment survives when its own render succeeds and the upload
    of its artifact succeeds at one of the attempts allowed. *)
Definition survives (cfg : Config) (w : World) (m : SelectedMoment) : bool :=
  match encode w m with
  | Some path => uploads cfg w path
  | None => false
  end.

Lemma retries_none w a k n :
  publish_with_retries (put w) a k n = None <->
  existsb (put_succeeds w a) (seq k n) = false.
Proof.
  revert k. induction n as [|n IH]; intros k; cbn [publish_with_retries seq existsb].
  - split; reflexivity.
  - unfold put_succeeds at 1. destruct (put w a k) as [urls|]; cbn [orb].
    + split; discriminate.
    + apply IH.
Qed.

Lemma retries_some w a k n urls :
  publish_with_retries (put w) a k n = Some urls ->
  exists attempt, (k <= attempt < k + n)%nat /\ put w a attempt = Some urls.
Proof.
  revert k. induction n as [|n IH]; intros k; cbn [publish_with_retries];
    [discriminate|].
  destruct (put w a k) as [u|] eqn:E.
  - intros [= <-]. exists k. split; [lia|exact E].
  - intros H. destruct (IH _ H) as (j & Hj & Ej). exists j. split; [lia|exact Ej].
Qed.

Lemma survivors_moments cfg w req f t ms :
  map moment (publish_all cfg w (render_all w req f t ms))
  = filter (survives cfg w) ms.
Proof.
  induction ms as [|m ms IH]; [reflexivity|].
  cbn [render_all filter]. unfold render at 1, survives at 1.
  destruct (encode w m) as [path|]; [|exact IH].
  cbn [publish_all artifact]. unfold uploads.
  destruct (publish_with_retries (put w) path 0 (publish_attempts cfg))
    as [[u th]|] eqn:Ep.
  - destruct (existsb (put_succeeds w path) (seq 0 (publish_attempts cfg))) eqn:Eu.
    + cbn [map moment rendered_moment]. rewrite IH. reflexivity.
    + apply retries_none in Eu. congruence.
  - apply retries_none in Ep. rewrite Ep. exact IH.
Qed.

Lemma survivor_published cfg w req f t ms c :
  In c (publish_all cfg w (render_all w req f t ms)) ->
  exists path attempt,
    encode w (moment c) = Some path /\
    (attempt < publish_attempts cfg)%nat /\
    put w path attempt = Some (url c, thumbnailUrl c).
Proof.
  induction ms as [|m ms IH]; [intros []|].
  cbn [render_all]. unfold render at 1.
  destruct (encode w m) as [path|] eqn:Ee; [|exact IH].
  cbn [publish_all artifact].
  destruct (publish_with_retries (put w) path 0 (publish_attempts cfg))
    as [[u th]|] eqn:Ep; [|exact IH].
  intros [<-|H]; [|apply IH, H].
  cbn [moment rendered_moment url thumbnailUrl].
  apply retries_some in Ep as (j & Hj & Ej).
  exists path, j. split; [exact Ee|]. split; [lia|exact Ej].
Qed.

Lemma render_all_none w req f t ms :
  (forall m, In m ms -> encode w m = None) -> render_all w req f t ms = [].
Proof.
  induction ms as [|m ms IH]; intros H; [reflexivity|].
  cbn [render_all]. unfold render. rewrite (H m) by (left; reflexivity).
  apply IH. intros x Hx. apply H. right. exact Hx.
Qed.


(** A run that is neither cancelled nor late and whose stages up to
    detection succeed ends with the survivors of the moments selected. *)
Lemma run_survivors cfg w req media t found :
  on_schedule cfg w -> never_cancelled w ->
  acquire w = Some media ->
  transcribe_with_retry w = Some t ->
  detect t (media_duration media) (req_clips req) (window_of cfg req) (engine w)
  = Candidates found ->
  let r := run cfg w req in
  let chosen := select (tolerance cfg) found (req_clips req)
                       (req_duration req) (media_duration media) in
  let survivors := filter (survives cfg w) chosen in
  map moment (clips r) = (if is_terminal (stage r) then
                            match stage r with Completed => survivors | _ => [] end
                          else []) /\
  (survivors = [] ->
   clips r = [] /\
   exists category,
     stage r = Failed category /\
     (category = DetectionError \/ category = RenderError \/
      category = PublishError) /\
     (category = DetectionError <-> chosen = []) /\
     (chosen <> [] -> (forall m, In m chosen -> encode w m = None) ->
      category = RenderError)) /\
  (survivors <> [] -> stage r = Completed /\ map moment (clips r) = survivors).
Proof.
  intros Hs Hn Ea Et Ed. cbv zeta.
  destruct (run_nominal cfg w req media t found Hs Hn Ea Et Ed) as (E & _).
  revert E. generalize (run cfg w req). intros r E.
  unfold fan_in in E.
  set (chosen := select _ _ _ _ _) in *.
  pose proof (survivors_moments cfg w req (media_frame media) t chosen) as Hsv.
  pose proof (render_all_none w req (media_frame media) t chosen) as Hrn.
  destruct chosen as [|m ms] eqn:Ech.
  { injection E as E1 E2. rewrite E1, E2. cbn.
    split; [reflexivity|]. split; [|intros H; contradiction].
    intros _. split; [reflexivity|]. exists DetectionError.
    split; [reflexivity|]. split; [left; reflexivity|].
    split; [split; reflexivity|]. intros H. contradiction. }
  destruct (render_all w req (media_frame media) t (m :: ms)) as [|x xs] eqn:Er.
  { injection E as E1 E2. rewrite E1, E2. cbn [map is_terminal].
    cbn [publish_all map] in Hsv. rewrite <- Hsv.
    split; [reflexivity|]. split; [|intros H; contradiction].
    intros _. split; [reflexivity|]. exists RenderError.
    split; [reflexivity|]. split; [right; left; reflexivity|].
    split; [split; discriminate|]. intros _ _. reflexivity. }
  destruct (publish_all cfg w (x :: xs)) as [|c cs] eqn:Ep.
  { injection E as E1 E2. rewrite E1, E2. cbn [map is_terminal].
    cbn [map] in Hsv. rewrite <- Hsv.
    split; [reflexivity|]. split; [|intros H; contradiction].
    intros _. split; [reflexivity|]. exists PublishError.
    split; [reflexivity|]. split; [right; right; reflexivity|].
    split; [split; discriminate|]. intros _ H.
    specialize (Hrn H). discriminate. }
  injection E as E1 E2. rewrite E1, E2. cbn [is_terminal].
  rewrite <- Hsv.
  split; [reflexivity|]. split; [discriminate|].
  intros _. split; reflexivity.
Qed.

(** *** Terminal status *)

(** C4.  Every run ends in one of two terminal statuses, [Completed] or
    [Failed] with a category, its scratch media released.  It is
    [Completed] exactly when it holds at least one clip.  The clips of a
    completed run are, in presentation order, one for each selected moment
    whose own render succeeded and whose artifact was uploaded at one of
    the attempts allowed, and none for the others, whatever happened to
    the moments before or after; each carries the URLs the store answered.
    For a run that is neither cancelled nor late and whose stages up to
    detection succeed: if no selected moment survives the run is [Failed]
    with no clip ([RenderError] when every render failed), and if some
    survive it is [Completed] with exactly those. *)
Theorem C4_terminal_status :
  forall (cfg : Config) (w : World) (req : Request),
    let r := run cfg w req in
    (stage r = Completed \/ exists category, stage r = Failed category) /\
    (stage r = Completed <-> clips r <> []) /\
    scratch r = None /\
    (stage r = Completed ->
     map moment (clips r) = filter (survives cfg w) (selected r) /\
     (forall c, In c (clips r) ->
        exists path attempt,
          encode w (moment c) = Some path /\
          (attempt < publish_attempts cfg)%nat /\
          put w path attempt = Some (url c, thumbnailUrl c)) /\
     (0 < List.length (clips r) <= List.length (selected r))%nat /\
     (List.length (selected r) <= req_clips req)%nat) /\
    (forall media t found,
        on_schedule cfg w -> never_cancelled w ->
        acquire w = Some media ->
        transcribe_with_retry w = Some t ->
        detect t (media_duration media) (req_clips req) (window_of cfg req)
               (engine w) = Candidates found ->
        let chosen := select (tolerance cfg) found (req_clips req)
                             (req_duration req) (media_duration media) in
        let survivors := filter (survives cfg w) chosen in
        (survivors = [] ->
         clips r = [] /\
         exists category,
           stage r = Failed category /\
           (chosen <> [] -> (forall m, In m chosen -> encode w m = None) ->
            category = RenderError)) /\
        (survivors <> [] ->
         stage r = Completed /\ map moment (clips r) = survivors /\
         (List.length (clips r) <= List.length chosen)%nat)).
Proof.
  intros cfg w req. cbv zeta.
  pose proof (run_terminal cfg w req) as HT.
  pose proof (invariant_run cfg w req) as Hinv.
  pose proof (run_survivors cfg w req) as HN.
  revert HT Hinv HN. generalize (run cfg w req).
  intros r HT (Hs & Hc & Hst) HN.
  split; [|split; [|split; [|split]]].
  - destruct (stage r); try discriminate; [left; reflexivity|right; eexists; reflexivity].
  - split.
    + intros E. rewrite E in Hst. destruct Hst as (m & _ & _ & _ & _ & H). exact H.
    + intros Hne. destruct (stage r) eqn:E; try reflexivity;
        exfalso; apply Hne, Hc; discriminate.
  - apply Hs, HT.
  - intros E. rewrite E in Hst.
    destruct Hst as (media & Ea & (Hsel & Hne) & Hrd & Hcl & Hcne).
    unfold renders in Hrd. rewrite Hrd in Hcl.
    assert (Hm : map moment (clips r) = filter (survives cfg w) (selected r))
      by (rewrite Hcl; apply survivors_moments).
    split; [exact Hm|]. split; [|split].
    + intros c Hin. rewrite Hcl in Hin.
      apply (survivor_published _ _ _ _ _ _ _ Hin).
    + split.
      * destruct (clips r); [congruence|simpl; lia].
      * rewrite <- (length_map moment), Hm. apply filter_length_le.
    + rewrite Hsel. apply SelectorProps.accept_length. simpl. lia.
  - intros media t found Hsch Hnc Ea Et Ed.
    destruct (HN media t found Hsch Hnc Ea Et Ed) as (_ & H0 & H1).
    split.
    + intros Hnil. destruct (H0 Hnil) as (Hcl & cat & Hst' & _ & _ & Hre).
      split; [exact Hcl|]. exists cat. split; [exact Hst'|exact Hre].
    + intros Hne. destruct (H1 Hne) as (Hst' & Hm).
      split; [exact Hst'|]. split; [exact Hm|].
      rewrite <- (length_map moment), Hm. apply filter_length_le.
Qed.

(** *** Example worlds *)

Definition ex_media : MediaAsset :=
  {| media_path := "scratch/run-1/source.mp4"; media_duration := 600;
     media_frame := mkFrame 1920 1080 |}.

Definition ex_transcript : Transcript :=
  [ mkUtterance 0 4 "welcome back";
    mkUtterance 4 9 "today we test the pipeline" ].

Definition ex_cfg : Config :=
  {| tolerance := DEFAULT_TOLERANCE; auto_window := 30;
     ceiling_ms := 15 * 60 * 1000; publish_attempts := 3 |}.

Definition ex_req : Request :=
  {| req_clips := 3; req_duration := Auto;
     req_aspectRatio := Types.R9_16; req_subtitles := true |}.

(** Every collaborator answers, each stage takes a minute, except that the
    scoring engine is unreachable (scenario B). *)
Definition world_B : World :=
  {| acquire := Some ex_media;
     transcribe := fun _ => Some ex_transcript;
     engine := Unreachable;
     encode := fun _ => Some "scratch/run-1/clip.mp4"%string;
     put := fun a _ => Some (("https://cdn.example/" ++ a)%string,
                             "https://cdn.example/thumb.jpg"%string);
     stage_ms := fun _ => 60000;
     cancelled_before := fun _ => false |}.

(** The engine answers four moments, the last one past the end of the
    media. *)
Definition ex_answer : EngineResponse :=
  Answered [ mkEngineCandidate 0 30 (9 # 10) "cold open";
             mkEngineCandidate 100 130 (8 # 10) "punchline";
             mkEngineCandidate 200 230 (7 # 10) "reveal";
             mkEngineCandidate 590 650 (6 # 10) "past the end" ].

(** As [world_B] with the engine answering; the render of the moment that
    starts at 100 s fails, and the first upload of every artifact fails. *)
Definition world_partial : World :=
  {| acquire := acquire world_B; transcribe := transcribe world_B;
     engine := ex_answer;
     encode := fun m => if Qeq_bool (startTime m) 100 then None
                        else Some "scratch/run-1/clip.mp4"%string;
     put := fun a attempt => match attempt with
                             | O => None
                             | _ => put world_B a attempt
                             end;
     stage_ms := stage_ms world_B;
     cancelled_before := cancelled_before world_B |}.

(** As [world_B] with the engine answering and transcription taking twenty
    minutes (scenario E). *)
Definition world_E : World :=
  {| acquire := acquire world_B; transcribe := transcribe world_B;
     engine := ex_answer; encode := encode world_B; put := put world_B;
     stage_ms := fun s => match s with
                          | Transcribing => 20 * 60 * 1000
                          | _ => 60000
                          end;
     cancelled_before := cancelled_before world_B |}.

(** Three moments are selected, the second is lost at render, and the run
    completes with the first and the third. *)
Lemma C4_terminal_status_witness :
  stage (run ex_cfg world_partial ex_req) = Completed /\
  map (fun c => startTime (moment c)) (clips (run ex_cfg world_partial ex_req))
  = [0%Q; 200%Q].
Proof.
  assert (Hs : on_schedule ex_cfg world_partial)
    by (split; [intros s; cbn; lia|cbn; lia]).
  assert (Hn : never_cancelled world_partial) by (intros s; reflexivity).
  destruct (C4_terminal_status ex_cfg world_partial ex_req)
    as (_ & _ & _ & _ & H).
  assert (Hd : detect ex_transcript (media_duration ex_media)
                      (req_clips ex_req) (window_of ex_cfg ex_req)
                      (engine world_partial)
               = Candidates (usable ex_transcript 600 ex_answer))
    by (vm_compute; reflexivity).
  destruct (H ex_media ex_transcript
              (usable ex_transcript 600 ex_answer) Hs Hn
              eq_refl eq_refl Hd) as (_ & Hsurv).
  destruct Hsurv as (E1 & E2 & _); [vm_compute; discriminate|].
  split; [exact E1|].
  rewrite <- (map_map moment startTime), E2. vm_compute. reflexivity.
Defined.

(** *** The time limit *)

Lemma clips_ticks n stages s :
  Dashboard.clips (Dashboard.ticks n stages s) = Dashboard.clips s /\
  Dashboard.alerted (Dashboard.ticks n stages s) = Dashboard.alerted s.
Proof.
  induction n as [|n IH]; cbn [Dashboard.ticks]; [split; reflexivity|].
  unfold Dashboard.tick.
  destruct (Dashboard.progress_updater _ _ _). exact IH.
Qed.

Lemma handleGenerate_timed_out f b s :
  Dashboard.can_generate f = true ->
  DashboardProps.response_overdue b = true ->
  let r := Dashboard.handleGenerate f b s in
  Dashboard.alerted r = Some Dashboard.TIMED_OUT_MESSAGE /\
  Dashboard.processing r = false /\
  Dashboard.clips r = [] /\
  0 <= Dashboard.progress r <= 97.
Proof.
  intros Hc Ht. cbv zeta.
  unfold Dashboard.handleGenerate, Dashboard.await_response.
  rewrite Hc. cbn [negb]. cbv beta zeta.
  assert (A : forall ms,
             let r := Dashboard.finally
                        (Dashboard.catch_error "AbortError"
                           "The operation was aborted."
                           (Dashboard.ticks (Dashboard.ticks_within ms)
                              (Dashboard.stages_for (Dashboard.sourceTab f))
                              (Dashboard.start s))) in
             Dashboard.alerted r = Some Dashboard.TIMED_OUT_MESSAGE /\
             Dashboard.processing r = false /\
             Dashboard.clips r = [] /\
             0 <= Dashboard.progress r <= 97).
  { intros ms. cbv zeta. generalize (Dashboard.ticks_within ms). intros n.
    unfold Dashboard.finally, Dashboard.catch_error.
    cbn [Dashboard.alerted Dashboard.processing Dashboard.clips
         Dashboard.progress].
    split; [reflexivity|]. split; [reflexivity|]. split.
    - rewrite (proj1 (clips_ticks n _ _)). reflexivity.
    - apply DashboardProps.progress_ticks_range. }
  unfold DashboardProps.response_overdue in Ht.
  destruct (Dashboard.getIdToken b) as [|a []|a nm msg]; try discriminate.
  destruct (Dashboard.TIMEOUT_MS <=? a); [apply A|]. cbn [orb] in Ht.
  destruct (Dashboard.fetch b) as [|d response|d nm msg];
    [apply A|rewrite Ht; apply A..].
Qed.

(** C7, amended.  Under a ceiling that is not negative, every run ends,
    with its scratch media removed, and its clock never passes the
    ceiling: a run that under a later ceiling goes on past the ceiling is
    aborted when the ceiling is reached and ends [Failed] with category
    [Timeout]; no other run ends so, and a run that stays within the
    ceiling is unchanged by it.  In the page the ceiling is 15 minutes from
    the call and bounds the wait for the response: once the token is
    obtained, a request whose response has not arrived by then is aborted
    and ends with the time-out alert, no longer processing, with no clips
    and the progress at most 97. *)
Theorem C7_timeout_ceiling :
  forall (cfg : Config) (w : World) (req : Request),
    0 <= ceiling_ms cfg ->
    let r := run cfg w req in
    (is_terminal (stage r) = true /\
     scratch r = None /\
     elapsed r <= ceiling_ms cfg /\
     (stage r = Failed Timeout -> elapsed r = ceiling_ms cfg) /\
     forall later,
       ceiling_ms cfg < later ->
       let r' := run (with_ceiling cfg later) w req in
       (ceiling_ms cfg < elapsed r' -> stage r = Failed Timeout) /\
       ((forall s, 0 <= stage_ms w s) ->
        (stage r = Failed Timeout -> ceiling_ms cfg < elapsed r') /\
        (elapsed r' <= ceiling_ms cfg -> r = r'))) /\
    (Dashboard.TIMEOUT_MS = 15 * 60 * 1000 /\
     10 * 60 * 1000 <= Dashboard.TIMEOUT_MS /\
     forall f b s,
       Dashboard.can_generate f = true ->
       DashboardProps.response_overdue b = true ->
       let p := Dashboard.handleGenerate f b s in
       Dashboard.alerted p = Some Dashboard.TIMED_OUT_MESSAGE /\
       Dashboard.processing p = false /\
       Dashboard.clips p = [] /\
       0 <= Dashboard.progress p <= 97).
Proof.
  intros cfg w req H0. cbv zeta.
  pose proof (run_terminal cfg w req) as HT.
  pose proof (invariant_run cfg w req) as (Hs & _).
  pose proof (timed_run cfg w req H0) as (Hb & Hat).
  pose proof (run_capped cfg w req) as Hcap.
  assert (Hlater : forall later, ceiling_ms cfg < later ->
            timed (with_ceiling cfg later) (run (with_ceiling cfg later) w req))
    by (intros later Hl; apply timed_run; cbn [ceiling_ms with_ceiling]; lia).
  revert HT Hs Hb Hat Hcap. generalize (run cfg w req).
  intros r HT Hs Hb Hat Hcap.
  split.
  - split; [exact HT|]. split; [apply Hs, HT|]. split; [exact Hb|].
    split; [exact Hat|].
    intros later Hlt. specialize (Hcap later H0 Hlt).
    specialize (Hlater later Hlt). revert Hcap Hlater.
    generalize (run (with_ceiling cfg later) w req).
    intros r' [E|(Ht & _ & Hc & He)] (Hb' & Hat').
    + subst r'. cbn [ceiling_ms with_ceiling] in Hat'.
      split; [intros H; lia|]. intros _.
      split; [|reflexivity].
      intros Ht. rewrite (Hat' Ht). exact Hlt.
    + split; [intros _; exact Ht|].
      intros Hpos. specialize (He Hpos). split; [intros _; exact He|lia].
  - split; [reflexivity|]. split; [unfold Dashboard.TIMEOUT_MS; lia|].
    intros f b s. apply handleGenerate_timed_out.
Qed.

(** Scenario E: the ceiling is reached while transcribing. *)
Lemma C7_timeout_ceiling_witness :
  0 <= ceiling_ms ex_cfg /\
  stage (run ex_cfg world_E ex_req) = Failed Timeout /\
  scratch (run ex_cfg world_E ex_req) = None /\
  elapsed (run ex_cfg world_E ex_req) = ceiling_ms ex_cfg.
Proof.
  assert (H0 : 0 <= ceiling_ms ex_cfg) by (cbn; lia).
  destruct (C7_timeout_ceiling ex_cfg world_E ex_req H0)
    as ((_ & Hs & _ & Hat & _) & _).
  assert (Ht : stage (run ex_cfg world_E ex_req) = Failed Timeout)
    by (vm_compute; reflexivity).
  split; [exact H0|]. split; [exact Ht|]. split; [exact Hs|exact (Hat Ht)].
Defined.

(** A form with a link typed in, and the page at rest. *)
Definition typed_form : Dashboard.Form :=
  Dashboard.act Dashboard.initial_form
    (Dashboard.TypeYoutubeUrl "https://www.youtube.com/watch?v=abc").

Definition at_rest : Dashboard.State :=
  Dashboard.mkState false 0 "" [] 0 None.

Definition one_clip : Types.GeneratedClip :=
  {| Types.clip_id := "clip-1"; Types.title := "Cold open";
     Types.thumbnail := ""; Types.clip_duration := "0:30";
     Types.clip_aspectRatio := "9:16"; Types.clip_template := "minimal";
     Types.hasSubtitles := true;
     Types.video_url := "https://cdn.example/clip-1.mp4";
     Types.downloadUrl := "https://cdn.example/clip-1.mp4";
     Types.clip_createdAt := "2025-01-05T10:00:00.000Z";
     Types.clip_detectionMethod := None; Types.viralReason := None;
     Types.viralScore := None; Types.startTime := None;
     Types.endTime := None |}.

(** The response arrives after [headers] ms and its body is read as
    [body] says. *)
Definition answers (headers : Z) (body : Dashboard.Await Dashboard.Json)
  : Dashboard.Backend :=
  {| Dashboard.getIdToken := Dashboard.Resolves 0 tt;
     Dashboard.fetch :=
       Dashboard.Resolves headers
         {| Dashboard.ok := true; Dashboard.http_code := 200;
            Dashboard.json := body |} |}.

(** C7 as stated fails in the page.  The timer is cleared when the
    response arrives, before its body is read: a request whose response
    arrives after one minute and whose body takes twenty more is not
    aborted, it goes on past the fifteen minutes and ends with its clip
    shown and no alert; one whose body never arrives hangs, as does one
    whose token never arrives: the page is left processing, without an
    alert. *)
Lemma C7_counterexample :
  let late := answers 60000 (Dashboard.Resolves (20 * 60 * 1000)
                               (Dashboard.mkJson "completed" [one_clip] "")) in
  let stalled := answers 60000 Dashboard.Hangs in
  let no_token := {| Dashboard.getIdToken := Dashboard.Hangs;
                     Dashboard.fetch := Dashboard.Hangs |} in
  Dashboard.can_generate typed_form = true /\
  (Dashboard.TIMEOUT_MS < 60000 + 20 * 60 * 1000 /\
   Dashboard.clips (Dashboard.handleGenerate typed_form late at_rest)
   = [one_clip] /\
   Dashboard.progress (Dashboard.handleGenerate typed_form late at_rest) = 100 /\
   Dashboard.alerted (Dashboard.handleGenerate typed_form late at_rest) = None) /\
  (Dashboard.processing (Dashboard.handleGenerate typed_form stalled at_rest)
   = true /\
   Dashboard.alerted (Dashboard.handleGenerate typed_form stalled at_rest)
   = None) /\
  (Dashboard.processing (Dashboard.handleGenerate typed_form no_token at_rest)
   = true /\
   Dashboard.alerted (Dashboard.handleGenerate typed_form no_token at_rest)
   = None).
Proof. vm_compute. repeat split. Qed.

(** *** Detection, its fallback, and the run *)

Import DetectorProps.












End OrchestratorProps.

Module RendererProps.
Import Pipeline Pipeline.Renderer.

Local Open Scope Q_scope.

(** The whole source frame lies on the canvas: nothing is cut off on any
    side. *)
Definition uncropped (source : Frame) (l : Letterboxed) : Prop :=
  content l = source /\
  0 <= offset_x l /\ 0 <= offset_y l /\
  offset_x l + width source <= width (canvas l) /\
  offset_y l + height source <= height (canvas l) /\
  visible_width l == width source /\
  visible_height l == height source.

(** The canvas has the requested ratio, and the bars on opposite sides are
    equal. *)
Definition padded_to (a : Types.AspectRatio) (source : Frame) (l : Letterboxed)
  : Prop :=
  width (canvas l) * snd (ratio_of a) == height (canvas l) * fst (ratio_of a) /\
  width (canvas l) - (offset_x l + width source) == offset_x l /\
  height (canvas l) - (offset_y l + height source) == offset_y l /\
  (width (canvas l) == width source \/ height (canvas l) == height source).

Lemma visible_full (o c k : Q) :
  0 <= o -> o + c <= k -> Qmin (o + c) k - Qmax o 0 == c.
Proof.
  intros H0 H1.
  rewrite (Q.min_l (o + c) k H1), (Q.max_l o 0 H0). ring.
Qed.

Ltac ratio_constants :=
  unfold Qdiv;
  change (/ 16) with (1 # 16); change (/ 9) with (1 # 9);
  change (/ 5) with (1 # 5); change (/ 4) with (1 # 4);
  change (/ 2) with (1 # 2); change (/ 1) with 1.

Lemma Qle_bool_false x y : Qle_bool x y = false -> y < x.
Proof.
  intros H. apply SelectorProps.Qlt_bool_iff. unfold Qlt_bool.
  rewrite H. reflexivity.
Qed.

Ltac frame_goals :=
  unfold uncropped, padded_to, visible_width, visible_height;
  cbn [canvas offset_x offset_y content width height fst snd ratio_of];
  ratio_constants;
  repeat split;
  first [ reflexivity | lra | apply visible_full; lra
        | left; lra | right; lra ].

Lemma letterbox_spec (source : Frame) (a : Types.AspectRatio) :
  0 < width source -> 0 < height source ->
  uncropped source (letterbox source a) /\
  padded_to a source (letterbox source a).
Proof.
  intros Hw Hh. unfold letterbox.
  destruct a; cbn [ratio_of]; destruct (Qle_bool _ _) eqn:E.
  all: first [apply Qle_bool_iff in E | apply Qle_bool_false in E].
  all: frame_goals.
Qed.

Lemma render_all_framing w req f t ms c :
  In c (Orchestrator.render_all w req f t ms) ->
  framing c = letterbox f (Orchestrator.req_aspectRatio req).
Proof.
  induction ms as [|m ms IH]; cbn [Orchestrator.render_all]; [intros []|].
  unfold render at 1. destruct (Orchestrator.encode w m) as [path|].
  - intros [<-|H]; [reflexivity|apply IH, H].
  - apply IH.
Qed.

(** C5.  Whatever the source frame and the requested ratio, a rendered
    clip shows the whole source frame: the frame is drawn at its own size
    inside a canvas of the requested ratio, no side of it falls outside,
    and only bars, equal on opposite sides, are added; the clip is the
    selected range.  So it is for every clip of a completed run. *)
Theorem C5_letterbox_never_crops :
  forall (encode : SelectedMoment -> option string) (source : Frame)
         (m : SelectedMoment) (a : Types.AspectRatio) (subtitles : bool)
         (t : Transcript) (clip : RenderedClip),
    0 < width source -> 0 < height source ->
    render encode source m a subtitles t = Some clip ->
    (uncropped source (framing clip) /\
     padded_to a source (framing clip) /\
     trim_start clip = startTime m /\ trim_end clip = endTime m) /\
    (forall cfg w req,
        Orchestrator.stage (Orchestrator.run cfg w req) = Orchestrator.Completed ->
        exists media,
          Orchestrator.acquire w = Some media /\
          forall c, In c (Orchestrator.clips (Orchestrator.run cfg w req)) ->
                    Orchestrator.clip_framing c
                    = letterbox (Orchestrator.media_frame media)
                                (Orchestrator.req_aspectRatio req)).
Proof.
  intros encode source m a subtitles t clip Hw Hh Hr. split.
  - unfold render in Hr. destruct (encode m) as [path|]; [|discriminate].
    injection Hr as <-. cbn [framing trim_start trim_end].
    destruct (letterbox_spec source a Hw Hh) as (H1 & H2).
    split; [exact H1|]. split; [exact H2|]. split; reflexivity.
  - intros cfg w req.
    pose proof (OrchestratorProps.invariant_run cfg w req) as (_ & _ & Hst).
    revert Hst. generalize (Orchestrator.run cfg w req). intros r Hst E.
    rewrite E in Hst. destruct Hst as (media & Ea & _ & Hrd & Hcl & _).
    exists media. split; [exact Ea|]. intros c Hc.
    rewrite Hcl in Hc.
    apply OrchestratorProps.publish_all_moment in Hc as (rc & Hrc & _ & ->).
    rewrite Hrd in Hrc. unfold OrchestratorProps.renders in Hrc.
    apply (render_all_framing _ _ _ _ _ _ Hrc).
Qed.

Definition C5_source : Frame := mkFrame 1920 1080.

Definition C5_moment : SelectedMoment :=
  mkCandidate 12 42 (9 # 10) "cold open".

Definition C5_clip : RenderedClip :=
  {| rendered_moment := C5_moment; trim_start := 12; trim_end := 42;
     framing := letterbox C5_source Types.R9_16; burned := [];
     artifact := "scratch/run-1/clip-1.mp4" |}.

Lemma C5_letterbox_never_crops_witness :
  canvas (framing C5_clip) = mkFrame 1920 (1920 * 16 / 9) /\
  uncropped C5_source (framing C5_clip) /\
  padded_to Types.R9_16 C5_source (framing C5_clip).
Proof.
  assert (Hw : 0 < width C5_source) by reflexivity.
  assert (Hh : 0 < height C5_source) by reflexivity.
  destruct (C5_letterbox_never_crops
              (fun _ => Some "scratch/run-1/clip-1.mp4"%string)
              C5_source C5_moment Types.R9_16 false [] C5_clip Hw Hh eq_refl)
    as ((H1 & H2 & _) & _).
  split; [reflexivity|]. split; assumption.
Defined.

End RendererProps.

(* ================================================================== *)
(** * Part IV — further properties of the sources *)
(* ================================================================== *)

(** ** History: the other handlers of the page *)

Module HistoryPageProps.
Import Types History.
Import HistoryProps.

Lemma find_absent (l : list HistoryItem) (i : string) :
  ~ In i (map id l) -> find (has_id i) l = None.
Proof.
  induction l as [|x l IH]; intros Hni; [reflexivity|].
  simpl in *. destruct (has_id i x) eqn:E.
  - apply has_id_true in E. tauto.
  - apply IH. tauto.
Qed.

Lemma find_has_id (l : list HistoryItem) (i : string) (item : HistoryItem) :
  find (has_id i) l = Some item -> In item l /\ id item = i.
Proof.
  intros H. apply find_some in H as (Hin & Hid).
  apply has_id_true in Hid. split; assumption.
Qed.

Lemma filter_not_id_In (l : list HistoryItem) (i : string) (item : HistoryItem) :
  id item <> i -> (In item (filter (not_id i) l) <-> In item l).
Proof.
  intros Hne. rewrite filter_In. split; [tauto|].
  intros Hin. split; [exact Hin|].
  unfold not_id. apply negb_true_iff, String.eqb_neq, Hne.
Qed.

(** The state a handler leaves agrees with what it wrote to the browser's
    storage. *)
Definition mirrored (s : State) : Prop :=
  localStorage s = Some (activeItems s ++ trashItems s).

(** Deleting an item for good: no entry of the trash carries its id
    afterwards, every other entry of the trash is kept, the active list is
    untouched, the storage copy agrees with the page, and a later restore
    of that id finds nothing and changes nothing. *)
Theorem permanentDelete_is_final :
  forall (s : State) (i : string),
    let s1 := permanentDelete i s in
    ~ In i (map id (trashItems s1)) /\
    (forall item, id item <> i ->
                  (In item (trashItems s1) <-> In item (trashItems s))) /\
    activeItems s1 = activeItems s /\
    mirrored s1 /\
    restore i s1 = s1.
Proof.
  intros s i s1.
  assert (Hgone : ~ In i (map id (trashItems s1))) by apply filter_not_id_gone.
  split; [exact Hgone|]. split; [|split; [reflexivity|split; [reflexivity|]]].
  - intros item Hne. apply filter_not_id_In, Hne.
  - unfold restore, handleRestore. rewrite (find_absent _ _ Hgone). reflexivity.
Qed.

(** Moving everything to the trash, once [getIdToken()] has resolved: the
    active list is empty, every item that was active is in the trash with
    [deletedAt] set to the time of the click and its other fields as they
    were, ahead of the items trashed before, which keep their own time; the
    page holds the same ids in the same order, and the storage copy agrees
    with the page.  When [getIdToken()] does not resolve, nothing is moved
    and nothing is written. *)
Theorem clearAll_moves_everything :
  forall (s : State) (now : string),
    let s1 := clearAll now true s in
    (activeItems s1 = [] /\
     trashItems s1
     = map (fun i => with_deletedAt i (Some now)) (activeItems s) ++ trashItems s /\
     (forall item, In item (activeItems s) ->
        exists t, In t (trashItems s1) /\ deletedAt t = Some now /\
                  same_but_deletedAt t item) /\
     (forall item, In item (trashItems s) -> In item (trashItems s1)) /\
     ids s1 = ids s /\
     mirrored s1) /\
    clearAll now false s = s /\
    emptyTrash false s = s.
Proof.
  intros s now s1. split; [|split; reflexivity].
  split; [reflexivity|]. split; [reflexivity|].
  split; [|split; [|split; [|reflexivity]]].
  - intros item Hin. exists (with_deletedAt item (Some now)).
    split; [|split; [reflexivity|repeat split]].
    subst s1. cbn. apply in_or_app. left.
    apply (in_map (fun i => with_deletedAt i (Some now))), Hin.
  - intros item Hin. subst s1. cbn. apply in_or_app. right. exact Hin.
  - subst s1. unfold ids. cbn. rewrite !map_app, map_map. cbn.
    reflexivity.
Qed.

(** *** Sessions of trash operations *)

(** What the user can do on the page; the two operations that await
    [getIdToken()] outside a [try] carry its outcome. *)
Inductive Event : Type :=
| SoftDelete (i now : string)
| Restore (i : string)
| PermanentDelete (i : string)
| ClearAll (now : string) (token : bool)
| EmptyTrash (token : bool).

(** An operation run by the closure of the render that showed [seen], on
    the page as it is when the operation completes. *)
Definition handle_with (seen : State) (e : Event) (prev : State) : State :=
  match e with
  | SoftDelete i now => handleSoftDelete seen i now prev
  | Restore i => handleRestore seen i prev
  | PermanentDelete i => handlePermanentDelete seen i prev
  | ClearAll now token => handleClearAll seen now token prev
  | EmptyTrash token => handleEmptyTrash seen token prev
  end.

(** The operation runs against the state it was rendered with. *)
Definition handle (s : State) (e : Event) : State := handle_with s e s.

(** A session in which the page is rendered anew between two operations. *)
Definition after (events : list Event) (s : State) : State :=
  fold_left handle events s.

(** A session in which an operation may be run by the closure of an
    earlier render (a second click before the first is handled, a
    confirmation left open): each one tells how many operations back the
    render it was clicked on lies.  [past] holds the earlier states of the
    page, the latest first. *)
Fixpoint play (past : list State) (s : State) (clicks : list (nat * Event))
  : State :=
  match clicks with
  | [] => s
  | (back, e) :: rest =>
      play (s :: past) (handle_with (nth back (s :: past) s) e s) rest
  end.

(** An item carries a deletion time exactly when it is in the trash. *)
Definition marked (s : State) : Prop :=
  Forall (fun x => deletedAt x = None) (activeItems s) /\
  Forall (fun x => deletedAt x <> None) (trashItems s).

(** Ids are pairwise distinct, and an item carries a deletion time exactly
    when it is in the trash. *)
Definition well_formed (s : State) : Prop :=
  NoDup (ids s) /\ marked s.

Lemma Forall_filter_keep {A} (P : A -> Prop) (f : A -> bool) (l : list A) :
  Forall P l -> Forall P (filter f l).
Proof.
  rewrite !Forall_forall. intros H x Hx. apply filter_In in Hx. apply H, Hx.
Qed.

Lemma incl_map_filter (f : HistoryItem -> bool) (l : list HistoryItem) :
  incl (map id (filter f l)) (map id l).
Proof.
  intros x Hx. apply in_map_iff in Hx as (y & <- & Hy).
  apply filter_In in Hy. apply in_map, Hy.
Qed.

Lemma NoDup_map_filter (f : HistoryItem -> bool) (l : list HistoryItem) :
  NoDup (map id l) -> NoDup (map id (filter f l)).
Proof.
  induction l as [|x l IH]; intros Hnd; [exact Hnd|].
  simpl in Hnd. inversion Hnd as [|? ? Hx Hl]; subst.
  simpl. destruct (f x); [|apply IH, Hl].
  simpl. constructor; [|apply IH, Hl].
  intros Hin. apply Hx. apply (incl_map_filter f l), Hin.
Qed.

Lemma NoDup_app_parts {A} (l1 l2 : list A) :
  NoDup (l1 ++ l2) <->
  NoDup l1 /\ NoDup l2 /\ (forall x, In x l1 -> ~ In x l2).
Proof.
  induction l1 as [|y l1 IH]; simpl.
  - split; [intros H; repeat split; [constructor|exact H|tauto]|tauto].
  - split.
    + intros H. inversion H as [|? ? Hy Hl]; subst.
      apply IH in Hl as (H1 & H2 & H3).
      split; [|split; [exact H2|]].
      * constructor; [|exact H1]. intros Hin. apply Hy, in_or_app. tauto.
      * intros x [<-|Hx]; [|apply H3, Hx].
        intros Hin. apply Hy, in_or_app. tauto.
    + intros (H1 & H2 & H3). inversion H1 as [|? ? Hy Hl]; subst.
      constructor.
      * intros Hin. apply in_app_or in Hin as [Hin|Hin]; [tauto|].
        apply (H3 y); tauto.
      * apply IH. repeat split; try assumption.
        intros x Hx. apply H3. tauto.
Qed.

Lemma softDelete_found s i now item :
  find (has_id i) (activeItems s) = Some item ->
  softDelete i now s
  = {| activeItems := filter (not_id i) (activeItems s);
       trashItems := with_deletedAt item (Some now) :: trashItems s;
       localStorage := localStorage s |}.
Proof. intros H. unfold softDelete, handleSoftDelete. rewrite H. reflexivity. Qed.

Lemma restore_found s i item :
  find (has_id i) (trashItems s) = Some item ->
  restore i s
  = {| activeItems := with_deletedAt item None :: activeItems s;
       trashItems := filter (not_id i) (trashItems s);
       localStorage :=
         Some ((with_deletedAt item None :: activeItems s)
                 ++ filter (not_id i) (trashItems s)) |}.
Proof. intros H. unfold restore, handleRestore. rewrite H. reflexivity. Qed.

Lemma well_formed_parts s :
  NoDup (ids s) <->
  NoDup (map id (activeItems s)) /\ NoDup (map id (trashItems s)) /\
  (forall x, In x (map id (activeItems s)) -> ~ In x (map id (trashItems s))).
Proof. unfold ids. rewrite map_app. apply NoDup_app_parts. Qed.

Ltac fold_handlers s :=
  repeat match goal with
         | |- context [handleSoftDelete s ?i ?now s] =>
             change (handleSoftDelete s i now s) with (softDelete i now s)
         | |- context [handleRestore s ?i s] =>
             change (handleRestore s i s) with (restore i s)
         | |- context [handlePermanentDelete s ?i s] =>
             change (handlePermanentDelete s i s) with (permanentDelete i s)
         | |- context [handleClearAll s ?now ?t s] =>
             change (handleClearAll s now t s) with (clearAll now t s)
         | |- context [handleEmptyTrash s ?t s] =>
             change (handleEmptyTrash s t s) with (emptyTrash t s)
         end.

Lemma handle_well_formed s e : well_formed s -> well_formed (handle s e).
Proof.
  intros (Hnd & Ha & Ht).
  pose proof (proj1 (well_formed_parts s) Hnd) as (Na & Nt & Hd).
  unfold well_formed, marked.
  destruct e as [i now|i|i|now [|]|[|]]; unfold handle; cbn [handle_with];
    try (split; [exact Hnd|split; assumption]);
    fold_handlers s.
  - (* soft delete *)
    destruct (find (has_id i) (activeItems s)) as [item|] eqn:E.
    2:{ unfold softDelete, handleSoftDelete. rewrite E. repeat split; assumption. }
    rewrite (softDelete_found _ _ _ _ E).
    apply find_has_id in E as (Hin & <-).
    split; [|split].
    + apply well_formed_parts. cbn [activeItems trashItems map].
      change (id (with_deletedAt item (Some now))) with (id item).
      split; [apply NoDup_map_filter, Na|]. split.
      * constructor; [|exact Nt]. apply Hd, in_map, Hin.
      * intros x Hx [<-|Hx2].
        -- exact (filter_not_id_gone _ _ Hx).
        -- apply (Hd x); [apply (incl_map_filter _ _ _ Hx)|exact Hx2].
    + apply Forall_filter_keep, Ha.
    + constructor; [discriminate|exact Ht].
  - (* restore *)
    destruct (find (has_id i) (trashItems s)) as [item|] eqn:E.
    2:{ unfold restore, handleRestore. rewrite E. repeat split; assumption. }
    rewrite (restore_found _ _ _ E).
    apply find_has_id in E as (Hin & <-).
    split; [|split].
    + apply well_formed_parts. cbn [activeItems trashItems map].
      change (id (with_deletedAt item None)) with (id item).
      split; [|split].
      * constructor; [|exact Na]. intros Hx. apply (Hd _ Hx), in_map, Hin.
      * apply NoDup_map_filter, Nt.
      * intros x [<-|Hx] Hx2.
        -- exact (filter_not_id_gone _ _ Hx2).
        -- apply (Hd x Hx), (incl_map_filter _ _ _ Hx2).
    + constructor; [reflexivity|exact Ha].
    + apply Forall_filter_keep, Ht.
  - (* permanent delete *)
    split; [|split].
    + apply well_formed_parts. cbn.
      split; [exact Na|]. split; [apply NoDup_map_filter, Nt|].
      intros x Hx Hx2. apply (Hd x Hx), (incl_map_filter _ _ _ Hx2).
    + exact Ha.
    + cbn. apply Forall_filter_keep, Ht.
  - (* clear all *)
    split; [|split].
    + unfold clearAll, handleClearAll, ids. cbn.
      rewrite map_app, map_map. cbn.
      unfold ids in Hnd. rewrite map_app in Hnd. exact Hnd.
    + constructor.
    + cbn. apply Forall_app. split; [|exact Ht].
      apply Forall_map, Forall_forall. intros x _. discriminate.
  - (* empty trash *)
    split; [|split].
    + unfold emptyTrash, handleEmptyTrash, ids. cbn. rewrite app_nil_r. exact Na.
    + exact Ha.
    + constructor.
Qed.

Lemma handle_ids_incl s e : incl (ids (handle s e)) (ids s).
Proof.
  destruct e as [i now|i|i|now [|]|[|]]; unfold handle; cbn [handle_with];
    try apply incl_refl;
    fold_handlers s.
  - destruct (find (has_id i) (activeItems s)) as [item|] eqn:E.
    2:{ unfold softDelete, handleSoftDelete. rewrite E. apply incl_refl. }
    rewrite (softDelete_found _ _ _ _ E).
    apply find_has_id in E as (Hin & <-).
    unfold ids. cbn [activeItems trashItems]. rewrite !map_app. cbn [map].
    change (id (with_deletedAt item (Some now))) with (id item).
    intros x Hx. apply in_or_app. apply in_app_or in Hx as [Hx|[<-|Hx]].
    + left. apply (incl_map_filter _ _ _ Hx).
    + left. apply in_map, Hin.
    + right. exact Hx.
  - destruct (find (has_id i) (trashItems s)) as [item|] eqn:E.
    2:{ unfold restore, handleRestore. rewrite E. apply incl_refl. }
    rewrite (restore_found _ _ _ E).
    apply find_has_id in E as (Hin & <-).
    unfold ids. cbn [activeItems trashItems]. rewrite !map_app. cbn [map app].
    change (id (with_deletedAt item None)) with (id item).
    intros x [<-|Hx]; apply in_or_app.
    + right. apply in_map, Hin.
    + apply in_app_or in Hx as [Hx|Hx]; [left; exact Hx|].
      right. apply (incl_map_filter _ _ _ Hx).
  - unfold ids. cbn. rewrite !map_app.
    apply incl_app; [apply incl_appl, incl_refl|].
    apply incl_appr, incl_map_filter.
  - unfold ids. cbn. rewrite !map_app, map_map. cbn. apply incl_refl.
  - unfold ids. cbn. rewrite !map_app. cbn. rewrite app_nil_r.
    apply incl_appl, incl_refl.
Qed.

Lemma after_well_formed events : forall s,
  well_formed s ->
  well_formed (after events s) /\ incl (ids (after events s)) (ids s).
Proof.
  unfold after.
  induction events as [|e l IH]; intros s H; cbn [fold_left].
  - split; [exact H|apply incl_refl].
  - destruct (IH (handle s e) (handle_well_formed s e H)) as (Hw & Hi).
    split; [exact Hw|].
    eapply incl_tran; [exact Hi|apply handle_ids_incl].
Qed.

Lemma handle_with_marked seen e prev :
  marked seen -> marked prev -> marked (handle_with seen e prev).
Proof.
  intros (Sa & St) (Pa & Pt). unfold marked.
  destruct e as [i now|i|i|now [|]|[|]]; cbn [handle_with];
    try (split; assumption).
  - unfold handleSoftDelete.
    destruct (find (has_id i) (activeItems seen)); [|split; assumption].
    cbn [activeItems trashItems]. split; [apply Forall_filter_keep, Pa|].
    constructor; [discriminate|exact Pt].
  - unfold handleRestore.
    destruct (find (has_id i) (trashItems seen)); [|split; assumption].
    cbn [activeItems trashItems].
    split; [constructor; [reflexivity|exact Pa]|apply Forall_filter_keep, Pt].
  - cbn. split; [exact Pa|apply Forall_filter_keep, St].
  - cbn. split; [constructor|]. apply Forall_app. split; [|exact Pt].
    apply Forall_map, Forall_forall. intros x _. discriminate.
  - cbn. split; [exact Pa|constructor].
Qed.

Lemma handle_with_ids base seen e prev :
  incl (ids seen) base -> incl (ids prev) base ->
  incl (ids (handle_with seen e prev)) base.
Proof.
  unfold ids. intros Hs Hp. rewrite map_app in Hs, Hp.
  assert (Sa : incl (map id (activeItems seen)) base)
    by (intros x Hx; apply Hs, in_or_app; left; exact Hx).
  assert (St : incl (map id (trashItems seen)) base)
    by (intros x Hx; apply Hs, in_or_app; right; exact Hx).
  assert (Pa : incl (map id (activeItems prev)) base)
    by (intros x Hx; apply Hp, in_or_app; left; exact Hx).
  assert (Pt : incl (map id (trashItems prev)) base)
    by (intros x Hx; apply Hp, in_or_app; right; exact Hx).
  destruct e as [i now|i|i|now [|]|[|]]; cbn [handle_with];
    try (rewrite map_app; exact Hp).
  - unfold handleSoftDelete.
    destruct (find (has_id i) (activeItems seen)) as [item|] eqn:E;
      [|rewrite map_app; exact Hp].
    apply find_has_id in E as (Hin & _).
    cbn [activeItems trashItems]. rewrite map_app. cbn [map].
    apply incl_app.
    + eapply incl_tran; [apply incl_map_filter|exact Pa].
    + intros x [<-|Hx]; [|apply Pt, Hx].
      apply Sa. change (id (with_deletedAt item (Some now))) with (id item).
      apply in_map, Hin.
  - unfold handleRestore.
    destruct (find (has_id i) (trashItems seen)) as [item|] eqn:E;
      [|rewrite map_app; exact Hp].
    apply find_has_id in E as (Hin & _).
    cbn [activeItems trashItems]. rewrite map_app. cbn [map].
    apply incl_app.
    + intros x [<-|Hx]; [|apply Pa, Hx].
      apply St. change (id (with_deletedAt item None)) with (id item).
      apply in_map, Hin.
    + eapply incl_tran; [apply incl_map_filter|exact Pt].
  - cbn. rewrite map_app. apply incl_app; [exact Pa|].
    eapply incl_tran; [apply incl_map_filter|exact St].
  - cbn. rewrite !map_app, map_map. cbn. apply incl_app; [|exact Pt].
    rewrite map_ext with (g := id) by reflexivity. exact Sa.
  - cbn. rewrite map_app. cbn. rewrite app_nil_r. exact Pa.
Qed.

Lemma play_kept base clicks : forall past s,
  Forall (fun x => marked x /\ incl (ids x) base) (s :: past) ->
  marked (play past s clicks) /\ incl (ids (play past s clicks)) base.
Proof.
  induction clicks as [|[back e] rest IH]; intros past s Hall; cbn [play].
  - inversion Hall; subst. assumption.
  - apply IH. constructor; [|exact Hall].
    assert (Hseen : marked (nth back (s :: past) s) /\
                    incl (ids (nth back (s :: past) s)) base).
    { destruct (Nat.lt_ge_cases back (List.length (s :: past))) as [Hlt|Hge].
      - apply (proj1 (Forall_forall _ _) Hall). apply nth_In, Hlt.
      - rewrite nth_overflow by exact Hge. inversion Hall; subst. assumption. }
    assert (Hprev : marked s /\ incl (ids s) base)
      by (inversion Hall; subst; assumption).
    split; [apply handle_with_marked; tauto|apply handle_with_ids; tauto].
Qed.

Lemma play_fresh events : forall past s,
  play past s (map (pair 0%nat) events) = after events s.
Proof.
  unfold after.
  induction events as [|e l IH]; intros past s; cbn [map play fold_left];
    [reflexivity|].
  cbn [nth]. apply IH.
Qed.

(** Take a page whose ids are pairwise distinct and where exactly the
    trashed items carry a deletion time.  Through any sequence of trash
    operations, each run by the closure of the render that followed the
    one before, the page stays so, and holds no id it did not hold at the
    start.  When operations are run by closures of earlier renders as
    well, whichever they are, it remains that exactly the trashed items
    carry a deletion time and that no new id appears; the ids need not
    stay distinct. *)
Theorem trash_operations_keep_page_well_formed :
  forall (s : State),
    well_formed s ->
    (forall events : list Event,
        well_formed (after events s) /\ incl (ids (after events s)) (ids s) /\
        play [] s (map (pair 0%nat) events) = after events s) /\
    (forall clicks : list (nat * Event),
        marked (play [] s clicks) /\ incl (ids (play [] s clicks)) (ids s)).
Proof.
  intros s H. split.
  - intros events. destruct (after_well_formed events s H) as (H1 & H2).
    split; [exact H1|]. split; [exact H2|apply play_fresh].
  - intros clicks. apply play_kept. constructor; [|constructor].
    split; [apply H|apply incl_refl].
Qed.

Definition session_1 : list Event :=
  [ SoftDelete "run-1" "2025-01-06T09:30:00.000Z";
    Restore "run-0";
    ClearAll "2025-01-07T12:00:00.000Z" true;
    PermanentDelete "run-2";
    EmptyTrash false;
    Restore "run-1" ]%string.

(** Two clicks on Restore, the second handled by the closure of the render
    the first was clicked on. *)
Definition double_click : list (nat * Event) :=
  [ (0, Restore "run-0"); (1, Restore "run-0") ]%nat.

Lemma ex_state_well_formed : well_formed ex_state.
Proof.
  split; [|split].
  - cbn. repeat constructor; cbn; intuition discriminate.
  - repeat constructor.
  - repeat constructor. discriminate.
Qed.

Lemma trash_operations_keep_page_well_formed_witness :
  well_formed ex_state /\
  well_formed (after session_1 ex_state) /\
  ids (after session_1 ex_state) = [ "run-1"; "run-0" ]%string /\
  marked (play [] ex_state double_click) /\
  ids (play [] ex_state double_click)
  = [ "run-0"; "run-0"; "run-1"; "run-2" ]%string.
Proof.
  destruct (trash_operations_keep_page_well_formed ex_state ex_state_well_formed)
    as (H1 & H2).
  split; [exact ex_state_well_formed|].
  split; [exact (proj1 (H1 session_1))|].
  split; [reflexivity|].
  split; [exact (proj1 (H2 double_click))|reflexivity].
Defined.

(** *** Operations on ids the page does not hold *)

(** A soft delete of an id that is not active and a restore of an id that
    is not in the trash change nothing at all; a permanent delete of an id
    that is not in the trash leaves both lists as they were. *)
Theorem unknown_id_changes_no_list :
  forall (s : State) (i now : string),
    (~ In i (map id (activeItems s)) -> softDelete i now s = s) /\
    (~ In i (map id (trashItems s)) ->
     restore i s = s /\
     activeItems (permanentDelete i s) = activeItems s /\
     trashItems (permanentDelete i s) = trashItems s).
Proof.
  intros s i now. split.
  - intros H. unfold softDelete, handleSoftDelete.
    rewrite (find_absent _ _ H). reflexivity.
  - intros H. split; [|split].
    + unfold restore, handleRestore. rewrite (find_absent _ _ H). reflexivity.
    + reflexivity.
    + cbn. apply filter_not_id_absent, H.
Qed.

Lemma unknown_id_changes_no_list_witness :
  softDelete "run-9" "2025-01-06T09:30:00.000Z" ex_state = ex_state /\
  restore "run-9" ex_state = ex_state /\
  trashItems (permanentDelete "run-9" ex_state) = trashItems ex_state.
Proof.
  destruct (unknown_id_changes_no_list ex_state "run-9"
              "2025-01-06T09:30:00.000Z") as (H1 & H2).
  assert (Ha : ~ In "run-9"%string (map id (activeItems ex_state)))
    by (cbn; intuition discriminate).
  assert (Ht : ~ In "run-9"%string (map id (trashItems ex_state)))
    by (cbn; intuition discriminate).
  destruct (H2 Ht) as (H3 & _ & H4).
  split; [exact (H1 Ha)|]. split; [exact H3|exact H4].
Defined.

(** *** Move all to trash, then restore one *)

(** On a page with pairwise distinct ids, after everything was moved to
    the trash ([getIdToken()] having resolved), restoring one of the items
    that were active makes it the only active item, with its deletion time
    cleared and its other fields as they were, and takes it, and nothing
    else, out of the trash. *)
Theorem clearAll_then_restore_one :
  forall (s : State) (item : HistoryItem) (now : string),
    NoDup (ids s) ->
    In item (activeItems s) ->
    let s1 := clearAll now true s in
    let s2 := restore (id item) s1 in
    activeItems s2 = [with_deletedAt item None] /\
    ~ In (id item) (map id (trashItems s2)) /\
    (forall other, id other <> id item ->
       (In other (trashItems s2) <-> In other (trashItems s1))).
Proof.
  intros s item now Hnd Hin s1 s2. subst s1.
  assert (Hw : NoDup (ids (clearAll now true s))).
  { unfold clearAll, handleClearAll, ids. cbn. rewrite map_app, map_map. cbn.
    unfold ids in Hnd. rewrite map_app in Hnd. exact Hnd. }
  assert (Hin' : In (with_deletedAt item (Some now))
                    (trashItems (clearAll now true s))).
  { cbn. apply in_or_app. left.
    apply (in_map (fun i => with_deletedAt i (Some now))), Hin. }
  assert (Nt : NoDup (map id (trashItems (clearAll now true s)))).
  { apply well_formed_parts in Hw. apply Hw. }
  pose proof (find_unique_id _ _ Nt Hin') as E.
  change (id (with_deletedAt item (Some now))) with (id item) in E.
  subst s2. rewrite (restore_found _ _ _ E).
  cbn [activeItems trashItems].
  split; [|split].
  - destruct item; reflexivity.
  - apply filter_not_id_gone.
  - intros other Hne. apply filter_not_id_In, Hne.
Qed.

Lemma clearAll_then_restore_one_witness :
  let item := ex_item "run-2" "Keynote" None in
  NoDup (ids ex_state) /\ In item (activeItems ex_state) /\
  activeItems (restore "run-2"
                 (clearAll "2025-01-07T12:00:00.000Z" true ex_state))
  = [item].
Proof.
  cbv zeta.
  assert (Hnd : NoDup (ids ex_state)) by apply ex_state_well_formed.
  assert (Hin : In (ex_item "run-2" "Keynote" None) (activeItems ex_state))
    by (right; left; reflexivity).
  split; [exact Hnd|]. split; [exact Hin|].
  exact (proj1 (clearAll_then_restore_one ex_state
                  (ex_item "run-2" "Keynote" None)
                  "2025-01-07T12:00:00.000Z" Hnd Hin)).
Defined.

(** *** The purge countdown over time *)

Lemma ceil_div_unique a b c :
  0 < b -> (c - 1) * b < a <= c * b -> ceil_div a b = c.
Proof.
  intros Hb H. pose proof (ceil_div_spec a b Hb). nia.
Qed.

Lemma ceil_div_mono a a' b : 0 < b -> a <= a' -> ceil_div a b <= ceil_div a' b.
Proof.
  intros Hb H.
  pose proof (ceil_div_spec a b Hb). pose proof (ceil_div_spec a' b Hb). nia.
Qed.

(** The countdown starts at 10 at the moment of the deletion, never goes
    up as time passes, and goes down by exactly one with each full day,
    until it stays at 0. *)
Theorem countdown_loses_one_per_day :
  forall deletedAt now : Z,
    daysUntilPurge deletedAt deletedAt = 10 /\
    (forall later, now <= later ->
                   daysUntilPurge deletedAt later <= daysUntilPurge deletedAt now) /\
    daysUntilPurge deletedAt (now + MS_PER_DAY)
    = Z.max 0 (daysUntilPurge deletedAt now - 1).
Proof.
  intros d now.
  assert (HD : 0 < MS_PER_DAY) by reflexivity.
  split; [|split].
  - rewrite daysUntilPurge_ceil.
    rewrite (ceil_div_unique _ MS_PER_DAY 10 HD); [reflexivity|].
    unfold RETENTION_DAYS, MS_PER_DAY. lia.
  - intros later Hl. rewrite !daysUntilPurge_ceil.
    pose proof (ceil_div_mono (d + RETENTION_DAYS * MS_PER_DAY - later)
                  (d + RETENTION_DAYS * MS_PER_DAY - now) MS_PER_DAY HD
                  ltac:(lia)).
    lia.
  - rewrite !daysUntilPurge_ceil.
    set (r := d + RETENTION_DAYS * MS_PER_DAY - now).
    replace (d + RETENTION_DAYS * MS_PER_DAY - (now + MS_PER_DAY))
      with (r - MS_PER_DAY) by (unfold r; lia).
    pose proof (ceil_div_spec r MS_PER_DAY HD) as Hr.
    rewrite (ceil_div_unique (r - MS_PER_DAY) MS_PER_DAY
               (ceil_div r MS_PER_DAY - 1) HD) by lia.
    lia.
Qed.

(** The badge of a row: none outside the trash or without a deletion
    time; ['Deletes today'] exactly once 10 days have passed, and then in
    red; before that the number of days left, at least 1, in red exactly
    during the last two days (from 8 days after the deletion on). *)
Theorem badge_follows_the_countdown :
  forall (isTrash : bool) (deletedAt : option Z) (now : Z),
    match badge isTrash deletedAt now with
    | NoBadge => isTrash = false \/ deletedAt = None
    | DeletesToday red =>
        isTrash = true /\ red = true /\
        exists d, deletedAt = Some d /\ d + 10 * MS_PER_DAY <= now
    | DeletesIn days red =>
        isTrash = true /\
        exists d, deletedAt = Some d /\ now < d + 10 * MS_PER_DAY /\
                  days = daysUntilPurge d now /\ 1 <= days /\
                  (red = true <-> d + 8 * MS_PER_DAY <= now)
    end.
Proof.
  intros isTrash deletedAt now. unfold badge.
  destruct isTrash; [|left; reflexivity].
  destruct deletedAt as [d|]; [|right; reflexivity].
  assert (HD : 0 < MS_PER_DAY) by reflexivity.
  pose proof (daysUntilPurge_ceil d now) as E.
  pose proof (ceil_div_spec (d + RETENTION_DAYS * MS_PER_DAY - now)
                MS_PER_DAY HD) as Hs.
  assert (HR : RETENTION_DAYS = 10) by reflexivity.
  destruct (daysUntilPurge d now =? 0) eqn:E0.
  - apply Z.eqb_eq in E0. rewrite E0. split; [reflexivity|].
    split; [reflexivity|]. exists d. split; [reflexivity|]. nia.
  - apply Z.eqb_neq in E0. split; [reflexivity|].
    exists d. split; [reflexivity|].
    split; [nia|]. split; [reflexivity|]. split; [lia|].
    rewrite Z.leb_le. split; intros; nia.
Qed.

(** *** Loading the history *)



(** *** Search and source filter *)

Section Filtering.

Variable toLowerCase : string -> string.

Local Abbreviation filtered := (History.filtered toLowerCase).

Lemma includes_empty s : includes s "" = true.
Proof. destruct s; reflexivity. Qed.

Lemma SourceType_eqb_eq a b : SourceType_eqb a b = true <-> a = b.
Proof. destruct a, b; simpl; split; intros H; congruence. Qed.

Lemma filter_length_split {A} (f g h k : A -> bool) (l : list A) :
  (forall x, f x = true ->
     (g x = true /\ h x = false /\ k x = false) \/
     (g x = false /\ h x = true /\ k x = false) \/
     (g x = false /\ h x = false /\ k x = true)) ->
  List.length (filter f l)
  = (List.length (filter (fun x => f x && g x) l)
     + List.length (filter (fun x => f x && h x) l)
     + List.length (filter (fun x => f x && k x) l))%nat.
Proof.
  intros H. induction l as [|x l IH]; [reflexivity|].
  cbn [filter]. destruct (f x) eqn:E; cbn [andb]; [|exact IH].
  destruct (H x E) as [(-> & -> & ->)|[(-> & -> & ->)|(-> & -> & ->)]];
    cbn [List.length]; lia.
Qed.

(** A search that lower-cases to the empty string together with the
    filter ['all'] shows the whole tab; a source filter shows only items
    of that source, all of them among what ['all'] shows; and the three
    source filters split what ['all'] shows: their counts add up to its
    count. *)
Theorem filtered_view :
  forall (tab : Tab) (search : string) (s : State),
    (toLowerCase search = ""%string -> filtered tab search all s = items tab s) /\
    (forall t item, In item (filtered tab search (only t) s) ->
                    sourceType item = t /\ In item (filtered tab search all s)) /\
    List.length (filtered tab search all s)
    = (List.length (filtered tab search (only youtube) s)
       + List.length (filtered tab search (only twitch) s)
       + List.length (filtered tab search (only upload) s))%nat.
Proof.
  intros tab search s. split; [|split].
  - intros E. unfold History.filtered, matchSearch. rewrite E.
    induction (items tab s) as [|x l IH]; [reflexivity|].
    cbn [filter matchType]. rewrite includes_empty. cbn [andb].
    f_equal. exact IH.
  - intros t item Hin. unfold History.filtered in *.
    apply filter_In in Hin as (Hin & Hm).
    apply andb_true_iff in Hm as (Hs & Ht).
    split; [apply SourceType_eqb_eq, Ht|].
    apply filter_In. split; [exact Hin|]. rewrite Hs. reflexivity.
  - unfold History.filtered.
    rewrite (filter_ext _ (fun item => matchSearch toLowerCase search item))
      by (intros; cbn [matchType]; apply andb_true_r).
    apply filter_length_split.
    intros x _. cbn [matchType]. destruct (sourceType x); cbn; tauto.
Qed.

End Filtering.

Lemma filtered_view_witness :
  Profile.toLowerCase "" = ""%string /\
  History.filtered Profile.toLowerCase active "" all ex_state
  = activeItems ex_state.
Proof.
  split; [reflexivity|].
  exact (proj1 (filtered_view Profile.toLowerCase active "" ex_state) eq_refl).
Defined.

End HistoryPageProps.

(** ** White space, as [trim] and [\s] read it *)

Module WhiteSpaceProps.
Import Dashboard.

(** U+00A0, the no-break space, as its two bytes. *)
Definition nbsp : string :=
  String (ascii_of_nat 194) (String (ascii_of_nat 160) EmptyString).

(** A byte below 128 is a character of its own: it is no part of a
    white-space character of several bytes. *)
Ltac not_byte x :=
  repeat match goal with
         | |- context [(byte x =? ?k)%nat] =>
             replace (byte x =? k)%nat with false
               by (symmetry; apply Nat.eqb_neq; lia)
         | |- context [(?k <=? byte x)%nat] =>
             replace (k <=? byte x)%nat with false
               by (symmetry; apply Nat.leb_gt; lia)
         end.

Lemma plain_first x c1 c2 :
  (byte x < 128)%nat ->
  two_byte_space x c1 = false /\ three_byte_space x c1 c2 = false.
Proof.
  intros H. unfold two_byte_space, three_byte_space. not_byte x. split; reflexivity.
Qed.

Lemma plain_second c x c2 :
  (byte x < 128)%nat ->
  two_byte_space c x = false /\ three_byte_space c x c2 = false.
Proof.
  intros H. unfold two_byte_space, three_byte_space. not_byte x.
  rewrite !andb_false_r. split; reflexivity.
Qed.

Lemma plain_third c c1 x :
  (byte x < 128)%nat -> three_byte_space c c1 x = false.
Proof.
  intros H. unfold three_byte_space. not_byte x.
  cbn [andb orb]. rewrite !andb_false_r. reflexivity.
Qed.

Lemma width_plain x r :
  (byte x < 128)%nat -> one_byte_space x = false ->
  space_width (String x r) = 0%nat.
Proof.
  intros H H1. unfold space_width. rewrite H1.
  destruct r as [|c1 [|c2 r]]; try reflexivity;
    rewrite ?(proj1 (plain_first x c1 c1 H)); try reflexivity.
  rewrite (proj2 (plain_first x c1 c2 H)). reflexivity.
Qed.

Lemma width_before_plain c x r :
  (byte x < 128)%nat -> one_byte_space c = false ->
  space_width (String c (String x r)) = 0%nat.
Proof.
  intros H H1. unfold space_width. rewrite H1.
  rewrite (proj1 (plain_second c x x H)).
  destruct r as [|c2 r]; [reflexivity|].
  rewrite (proj2 (plain_second c x c2 H)). reflexivity.
Qed.

Lemma width_two_before_plain c c1 x r :
  (byte x < 128)%nat -> one_byte_space c = false ->
  two_byte_space c c1 = false ->
  space_width (String c (String c1 (String x r))) = 0%nat.
Proof.
  intros H H1 H2. unfold space_width. rewrite H1, H2, (plain_third c c1 x H).
  reflexivity.
Qed.

Lemma width_0_parts c r :
  space_width (String c r) = 0%nat ->
  one_byte_space c = false /\
  match r with
  | String c1 _ => two_byte_space c c1 = false
  | EmptyString => True
  end.
Proof.
  unfold space_width. destruct (one_byte_space c); [discriminate|].
  intros H. split; [reflexivity|].
  destruct r as [|c1 r]; [exact I|].
  destruct (two_byte_space c c1); [discriminate|reflexivity].
Qed.



Lemma underscore_plain : (byte "_"%char < 128)%nat /\ one_byte_space "_"%char = false.
Proof. split; [cbv; lia|reflexivity]. Qed.

(** *** Replacing white space *)

(** No position of the string starts a white-space character. *)
Fixpoint no_space (s : string) : bool :=
  match s with
  | EmptyString => true
  | String _ rest => (space_width s =? 0)%nat && no_space rest
  end.

Lemma replace_head s :
  replace_from 0 false s
  = match s with
    | EmptyString => EmptyString
    | String c r =>
        match space_width s with
        | O => String c (replace_from 0 false r)
        | S k => String "_"%char (replace_from k true r)
        end
    end.
Proof. destruct s; reflexivity. Qed.

Lemma width_replaced c rest :
  space_width (String c rest) = 0%nat ->
  space_width (String c (replace_from 0 false rest)) = 0%nat.
Proof.
  intros H. destruct (width_0_parts _ _ H) as (H1 & H2).
  destruct underscore_plain as (U & _).
  destruct rest as [|c1 r1]; [exact H|].
  rewrite replace_head.
  destruct (space_width (String c1 r1)); [|apply width_before_plain; assumption].
  destruct r1 as [|c2 r2]; [exact H|].
  rewrite replace_head.
  destruct (space_width (String c2 r2)); [exact H|].
  apply width_two_before_plain; assumption.
Qed.

Lemma replace_from_no_space s : forall k b, no_space (replace_from k b s) = true.
Proof.
  induction s as [|c rest IH]; intros k b; [reflexivity|].
  cbn [replace_from]. destruct k as [|k]; [|apply IH].
  destruct (space_width (String c rest)) as [|w] eqn:W.
  - cbn [no_space]. rewrite (width_replaced _ _ W), IH. reflexivity.
  - destruct underscore_plain as (U & U1).
    destruct b; [apply IH|].
    cbn [no_space]. rewrite (width_plain _ _ U U1), IH. reflexivity.
Qed.

Lemma replace_from_fixed s : forall b, no_space s = true -> replace_from 0 b s = s.
Proof.
  induction s as [|c rest IH]; intros b; [reflexivity|].
  cbn [no_space]. intros H. apply andb_true_iff in H as (Hc & Hr).
  apply Nat.eqb_eq in Hc. cbn [replace_from]. rewrite Hc, (IH false Hr).
  reflexivity.
Qed.

Lemma replace_from_length s : forall k b,
  (String.length (replace_from k b s) <= String.length s)%nat.
Proof.
  induction s as [|c rest IH]; intros k b; [apply Nat.le_refl|].
  cbn [replace_from]. destruct k as [|k].
  - destruct (space_width (String c rest)) as [|w].
    + cbn [String.length]. specialize (IH 0%nat false). lia.
    + destruct b; cbn [String.length]; specialize (IH w true); lia.
  - cbn [String.length]. specialize (IH k b). lia.
Qed.

(** An extension made of bytes below 128, the first of which is no white
    space, adds no white space to a name that holds none. *)
Lemma no_space_app_plain a x r :
  (byte x < 128)%nat -> no_space (String x r) = true ->
  no_space a = true -> no_space (a ++ String x r) = true.
Proof.
  intros Hx Hb. induction a as [|c rest IH]; [intros _; exact Hb|].
  cbn [no_space append]. intros H. apply andb_true_iff in H as (Hc & Hr).
  rewrite (IH Hr), andb_true_r. apply Nat.eqb_eq in Hc. apply Nat.eqb_eq.
  destruct (width_0_parts _ _ Hc) as (H1 & H2).
  destruct rest as [|c1 [|c2 rest]]; cbn [append].
  - apply width_before_plain; assumption.
  - apply width_two_before_plain; assumption.
  - exact Hc.
Qed.

(** *** Trimming *)

Import Profile.












End WhiteSpaceProps.

(** ** Dashboard: the progress animation, the outcome of a request, reset
    and download *)

Module DashboardPageProps.
Import Types Dashboard.
Import DashboardProps.

(** *** The progress animation in closed form *)

(** Where the bar stands after [n] firings of the interval: one point per
    firing up to 85, then one point per eight firings, up to 97. *)
Definition progress_at (n : Z) : Z :=
  if n <=? 85 then n else Z.min 97 (75 + n / 8).

Lemma progress_updater_at stages n :
  0 <= n ->
  fst (progress_updater stages (n + 1) (progress_at n)) = progress_at (n + 1).
Proof.
  intros Hn. unfold progress_updater, progress_at.
  destruct (n <=? 85) eqn:E1; destruct (n + 1 <=? 85) eqn:E2;
    try apply Z.leb_le in E1; try apply Z.leb_le in E2;
    try apply Z.leb_gt in E1; try apply Z.leb_gt in E2; try lia.
  - destruct (97 <=? n) eqn:E3; [apply Z.leb_le in E3; lia|].
    destruct (85 <=? n) eqn:E4; [apply Z.leb_le in E4; lia|].
    cbn [andb fst]. lia.
  - assert (n = 85) by lia. subst n. reflexivity.
  - destruct (97 <=? Z.min 97 (75 + n / 8)) eqn:E3.
    + apply Z.leb_le in E3. cbn [fst]. Z.div_mod_to_equations. lia.
    + apply Z.leb_gt in E3.
      destruct (85 <=? Z.min 97 (75 + n / 8)) eqn:E4;
        [|apply Z.leb_gt in E4; Z.div_mod_to_equations; lia].
      destruct ((n + 1) mod 8 =? 0) eqn:E5; cbn [negb andb fst].
      * apply Z.eqb_eq in E5. Z.div_mod_to_equations. lia.
      * apply Z.eqb_neq in E5. Z.div_mod_to_equations. lia.
Qed.

Lemma ticks_timeline stages s n :
  tickCount (ticks n stages (start s)) = Z.of_nat n /\
  progress (ticks n stages (start s)) = progress_at (Z.of_nat n).
Proof.
  induction n as [|n (IHt & IHp)].
  - split; reflexivity.
  - cbn [ticks]. split.
    + unfold tick. destruct (progress_updater _ _ _). cbn [tickCount]. lia.
    + rewrite progress_tick, IHt, IHp, progress_updater_at by lia.
      f_equal. lia.
Qed.

(** The bar after [n] firings of the 500 ms interval shows [n] percent up
    to the 85th firing and then gains one point at every firing whose
    number is a multiple of eight, up to 97: it first shows 85 at the 85th
    firing (42.5 s) and first shows 97 at the 176th (88 s). *)
Theorem progress_bar_timeline :
  forall (stages : list string) (s : State) (n : nat),
    let shown := progress (ticks n stages (start s)) in
    shown = progress_at (Z.of_nat n) /\
    (85 <= shown <-> (85 <= n)%nat) /\
    (shown = 97 <-> (176 <= n)%nat).
Proof.
  intros stages s n shown.
  assert (E : shown = progress_at (Z.of_nat n)) by apply ticks_timeline.
  split; [exact E|]. rewrite E. unfold progress_at.
  destruct (Z.of_nat n <=? 85) eqn:E1;
    [apply Z.leb_le in E1|apply Z.leb_gt in E1];
    split; split; intros; try lia; Z.div_mod_to_equations; lia.
Qed.

(** *** The stage label *)

Lemma stages_for_length tab : List.length (stages_for tab) = 11%nat.
Proof. destruct tab; reflexivity. Qed.

Lemma stage_index_in_range tab next :
  0 <= next <= 97 ->
  stage_index next (stages_for tab) = next * 11 / 100 /\
  0 <= next * 11 / 100 <= 10.
Proof.
  intros H. unfold stage_index. rewrite stages_for_length.
  change (Z.of_nat 11) with 11. Z.div_mod_to_equations. lia.
Qed.

Lemma stage_label_step tab st :
  0 <= progress st <= 97 ->
  (1 <= progress st ->
   nth_error (stages_for tab) (Z.to_nat (progress st * 11 / 100))
   = Some (progressStage st)) ->
  nth_error (stages_for tab)
            (Z.to_nat (progress (tick (stages_for tab) st) * 11 / 100))
  = Some (progressStage (tick (stages_for tab) st)) /\
  1 <= progress (tick (stages_for tab) st) \/
  progress (tick (stages_for tab) st) = 0 /\ progress st = 0.
Proof.
  intros Hr Hl. unfold tick, progress_updater.
  destruct (97 <=? progress st) eqn:E1.
  { apply Z.leb_le in E1. cbn [progress progressStage].
    left. assert (E : progress st = 97) by lia. rewrite E in Hl.
    split; [apply Hl|]; lia. }
  apply Z.leb_gt in E1.
  destruct ((85 <=? progress st) && negb ((tickCount st + 1) mod 8 =? 0)) eqn:E2.
  { cbn [progress progressStage].
    apply andb_true_iff in E2 as (E2 & _). apply Z.leb_le in E2.
    left. split; [apply Hl|]; lia. }
  cbv zeta. cbn [progress progressStage].
  replace (Z.min (progress st + 1) 97) with (progress st + 1) by lia.
  destruct (stage_index_in_range tab (progress st + 1) ltac:(lia)) as (Ei & Hi).
  rewrite Ei.
  destruct (nth_error (stages_for tab) (Z.to_nat ((progress st + 1) * 11 / 100)))
    as [label|] eqn:En.
  - left. split; [reflexivity|lia].
  - apply nth_error_None in En. rewrite stages_for_length in En. lia.
Qed.

(** Once the bar has moved, the label under the spinner is the stage whose
    position in the stage list is the 11/100 of the percentage, rounded
    down; so the label never lags behind the bar and, like the bar, never
    goes back. *)
Theorem stage_label_follows_progress :
  forall (tab : SourceType) (s : State) (m n : nat),
    (1 <= m <= n)%nat ->
    let stages := stages_for tab in
    let at_m := ticks m stages (start s) in
    let at_n := ticks n stages (start s) in
    nth_error stages (Z.to_nat (progress at_n * 11 / 100))
    = Some (progressStage at_n) /\
    progress at_m * 11 / 100 <= progress at_n * 11 / 100 <= 10.
Proof.
  intros tab s m n Hmn stages at_m at_n. split.
  - assert (G : forall k,
               nth_error stages
                 (Z.to_nat (progress (ticks (S k) stages (start s)) * 11 / 100))
               = Some (progressStage (ticks (S k) stages (start s))) /\
               1 <= progress (ticks (S k) stages (start s))).
    { induction k as [|k (IH1 & IH2)].
      - subst stages. destruct tab; split; reflexivity.
      - pose proof (progress_ticks_range stages s (S k)) as Hr.
        change (ticks (S (S k)) stages (start s))
          with (tick stages (ticks (S k) stages (start s))).
        destruct (stage_label_step tab _ Hr (fun _ => IH1)) as [H|H];
          [exact H|lia]. }
    destruct n as [|n]; [lia|]. apply G.
  - subst at_m at_n.
    rewrite (proj2 (ticks_timeline stages s m)),
            (proj2 (ticks_timeline stages s n)).
    assert (Hle : progress_at (Z.of_nat m) <= progress_at (Z.of_nat n) <= 97).
    { unfold progress_at.
      destruct (Z.of_nat m <=? 85) eqn:E1;
        [apply Z.leb_le in E1|apply Z.leb_gt in E1];
        (destruct (Z.of_nat n <=? 85) eqn:E2;
         [apply Z.leb_le in E2|apply Z.leb_gt in E2]);
        Z.div_mod_to_equations; lia. }
    Z.div_mod_to_equations. lia.
Qed.

Lemma stage_label_follows_progress_witness :
  (1 <= 40 <= 130)%nat /\
  progressStage (ticks 130 (stages_for youtube) (start (mkState false 0 "" [] 0 None)))
  = "Finalising clips…"%string.
Proof.
  split; [lia|].
  pose proof (proj1 (stage_label_follows_progress youtube
                       (mkState false 0 "" [] 0 None) 40 130 ltac:(lia))) as H.
  cbv zeta in H.
  assert (E : progress (ticks 130 (stages_for youtube)
                          (start (mkState false 0 "" [] 0 None))) = 91)
    by (vm_compute; reflexivity).
  rewrite E in H. vm_compute in H. vm_compute.
  congruence.
Defined.

(** *** How a request ends *)

Lemma ticks_keep stages s n :
  clips (ticks n stages s) = clips s /\
  alerted (ticks n stages s) = alerted s /\
  processing (ticks n stages s) = processing s.
Proof.
  induction n as [|n (IH1 & IH2 & IH3)]; [repeat split|].
  cbn [ticks]. unfold tick. destruct (progress_updater _ _ _).
  cbn [clips alerted processing]. repeat split; assumption.
Qed.

(** The handler returns: [getIdToken()] settles and, when the response
    arrives before the timer fires, so does the reading of its body. *)
Definition returns (b : Backend) : bool :=
  match getIdToken b with
  | Hangs => false
  | Rejects _ _ _ => true
  | Resolves a _ =>
      (TIMEOUT_MS <=? a) ||
      match fetch b with
      | Hangs | Rejects _ _ _ => true
      | Resolves d response =>
          (TIMEOUT_MS <=? a + d) ||
          match json response with
          | Hangs => false
          | _ => true
          end
      end
  end.

(** The body read from an [ok] response that arrived before the timer
    fired, however long the reading took. *)
Definition answer (b : Backend) : option Json :=
  match getIdToken b, fetch b with
  | Resolves a _, Resolves d response =>
      if (a <? TIMEOUT_MS) && (a + d <? TIMEOUT_MS) && ok response then
        match json response with
        | Resolves _ data => Some data
        | _ => None
        end
      else None
  | _, _ => None
  end.

Definition answered_clips (b : Backend) : list GeneratedClip :=
  match answer b with
  | Some data => json_clips data
  | None => []
  end.

Lemma await_response_outcome (T : Z -> State) (b : Backend) :
  (forall ms, clips (T ms) = [] /\ alerted (T ms) = None /\
              processing (T ms) = true) ->
  let s1 := await_response T b in
  processing s1 = negb (returns b) /\
  clips s1 = (if completed_in_time b then answered_clips b else []) /\
  (alerted s1 = None <-> returns b = false \/ answer b <> None) /\
  (response_overdue b = true -> alerted s1 = Some TIMED_OUT_MESSAGE) /\
  screen s1 = (if completed_in_time b
               then match answered_clips b with
                    | [] => MainForm
                    | _ :: _ => ResultsScreen
                    end
               else if returns b then MainForm else ProcessingScreen).
Proof.
  intros K. cbv zeta.
  unfold await_response, completed_in_time, answered_clips, answer, returns,
    response_overdue.
  cbv zeta.
  assert (A : forall nm msg ms,
             let r := finally (catch_error nm msg (T ms)) in
             processing r = false /\ clips r = [] /\
             alerted r = Some (if String.eqb nm "AbortError" then TIMED_OUT_MESSAGE
                               else failure_message msg) /\
             screen r = MainForm).
  { intros nm msg ms. cbv zeta. destruct (K ms) as (Hc & Ha & Hp).
    unfold screen, finally, catch_error. cbn [processing clips alerted].
    rewrite Hc. repeat split. }
  assert (H0 : forall ms,
             let r := T ms in
             processing r = true /\ clips r = [] /\ alerted r = None /\
             screen r = ProcessingScreen).
  { intros ms. cbv zeta. destruct (K ms) as (Hc & Ha & Hp).
    unfold screen. rewrite Hc, Ha, Hp. repeat split. }
  assert (AB : forall ms,
             let r := finally (catch_error "AbortError"
                                 "The operation was aborted." (T ms)) in
             processing r = false /\ clips r = [] /\
             alerted r = Some TIMED_OUT_MESSAGE /\ screen r = MainForm)
    by (intros ms; apply (A "AbortError"%string)).
  revert A H0 AB. generalize TIMED_OUT_MESSAGE. intros TO A H0 AB.
  destruct (getIdToken b) as [|a []|a nm msg].
  - destruct (H0 TIMEOUT_MS) as (Hp & Hc & Ha & Hs).
    rewrite Hp, Hc, Ha, Hs.
    repeat split; try discriminate; auto.
  - rewrite !Z.ltb_antisym.
    destruct (TIMEOUT_MS <=? a) eqn:Ea; cbn [negb andb orb].
    { destruct (AB a) as (Hp & Hc & Ha & Hs).
      rewrite Hp, Hc, Ha, Hs.
      destruct (fetch b);
        repeat split; try discriminate; intros [H|H]; congruence. }
    destruct (fetch b) as [|d response|d nm msg].
    + destruct (AB TIMEOUT_MS) as (Hp & Hc & Ha & Hs).
      rewrite Hp, Hc, Ha, Hs.
      repeat split; try discriminate; intros [H|H]; congruence.
    + rewrite !Z.ltb_antisym.
      destruct (TIMEOUT_MS <=? a + d) eqn:Ed; cbn [negb andb orb].
      { destruct (AB TIMEOUT_MS) as (Hp & Hc & Ha & Hs).
        rewrite Hp, Hc, Ha, Hs.
        repeat split; try discriminate; intros [H|H]; congruence. }
      destruct (K (a + d)) as (Hc & Ha & Hp).
      destruct (ok response); cbn [andb];
        destruct (json response) as [|t data|t nm msg].
      * destruct (H0 (a + d)) as (Hp' & Hc' & Ha' & Hs').
        rewrite Hp', Hc', Ha', Hs'.
        repeat split; try discriminate; auto.
      * unfold screen, finally, settle.
        destruct (String.eqb (json_status data) "completed");
          cbn [processing clips alerted]; rewrite ?Hc, ?Ha; cbn [negb].
        -- destruct (json_clips data); repeat split; try discriminate;
             intros; right; discriminate.
        -- repeat split; try discriminate; intros; right; discriminate.
      * destruct (A nm msg (a + d)) as (Hp' & Hc' & Ha' & Hs').
        rewrite Hp', Hc', Ha', Hs'.
        repeat split; try discriminate; intros [H|H]; congruence.
      * destruct (H0 (a + d)) as (Hp' & Hc' & Ha' & Hs').
        rewrite Hp', Hc', Ha', Hs'.
        repeat split; try discriminate; auto.
      * unfold screen, finally, settle, catch_error.
        cbn [processing clips alerted]. rewrite Hc. cbn [negb].
        repeat split; try discriminate; intros [H|H]; congruence.
      * unfold screen, finally, settle, catch_error.
        cbn [processing clips alerted]. rewrite Hc. cbn [negb].
        repeat split; try discriminate; intros [H|H]; congruence.
    + destruct (TIMEOUT_MS <=? a + d) eqn:Ed.
      * destruct (AB TIMEOUT_MS) as (Hp & Hc & Ha & Hs).
        rewrite Hp, Hc, Ha, Hs. cbn [negb orb].
        repeat split; try discriminate; intros [H|H]; congruence.
      * destruct (A nm msg (a + d)) as (Hp & Hc & Ha & Hs).
        rewrite Hp, Hc, Ha, Hs. cbn [negb orb].
        repeat split; try discriminate; intros [H|H]; congruence.
  - destruct (A nm msg a) as (Hp & Hc & Ha & Hs).
    rewrite Hp, Hc, Ha, Hs. cbn [negb].
    repeat split; try discriminate; intros [H|H]; congruence.
Qed.

Lemma handleGenerate_processing f b s :
  can_generate f = true ->
  processing (handleGenerate f b s) = negb (returns b).
Proof.
  intros Hg. unfold handleGenerate. rewrite Hg. cbn [negb]. cbv zeta.
  apply await_response_outcome. intros ms.
  destruct (ticks_keep (stages_for (sourceTab f)) (start s) (ticks_within ms))
    as (Hc & Ha & Hp).
  rewrite Hc, Ha, Hp. repeat split.
Qed.

(** A call of [handleGenerate] that passes its guards returns, with the
    spinner off, unless [getIdToken()] never settles or the body of a
    response that arrived in time never does; the page is then left
    processing.  The clips on screen are those of the body when the
    response arrived before the 15 minutes ran out, was [ok], and its body
    was read and says ['completed'], however long the reading took, and
    none otherwise, whatever was on screen before.  No alert is raised
    exactly when the handler does not return or such a body was read; the
    alert is the time-out message when the token was obtained and the
    response had not arrived after 15 minutes; a body whose status is not
    ['completed'] shows neither clips nor an alert.  The results grid is
    shown exactly when a completed body with at least one clip was read;
    otherwise the page is back on the form, or on the spinner when the
    handler does not return. *)
Theorem handleGenerate_outcome :
  forall (f : Form) (b : Backend) (s0 : State),
    can_generate f = true ->
    let s1 := handleGenerate f b s0 in
    processing s1 = negb (returns b) /\
    clips s1 = (if completed_in_time b then answered_clips b else []) /\
    (alerted s1 = None <-> returns b = false \/ answer b <> None) /\
    (response_overdue b = true -> alerted s1 = Some TIMED_OUT_MESSAGE) /\
    screen s1 = (if completed_in_time b
                 then match answered_clips b with
                      | [] => MainForm
                      | _ :: _ => ResultsScreen
                      end
                 else if returns b then MainForm else ProcessingScreen).
Proof.
  intros f b s0 Hg s1. subst s1.
  unfold handleGenerate. rewrite Hg. cbn [negb]. cbv zeta.
  apply await_response_outcome. intros ms.
  destruct (ticks_keep (stages_for (sourceTab f)) (start s0) (ticks_within ms))
    as (Hc & Ha & Hp).
  rewrite Hc, Ha, Hp. repeat split.
Qed.

Definition ready_form : Form :=
  act initial_form (TypeYoutubeUrl "https://www.youtube.com/watch?v=abc").

Definition idle : State := mkState false 0 "" [] 0 None.

(** The response arrives after a minute; its body, read in a second, says
    that the run is still processing. *)
Definition unfinished_answer : Backend :=
  {| getIdToken := Resolves 200 tt;
     fetch := Resolves 60000
                {| ok := true; http_code := 200;
                   json := Resolves 1000 (mkJson "processing" [] "") |} |}.

Lemma handleGenerate_outcome_witness :
  can_generate ready_form = true /\
  processing (handleGenerate ready_form unfinished_answer idle) = false /\
  clips (handleGenerate ready_form unfinished_answer idle) = [] /\
  alerted (handleGenerate ready_form unfinished_answer idle) = None /\
  screen (handleGenerate ready_form unfinished_answer idle) = MainForm.
Proof.
  destruct (handleGenerate_outcome ready_form unfinished_answer idle eq_refl)
    as (Hp & Hc & Ha & _ & Hs).
  split; [reflexivity|]. split; [exact Hp|]. split; [exact Hc|].
  split; [|exact Hs].
  apply Ha. right. discriminate.
Defined.

(** *** The Generate button and the guards *)

Lemma isReady_can_generate f : isReady f = can_generate f.
Proof.
  unfold isReady, can_generate.
  destruct (sourceTab f); cbn [tab_is andb orb];
    rewrite ?orb_false_r; reflexivity.
Qed.

(** The Generate button is enabled exactly when [handleGenerate] passes
    its guards: with the button disabled a call changes nothing and no
    request is built, whatever the backend would answer; with the button
    enabled a request is built, carrying the link or the file of the
    selected tab, and the call turns the spinner off whenever it
    returns.  A link made of white space only, no-break spaces included,
    leaves the button disabled. *)
Theorem button_enabled_iff_request_sent :
  forall f : Form,
    (if isReady f
     then (exists r, build_request f = Some r /\
                     request_settings r = clipSettings f /\
                     match sourceTab f with
                     | youtube => source r = FromYoutube (youtubeUrl f)
                     | twitch => source r = FromUrl (twitchUrl f)
                     | upload => exists file, uploadedFile f = Some file /\
                                              source r = FromUpload file
                     end) /\
          (forall b s, processing (handleGenerate f b s) = negb (returns b))
     else build_request f = None /\
          (forall b s, handleGenerate f b s = s)) /\
    isReady (act (act f (SelectTab youtube))
                 (TypeYoutubeUrl (" " ++ WhiteSpaceProps.nbsp))) = false.
Proof.
  intros f. split; [|reflexivity]. rewrite isReady_can_generate.
  destruct (can_generate f) eqn:E.
  - split.
    + unfold build_request. rewrite E. unfold can_generate in E.
      destruct (sourceTab f);
        [eexists; repeat split; reflexivity
        |eexists; repeat split; reflexivity|].
      destruct (uploadedFile f) as [file|]; [|discriminate].
      eexists. split; [reflexivity|]. split; [reflexivity|].
      exists file. split; reflexivity.
    + intros b s. apply handleGenerate_processing, E.
  - split.
    + unfold build_request. rewrite E. reflexivity.
    + intros b s. unfold handleGenerate. rewrite E. reflexivity.
Qed.

(** *** Start over *)

(** After [handleReset] the results are gone, the bar is at 0, nothing is
    playing and no source is left on any tab: whichever tab is selected
    next, the Generate button is disabled and a call of [handleGenerate]
    changes nothing.  The chosen tab and settings are kept, so the next
    request carries the same settings. *)
Theorem handleReset_clears_sources_keeps_settings :
  forall (p : Page) (t : SourceType),
    let p1 := handleReset p in
    clips (state p1) = [] /\
    progress (state p1) = 0 /\
    playingClip p1 = None /\
    isReady (act (form p1) (SelectTab t)) = false /\
    (forall b s, handleGenerate (act (form p1) (SelectTab t)) b s = s) /\
    sourceTab (form p1) = sourceTab (form p) /\
    clipSettings (form p1) = clipSettings (form p).
Proof.
  intros p t p1. subst p1.
  assert (R : can_generate (act (form (handleReset p)) (SelectTab t)) = false)
    by (destruct t; reflexivity).
  split; [reflexivity|]. split; [reflexivity|]. split; [reflexivity|].
  split; [rewrite isReady_can_generate; exact R|].
  split; [|split; reflexivity].
  intros b s. unfold handleGenerate. rewrite R. reflexivity.
Qed.

(** *** What the form keeps true *)

Definition form_consistent (f : Form) : Prop :=
  In (template (settings f)) TEMPLATES /\
  match duration (settings f) with
  | auto => True
  | seconds n => n = customDuration f
  end.

Lemma act_consistent f a : form_consistent f -> form_consistent (act f a).
Proof.
  intros (Ht & Hd).
  destruct a as [t|u|u|name|i|raw|i|i| |i]; cbn [act];
    try (split; [exact Ht|exact Hd]).
  - destruct (nth_error DURATION_OPTIONS i) as [[|d]|] eqn:E.
    + split; [exact Ht|exact I].
    + split; [exact Ht|reflexivity].
    + split; [exact Ht|exact Hd].
  - destruct (is_auto (duration (settings f))); [split; [exact Ht|exact Hd]|].
    split; [exact Ht|reflexivity].
  - destruct (nth_error ASPECT_RATIOS i); split; assumption.
  - destruct (nth_error CLIP_COUNT_OPTIONS i); split; assumption.
  - destruct (nth_error TEMPLATES i) as [t|] eqn:E; [|split; assumption].
    split; [|exact Hd]. cbn. apply (nth_error_In _ _ E).
Qed.

(** Whatever the user does to the form, the template of the settings is
    one of the six of the page, so the summary shows its name and not its
    id; and a numeric duration of the settings (the highlighted button) is
    the custom duration, which is the number the request carries. *)
Theorem form_shows_what_it_sends :
  forall actions : list Action,
    let f := session actions in
    In (template (settings f)) TEMPLATES /\
    In (template (settings f), template_name (template (settings f)))
       TEMPLATE_NAMES /\
    match duration (settings f) with
    | auto => p_duration (clipSettings f) = "auto"%string
    | seconds n =>
        n = customDuration f /\ p_duration (clipSettings f) = String_of n
    end.
Proof.
  intros actions f.
  assert (H : form_consistent f).
  { subst f. unfold session.
    assert (G : forall l g, form_consistent g -> form_consistent (fold_left act l g)).
    { induction l as [|a l IH]; intros g Hg; [exact Hg|].
      cbn [fold_left]. apply IH, act_consistent, Hg. }
    apply G. split; [left; reflexivity|exact I]. }
  destruct H as (Ht & Hd). split; [exact Ht|]. split.
  - revert Ht. generalize (template (settings f)). intros t Ht.
    repeat (destruct Ht as [<-|Ht]; [cbn; tauto|]). destruct Ht.
  - unfold clipSettings. cbn [p_duration].
    destruct (duration (settings f)) as [|n]; [reflexivity|].
    cbn [is_auto]. subst n. split; reflexivity.
Qed.

(** *** File names of downloads *)

Import WhiteSpaceProps.

(** The file name given to a downloaded clip is the title with every run
    of white space replaced by one underscore: no position of it starts a
    white-space character, it is never longer than the title, equals the
    title when the title holds no white space, and replacing again changes
    nothing.  A no-break space counts as white space: the title made of
    [a], a no-break space, a space and [b] gives [a_b]. *)
Theorem download_name_has_no_space :
  forall title : string,
    no_space (replace_spaces title) = true /\
    (String.length (replace_spaces title) <= String.length title)%nat /\
    (no_space title = true -> replace_spaces title = title) /\
    replace_spaces (replace_spaces title) = replace_spaces title /\
    replace_spaces ("a" ++ nbsp ++ " b") = "a_b"%string.
Proof.
  intros title. unfold replace_spaces.
  split; [apply replace_from_no_space|].
  split; [apply replace_from_length|].
  split; [apply replace_from_fixed|].
  split; [apply replace_from_fixed, replace_from_no_space|reflexivity].
Qed.

Lemma unusable_false url :
  unusable url = false <-> url <> ""%string /\ url <> "#"%string.
Proof.
  unfold unusable. rewrite orb_false_iff, !String.eqb_neq. reflexivity.
Qed.

(** A download from the results grid uses [downloadUrl], or [video_url]
    when [downloadUrl] is empty.  It is refused with an alert exactly when
    that address is empty or ['#'] (so a [downloadUrl] of ['#'] is refused
    even when [video_url] is good); otherwise the link opens in a new tab
    to that address, with an [.mp4] name in which no position starts a
    white-space character.  Whenever
    the clip card of the history page offers a real download, the results
    grid builds the very same link. *)
Theorem handleDownload_link :
  forall clip : GeneratedClip,
    let url := or_else (downloadUrl clip) (video_url clip) in
    match handleDownload clip with
    | NotAvailable _ => url = ""%string \/ url = "#"%string
    | Anchor href target name =>
        href = url /\ url <> ""%string /\ url <> "#"%string /\
        target = Some "_blank"%string /\
        name = (replace_spaces (title clip) ++ ".mp4")%string /\
        no_space name = true
    end /\
    (unusable (downloadUrl clip) = false ->
     History.handleDownload clip = handleDownload clip) /\
    (unusable (downloadUrl clip) = true ->
     History.handleDownload clip
     = Anchor ("data:text/plain;charset=utf-8,Tube Bite Demo - " ++ title clip)
              None (title clip ++ ".txt")).
Proof.
  intros clip url. split; [|split].
  - unfold handleDownload. fold url.
    destruct (unusable url) eqn:E.
    + unfold unusable in E. apply orb_true_iff in E.
      rewrite !String.eqb_eq in E. exact E.
    + apply unusable_false in E as (E1 & E2).
      repeat split; try assumption.
      apply no_space_app_plain; [cbv; lia|reflexivity|].
      apply replace_from_no_space.
  - intros E. unfold History.handleDownload, handleDownload. rewrite E.
    assert (Eu : or_else (downloadUrl clip) (video_url clip) = downloadUrl clip).
    { apply unusable_false in E as (E1 & _).
      destruct (downloadUrl clip); [congruence|reflexivity]. }
    rewrite Eu, E. reflexivity.
  - intros E. unfold History.handleDownload. rewrite E. reflexivity.
Qed.

End DashboardPageProps.

(** ** ThemeContext and the route guards *)

Module ShellProps.
Import Theme App.

(** Whatever was stored, the first toggle yields one of the two themes,
    and from then on toggling twice gives the theme back; toggling twice
    restores a theme exactly when it is ['dark'] or ['light'] (any other
    stored value is lost at the first toggle, which goes to ['dark']). *)
Theorem toggleTheme_flips_between_two :
  forall (saved : option string) (n : nat),
    let theme := initial_theme saved in
    theme <> ""%string /\
    (toggles (S n) theme = "dark"%string \/ toggles (S n) theme = "light"%string) /\
    toggles (S (S (S n))) theme = toggles (S n) theme /\
    (toggleTheme (toggleTheme theme) = theme <->
     theme = "dark"%string \/ theme = "light"%string).
Proof.
  intros saved n theme.
  assert (T : forall t, toggleTheme t = "dark"%string \/ toggleTheme t = "light"%string).
  { intros t. unfold toggleTheme. destruct (String.eqb t "dark"); auto. }
  assert (I : forall t, t = "dark"%string \/ t = "light"%string ->
                        toggleTheme (toggleTheme t) = t).
  { intros t [->| ->]; reflexivity. }
  split; [|split; [|split]].
  - subst theme. destruct saved as [[|c r]|]; discriminate.
  - apply T.
  - cbn [toggles]. apply I, T.
  - split; [|apply I].
    intros E. rewrite <- E. destruct (T (toggleTheme theme)); auto.
Qed.

Definition protected (p : Page) : bool :=
  match p with
  | Dashboard | History | Profile => true
  | _ => false
  end.

Definition for_guests (p : Page) : bool :=
  match p with
  | Login | Signup => true
  | _ => false
  end.

(** Whatever the location and the state of the authentication, at most
    one redirection leads to something drawn (no redirection loop); the
    loading screen is drawn only while the authentication is loading; a
    page behind [ProtectedRoute] is drawn only for a signed-in user, the
    login and signup pages only for a visitor who is not signed in; and an
    unknown path ends on the landing page. *)
Theorem routes_settle_after_one_redirect :
  forall (a : Auth) (l : Location),
    match render 1 a l with
    | Navigate _ => False
    | LoadingScreen => loading a = true
    | Show p =>
        (protected p = true -> user a = true /\ loading a = false) /\
        (for_guests p = true -> user a = false /\ loading a = false) /\
        (l = Elsewhere -> p = Landing)
    end.
Proof.
  intros [[|] [|]] [[| | | | |]|]; cbn;
    repeat split; intros; try reflexivity; discriminate.
Qed.

End ShellProps.

(** ** Profile *)

Module ProfileProps.
Import Dashboard Profile.
Import WhiteSpaceProps.

(** *** Usernames *)







(** *** Uploading an avatar *)



(** *** The avatar grid *)

Section GridProps.

Context {A : Type}.
Implicit Types (avatars l : list A).

Lemma firstn_plus (a b : nat) l :
  firstn (a + b) l = firstn a l ++ firstn b (skipn a l).
Proof.
  revert l. induction a as [|a IH]; intros l; [reflexivity|].
  destruct l as [|x l]; [destruct b; reflexivity|].
  cbn [Nat.add firstn skipn app]. rewrite IH. reflexivity.
Qed.

Lemma firstn_min (a : nat) l :
  firstn (Nat.min a (List.length l)) l = firstn a l.
Proof.
  destruct (Nat.le_gt_cases a (List.length l)) as [H|H].
  - rewrite Nat.min_l by exact H. reflexivity.
  - rewrite Nat.min_r by lia. rewrite !firstn_all2 by lia. reflexivity.
Qed.

Lemma page_count_ceil avatars :
  page_count avatars = - ((- Z.of_nat (List.length avatars)) / 24).
Proof.
  unfold page_count, ITEMS_PER_PAGE, Qceiling, Qfloor, Qdiv, Qmult, Qinv,
    Qopp, inject_Z.
  cbn [Qnum Qden]. rewrite Z.mul_1_r. reflexivity.
Qed.

Lemma page_count_spec avatars :
  (page_count avatars - 1) * 24 < Z.of_nat (List.length avatars)
  <= page_count avatars * 24.
Proof.
  rewrite page_count_ceil. Z.div_mod_to_equations. lia.
Qed.

Lemma page_items_chunk avatars (p : nat) :
  page_items avatars (Z.of_nat p) = firstn 24 (skipn (24 * p) avatars).
Proof.
  unfold page_items, slice, relative, ITEMS_PER_PAGE.
  set (len := List.length avatars).
  assert (E1 : (Z.of_nat p * 24 <? 0) = false) by (apply Z.ltb_ge; lia).
  assert (E2 : ((Z.of_nat p + 1) * 24 <? 0) = false) by (apply Z.ltb_ge; lia).
  rewrite E1, E2.
  destruct (Nat.le_gt_cases len (24 * p)) as [H|H].
  - replace (Z.to_nat (Z.min (Z.of_nat p * 24) (Z.of_nat len))) with len by lia.
    rewrite (skipn_all2 avatars) by (fold len; lia).
    rewrite (skipn_all2 avatars) by (fold len; lia).
    rewrite !firstn_nil. reflexivity.
  - replace (Z.to_nat (Z.min (Z.of_nat p * 24) (Z.of_nat len)))
      with (24 * p)%nat by lia.
    replace (Z.to_nat (Z.min ((Z.of_nat p + 1) * 24) (Z.of_nat len)
                       - Z.min (Z.of_nat p * 24) (Z.of_nat len)))
      with (Nat.min 24 (List.length (skipn (24 * p) avatars)))
      by (rewrite length_skipn; fold len; lia).
    apply firstn_min.
Qed.

Lemma chunks_firstn avatars (n : nat) :
  List.concat (map (fun p => page_items avatars (Z.of_nat p)) (seq 0 n))
  = firstn (24 * n) avatars.
Proof.
  induction n as [|n IH]; [reflexivity|].
  rewrite seq_S, map_app, concat_app, IH. cbn [map List.concat Nat.add].
  rewrite app_nil_r, page_items_chunk.
  replace (24 * S n)%nat with (24 * n + 24)%nat by lia.
  symmetry. apply firstn_plus.
Qed.

(** The numbers of the pages of the grid, from 0. *)
Definition page_numbers avatars : list Z :=
  map Z.of_nat (seq 0 (Z.to_nat (page_count avatars))).

(** The pages of the grid, one after the other, are the avatar table: each
    avatar is drawn on exactly one page, in the order of the table. *)
Theorem pages_partition_the_avatars :
  forall avatars,
    List.concat (map (page_items avatars) (page_numbers avatars)) = avatars.
Proof.
  intros avatars. unfold page_numbers. rewrite map_map.
  rewrite chunks_firstn. apply firstn_all2.
  pose proof (page_count_spec avatars). lia.
Qed.

Lemma click_in_range avatars p c :
  0 <= p <= page_count avatars - 1 ->
  0 <= click avatars p c <= page_count avatars - 1.
Proof.
  intros H. unfold click, previous, next.
  destruct c.
  - destruct (p =? 0); lia.
  - destruct (page_count avatars - 1 <=? p) eqn:E; [lia|].
    apply Z.leb_gt in E. lia.
Qed.

(** In a grid that holds at least one avatar, whatever sequence of
    Previous and Next clicks is made from the first page, the page number
    stays between 0 and the last page, and the page drawn holds between 1
    and 24 avatars. *)
Theorem browsing_stays_on_a_page :
  forall avatars (clicks : list Click),
    avatars <> [] ->
    let p := browse avatars clicks in
    0 <= p <= page_count avatars - 1 /\
    (1 <= List.length (page_items avatars p) <= 24)%nat.
Proof.
  intros avatars clicks Hne p.
  pose proof (page_count_spec avatars) as Hs.
  assert (Hlen : (1 <= List.length avatars)%nat)
    by (destruct avatars; [congruence|cbn; lia]).
  assert (Hp : 0 <= p <= page_count avatars - 1).
  { subst p. unfold browse.
    assert (G : forall q, 0 <= q <= page_count avatars - 1 ->
                0 <= fold_left (click avatars) clicks q <= page_count avatars - 1).
    { induction clicks as [|c cs IH]; intros q Hq; [exact Hq|].
      cbn [fold_left]. apply IH, click_in_range, Hq. }
    apply G. lia. }
  split; [exact Hp|].
  rewrite <- (Z2Nat.id p) by lia.
  rewrite page_items_chunk, length_firstn, length_skipn. lia.
Qed.

End GridProps.

Lemma browsing_stays_on_a_page_witness :
  PRESET_AVATARS <> [] /\
  page_count PRESET_AVATARS = 7 /\
  browse PRESET_AVATARS [Next; Next; Previous; Next; Next; Next; Next; Next; Next] = 6 /\
  (1 <= List.length (page_items PRESET_AVATARS 6) <= 24)%nat.
Proof.
  assert (Hne : PRESET_AVATARS <> []) by discriminate.
  split; [exact Hne|]. split; [reflexivity|]. split; [reflexivity|].
  exact (proj2 (browsing_stays_on_a_page PRESET_AVATARS
                  [Next; Next; Previous; Next; Next; Next; Next; Next; Next]
                  Hne)).
Defined.

End ProfileProps.

(** ** AuthContext and the login form *)

Module AuthProps.
Import AuthContext.

(** Saving a profile never changes the id of the user, whatever the
    backend answers, and the stored copy always equals the user in memory.
    The call throws exactly when a token was available and the backend
    failed with a message that mentions 409 or, in any letter case,
    ['username']; the user is then exactly the one from before the call.
    In every other case the changes are applied: as sent when there is no
    token or the backend failed otherwise, and overlaid with the
    document of the backend when it answered.  Without a signed-in user
    nothing happens. *)
Theorem updateProfile_keeps_id_and_rolls_back :
  forall (updates : Updates) (token : option string) (put : Api) (st : Store),
    let st1 := fst (updateProfile updates token put st) in
    let threw := snd (updateProfile updates token put st) in
    match user st with
    | None => st1 = st /\ threw = false
    | Some u =>
        cached st1 = user st1 /\
        (exists u1, user st1 = Some u1 /\ id u1 = id u) /\
        (threw = true <->
         Profile.truthy token = true /\
         exists msg, put = Thrown msg /\ is_conflict msg = true) /\
        (threw = true -> user st1 = Some u) /\
        (threw = false ->
         user st1
         = Some (match put with
                 | Returned dbDoc =>
                     if Profile.truthy token
                     then spread_confirmed (spread_updates u updates) dbDoc u
                     else spread_updates u updates
                 | Thrown _ => spread_updates u updates
                 end))
    end.
Proof.
  intros updates token put st. cbv zeta. unfold updateProfile.
  destruct (user st) as [u|]; [|split; reflexivity].
  destruct (Profile.truthy token); cbn [negb].
  - destruct put as [dbDoc|msg].
    + cbn. split; [reflexivity|]. split; [eexists; split; reflexivity|].
      split; [|split; [discriminate|reflexivity]].
      split; [discriminate|]. intros (_ & msg & E & _). discriminate.
    + destruct (is_conflict msg) eqn:C; cbn.
      * split; [reflexivity|]. split; [eexists; split; reflexivity|].
        split; [|split; [reflexivity|discriminate]].
        split; [|reflexivity]. intros _. split; [reflexivity|].
        exists msg. split; [reflexivity|exact C].
      * split; [reflexivity|]. split; [eexists; split; reflexivity|].
        split; [|split; [discriminate|reflexivity]].
        split; [discriminate|].
        intros (_ & m & [= <-] & Hm). congruence.
  - cbn. split; [reflexivity|]. split; [eexists; split; reflexivity|].
    split; [|split; [discriminate|destruct put; reflexivity]].
    split; [discriminate|]. intros (E & _). discriminate.
Qed.

(** The message of a failed call is never empty: it is the detail of the
    error body when there is one, and ["HTTP "] followed by the status
    otherwise.  [checkUsername] reports a name as taken only with a token
    and a message that mentions 409, and whenever it does, saving with the
    same failure rolls back and throws; so a 409 without detail counts as
    taken, while a failure whose detail mentions neither 409 nor
    ['username'] counts as available and the save keeps the local
    changes. *)
Theorem conflicts_are_read_from_the_message :
  forall (status : Z) (statusText : string) (body : option (option string))
         (token : option string) (updates : Updates) (st : Store),
    let msg := error_message status statusText body in
    msg <> ""%string /\
    (forall d, body = Some (Some d) -> d <> ""%string -> msg = d) /\
    (body = Some None -> msg = ("HTTP " ++ Dashboard.String_of status)%string) /\
    (checkUsername token (Thrown msg) = false <->
     Profile.truthy token = true /\ History.includes msg "409" = true) /\
    (checkUsername token (Thrown msg) = false ->
     is_conflict msg = true /\
     (forall u, user st = Some u ->
        updateProfile updates token (Thrown msg) st
        = (setAndCache (Some u) (setAndCache (Some (spread_updates u updates)) st),
           true))) /\
    (status = 409 -> body = Some None ->
     is_conflict msg = true /\
     (Profile.truthy token = true -> checkUsername token (Thrown msg) = false)).
Proof.
  intros status statusText body token updates st msg.
  assert (Hc : checkUsername token (Thrown msg) = false <->
               Profile.truthy token = true /\ History.includes msg "409" = true).
  { unfold checkUsername. destruct (Profile.truthy token); cbn [negb].
    - rewrite negb_false_iff. tauto.
    - split; [discriminate|]. intros (E & _). discriminate. }
  split; [|split; [|split; [|split; [exact Hc|split]]]].
  - subst msg. unfold error_message.
    destruct body as [[d|]|]; cbv zeta.
    + destruct d; simpl; discriminate.
    + simpl. discriminate.
    + destruct statusText; simpl; discriminate.
  - intros d -> Hd. subst msg. unfold error_message.
    destruct d; [congruence|reflexivity].
  - intros ->. reflexivity.
  - intros H. apply Hc in H as (Ht & Hi).
    assert (C : is_conflict msg = true)
      by (unfold is_conflict; rewrite Hi; reflexivity).
    split; [exact C|]. intros u Hu.
    unfold updateProfile. rewrite Hu, Ht, C. reflexivity.
  - intros -> ->. subst msg.
    assert (Hi : History.includes (error_message 409 statusText (Some None)) "409"
                 = true) by reflexivity.
    split.
    + unfold is_conflict. rewrite Hi. reflexivity.
    + intros Ht. apply Hc. split; [exact Ht|exact Hi].
Qed.

(** *** Signing in *)




(** *** From the login form to the dashboard *)

(** What the route guards see of the provider. *)
Definition auth_of (st : Store) : App.Auth :=
  {| App.user := match user st with Some _ => true | None => false end;
     App.loading := loading st |}.

(** Submitting the login form with both fields filled calls [login],
    which signs the user in under the typed address, and navigates to the
    dashboard, which the route guard then draws; the form ends without
    error and not loading.  With an empty field [login] is not called,
    nothing is navigated to and the form asks for all fields. *)
Theorem login_form_reaches_the_dashboard :
  forall (f : Login.Form) (now : Z) (st : Store),
    if (negb (String.eqb (Login.email f) "") &&
        negb (String.eqb (Login.password f) ""))%bool
    then
      let r := Login.handleSubmit true f in
      let st1 := login (Login.email f) now st in
      Login.login_called r = true /\
      Login.navigated r = Some "/dashboard"%string /\
      Login.error (Login.form r) = ""%string /\
      Login.loading (Login.form r) = false /\
      (exists u, user st1 = Some u /\ email u = Login.email f) /\
      App.render 1 (auth_of st1) (App.On App.Dashboard) = App.Show App.Dashboard
    else
      forall resolves,
        let r := Login.handleSubmit resolves f in
        Login.login_called r = false /\
        Login.navigated r = None /\
        Login.error (Login.form r) = "All fields are required"%string.
Proof.
  intros f now st. unfold Login.handleSubmit.
  destruct (Login.email f) as [|c1 r1]; [intros resolves; repeat split|].
  destruct (Login.password f) as [|c2 r2]; [intros resolves; repeat split|].
  cbn [String.eqb negb andb]. cbv zeta. repeat split.
  eexists. split; reflexivity.
Qed.

End AuthProps.
